(** * V-Chat: a shallow embedding of the RAG chat application

    The development follows the layout of the repository: the strings and
    JSON values of the host language first, then one module per source file
    (retrieval service, completion service, documents routes, error
    middleware, chat service, chat controller, client chat store, client
    streaming hook), and after the embedding the properties proved about it.

    Conventions of the embedding.
    - A string is a [list ascii]; a character stands for one code unit in the
      range U+0000..U+00FF, so [length] is the host's [.length].
    - A host number that is only compared (similarity, threshold) is a
      rational [Q]; a count or an index is a [nat]; a number inside a JSON
      value is a decimal literal.
    - Text on the wire is the same list of characters as the string it
      encodes, and a streaming decoder gives back the text of each read.
    - A call that may throw returns a [Result]; the thrown value is an
      [AppError] on the server and a [Thrown] on the client.
    - The database is an explicit record of tables that every service
      function takes and returns. *)

From Stdlib Require Import List Bool Arith ZArith QArith Qround Lia Lqa.
From Stdlib Require Import Ascii.
From Stdlib Require String Decimal DecimalZ DecimalPos DecimalFacts.
Import String.StringSyntax.
Delimit Scope string_scope with string.
From Stdlib Require Import Sorting.Sorted Permutation.
Import ListNotations.

Set Implicit Arguments.
Local Close Scope Q_scope.
Local Open Scope list_scope.

(* ================================================================== *)
(** * Part I: the embedding *)
(* ================================================================== *)

(** ** Host strings *)
Module Str.

Definition t := list ascii.

(** A string literal of the source. *)
Definition lit (s : String.string) : t := String.list_ascii_of_string s.

Definition LF : ascii := Eval cbv in ascii_of_nat 10.

Definition isLF (c : ascii) : bool := Ascii.eqb c LF.

(** [StrWhiteSpaceChar] of the host, within U+0000..U+00FF: TAB, LF, VT, FF,
    CR, SP and NBSP. *)
Definition isWhiteSpace (c : ascii) : bool :=
  let n := nat_of_ascii c in
  ((9 <=? n) && (n <=? 13)) || (n =? 32) || (n =? 160).

Definition eqb (a b : t) : bool :=
  if list_eq_dec ascii_dec a b then true else false.

(** The truthiness of a string: the empty string is falsy. *)
Definition truthy (s : t) : bool :=
  match s with [] => false | _ :: _ => true end.

Fixpoint dropWhile (p : ascii -> bool) (s : t) : t :=
  match s with
  | [] => []
  | c :: r => if p c then dropWhile p r else s
  end.

Fixpoint takeWhile (p : ascii -> bool) (s : t) : t :=
  match s with
  | [] => []
  | c :: r => if p c then c :: takeWhile p r else []
  end.

Definition trimStart (s : t) : t := dropWhile isWhiteSpace s.
Definition trimEnd (s : t) : t := rev (dropWhile isWhiteSpace (rev s)).

(** [String.prototype.trim]. *)
Definition trim (s : t) : t := trimEnd (trimStart s).

(** [String.prototype.startsWith]. *)
Fixpoint startsWith (s p : t) {struct p} : bool :=
  match p, s with
  | [], _ => true
  | _ :: _, [] => false
  | a :: p', b :: s' => Ascii.eqb a b && startsWith s' p'
  end.

(** [String.prototype.slice(n)] for [0 <= n]. *)
Definition slice (n : nat) (s : t) : t := skipn n s.

(** [Array.prototype.join]. *)
Fixpoint join (sep : t) (l : list t) : t :=
  match l with
  | [] => []
  | [x] => x
  | x :: r => x ++ sep ++ join sep r
  end.

(** Puts a character in front of the first piece of a split. *)
Definition consHead (c : ascii) (l : list t) : list t :=
  match l with
  | [] => [[c]]
  | h :: r => (c :: h) :: r
  end.

(** [s.split("\n\n")]: the pieces between the leftmost, non-overlapping
    occurrences of two line feeds; always at least one piece. *)
Fixpoint splitOnBlankLine (s : t) : list t :=
  match s with
  | [] => [[]]
  | c :: r =>
      match r with
      | d :: r' =>
          if isLF c && isLF d then [] :: splitOnBlankLine r'
          else consHead c (splitOnBlankLine r)
      | [] => consHead c (splitOnBlankLine r)
      end
  end.

(** [s.split(/\n\n+/)]: as above, but a separator is a maximal run of two or
    more line feeds. [inSep] is true while such a run is being consumed. *)
Fixpoint splitParagraphsFrom (inSep : bool) (s : t) : list t :=
  match s with
  | [] => [[]]
  | c :: r =>
      if inSep && isLF c then splitParagraphsFrom true r
      else
        match r with
        | d :: r' =>
            if isLF c && isLF d then [] :: splitParagraphsFrom true r'
            else consHead c (splitParagraphsFrom false r)
        | [] => consHead c (splitParagraphsFrom false r)
        end
  end.

Definition splitParagraphs (s : t) : list t := splitParagraphsFrom false s.

(** Decimal rendering of an index, as a template literal does it. *)
Fixpoint uintChars (d : Decimal.uint) : t :=
  match d with
  | Decimal.Nil => []
  | Decimal.D0 r => "0"%char :: uintChars r
  | Decimal.D1 r => "1"%char :: uintChars r
  | Decimal.D2 r => "2"%char :: uintChars r
  | Decimal.D3 r => "3"%char :: uintChars r
  | Decimal.D4 r => "4"%char :: uintChars r
  | Decimal.D5 r => "5"%char :: uintChars r
  | Decimal.D6 r => "6"%char :: uintChars r
  | Decimal.D7 r => "7"%char :: uintChars r
  | Decimal.D8 r => "8"%char :: uintChars r
  | Decimal.D9 r => "9"%char :: uintChars r
  end.

Definition ofNat (n : nat) : t := uintChars (Nat.to_uint n).

End Str.

Abbreviation str := Str.t.
Arguments Str.lit s : simpl never.
Arguments Str.join sep l : simpl never.
Notation "'$' s" := (Str.lit s%string) (at level 1, format "'$' s").

(** ** JSON values

    The JSON data model. A number is kept as the decimal literal
    [mantissa * 10 ^ exponent]; every finite host number has such a form. *)
#[warnings="-register-all"]
Inductive json : Type :=
| JNull
| JBool (b : bool)
| JNum (mantissa exponent : Z)
| JStr (s : str)
| JArr (items : list json)
| JObj (members : list (str * json)).

(** ** Thrown values on the server *)

(** An [Error] as the error middleware sees it ([AppError]): a [ZodError]
    carries its list of issue messages. *)
Record AppError := {
  isZodError : bool;
  zodIssues : list str;
  message : str;
  statusCode : option Z;
  code : option str
}.

Inductive Result (A : Type) : Type :=
| Ok (a : A)
| Throw (e : AppError).
Arguments Ok {A} a.
Arguments Throw {A} e.

Definition bind {A B} (r : Result A) (k : A -> Result B) : Result B :=
  match r with
  | Ok a => k a
  | Throw e => Throw e
  end.

Notation "x <- r ;; k" := (bind r (fun x => k))
  (at level 61, r at next level, right associativity).

(** [new ApiError(message, statusCode = 500, code?)] of shared/utils/response.ts. *)
Definition ApiError (msg : str) (status : option Z) (c : option str) : AppError :=
  {| isZodError := false;
     zodIssues := [];
     message := msg;
     statusCode := Some (match status with Some s => s | None => 500%Z end);
     code := c |}.

(** ** [JSON.stringify] and [JSON.parse] *)
Module JSON.

(** The double quote and the backslash. *)
Definition DQ : ascii := Eval cbv in ascii_of_nat 34.
Definition BS : ascii := Eval cbv in ascii_of_nat 92.

Definition hexDigit (n : nat) : ascii :=
  nth n (String.list_ascii_of_string "0123456789abcdef") "0"%char.

(** [QuoteJSONString], one character: the quote, the backslash and the
    control characters are escaped, the rest is copied. *)
Definition escapeChar (c : ascii) : str :=
  let n := nat_of_ascii c in
  if Ascii.eqb c DQ then [BS; DQ]
  else if Ascii.eqb c BS then [BS; BS]
  else if n =? 8 then [BS; "b"%char]
  else if n =? 9 then [BS; "t"%char]
  else if n =? 10 then [BS; "n"%char]
  else if n =? 12 then [BS; "f"%char]
  else if n =? 13 then [BS; "r"%char]
  else if n <? 32
       then [BS; "u"%char; "0"%char; "0"%char; hexDigit (n / 16); hexDigit (n mod 16)]
       else [c].

Definition quote (s : str) : str := DQ :: flat_map escapeChar s ++ [DQ].

Definition intChars (z : Z) : str :=
  match Z.to_int z with
  | Decimal.Pos u => Str.uintChars u
  | Decimal.Neg u => "-"%char :: Str.uintChars u
  end.

(** The literal of [mantissa * 10 ^ exponent]: the mantissa, and the
    exponent when it is not zero. The host writes the same number in
    positional form where it can ([0.8234] for [8234e-4]); both are number
    literals of the same value, and nothing below depends on the form. *)
Definition numberChars (mantissa exponent : Z) : str :=
  intChars mantissa
    ++ (if (exponent =? 0)%Z then [] else "e"%char :: intChars exponent).

(** [JSON.stringify(value)], without indentation. *)
Fixpoint stringify (j : json) : str :=
  match j with
  | JNull => $"null"
  | JBool true => $"true"
  | JBool false => $"false"
  | JNum m e => numberChars m e
  | JStr s => quote s
  | JArr items =>
      "["%char :: Str.join [","%char] (map stringify items) ++ ["]"%char]
  | JObj members =>
      "{"%char
        :: Str.join [","%char]
             (map (fun kv => quote (fst kv) ++ ":"%char :: stringify (snd kv))
                  members)
        ++ ["}"%char]
  end.

(** *** Parsing *)

Definition isJsonWs (c : ascii) : bool :=
  let n := nat_of_ascii c in
  (n =? 32) || (n =? 9) || (n =? 10) || (n =? 13).

Definition skipWs (s : str) : str := Str.dropWhile isJsonWs s.

(** The decimal digit [c] as the constructor that puts it in front of a
    decimal numeral. *)
Definition digitCons (c : ascii) : option (Decimal.uint -> Decimal.uint) :=
  if Ascii.eqb c "0"%char then Some Decimal.D0
  else if Ascii.eqb c "1"%char then Some Decimal.D1
  else if Ascii.eqb c "2"%char then Some Decimal.D2
  else if Ascii.eqb c "3"%char then Some Decimal.D3
  else if Ascii.eqb c "4"%char then Some Decimal.D4
  else if Ascii.eqb c "5"%char then Some Decimal.D5
  else if Ascii.eqb c "6"%char then Some Decimal.D6
  else if Ascii.eqb c "7"%char then Some Decimal.D7
  else if Ascii.eqb c "8"%char then Some Decimal.D8
  else if Ascii.eqb c "9"%char then Some Decimal.D9
  else None.

(** The longest run of digits at the front of [s], and what follows it. *)
Fixpoint parseDigits (s : str) : Decimal.uint * str :=
  match s with
  | [] => (Decimal.Nil, [])
  | c :: r =>
      match digitCons c with
      | Some d => let '(u, rest) := parseDigits r in (d u, rest)
      | None => (Decimal.Nil, s)
      end
  end.

Definition isNil (u : Decimal.uint) : bool :=
  match u with Decimal.Nil => true | _ => false end.

(** A numeral with a superfluous leading zero, which the grammar refuses. *)
Definition leadingZero (u : Decimal.uint) : bool :=
  match u with
  | Decimal.D0 r => negb (isNil r)
  | _ => false
  end.

(** The exponent part [e], [e+] or [e-] and digits, when there is one. *)
Definition parseExponent (s : str) : option (Z * str) :=
  match s with
  | c :: r =>
      if Ascii.eqb c "e"%char || Ascii.eqb c "E"%char then
        let '(negative, r) :=
          match r with
          | d :: r' =>
              if Ascii.eqb d "-"%char then (true, r')
              else if Ascii.eqb d "+"%char then (false, r')
              else (false, r)
          | [] => (false, r)
          end in
        let '(u, rest) := parseDigits r in
        if isNil u then None
        else Some (if negative then (- Z.of_uint u)%Z else Z.of_uint u, rest)
      else Some (0%Z, s)
  | [] => Some (0%Z, s)
  end.

(** A number: [-]digits[.digits][e[+-]digits], read as mantissa and
    exponent. *)
Definition parseNumber (s : str) : option (json * str) :=
  let '(negative, s) :=
    match s with
    | c :: r => if Ascii.eqb c "-"%char then (true, r) else (false, s)
    | [] => (false, s)
    end in
  let '(int, s) := parseDigits s in
  if isNil int || leadingZero int then None
  else
    let fraction :=
      match s with
      | c :: r =>
          if Ascii.eqb c "."%char then
            let '(frac, rest) := parseDigits r in
            if isNil frac then None else Some (frac, rest)
          else Some (Decimal.Nil, s)
      | [] => Some (Decimal.Nil, s)
      end in
    match fraction with
    | None => None
    | Some (frac, s) =>
        match parseExponent s with
        | None => None
        | Some (e, rest) =>
            let magnitude := Z.of_uint (Decimal.app int frac) in
            Some (JNum (if negative then (- magnitude)%Z else magnitude)
                       (e - Z.of_nat (Decimal.nb_digits frac))%Z,
                  rest)
        end
    end.

Definition hexValue (c : ascii) : option nat :=
  let n := nat_of_ascii c in
  if (48 <=? n) && (n <=? 57) then Some (n - 48)
  else if (97 <=? n) && (n <=? 102) then Some (n - 87)
  else if (65 <=? n) && (n <=? 70) then Some (n - 55)
  else None.

(** The character a two-character escape stands for. *)
Definition unescape (c : ascii) : option ascii :=
  if Ascii.eqb c DQ then Some DQ
  else if Ascii.eqb c BS then Some BS
  else if Ascii.eqb c "/"%char then Some "/"%char
  else if Ascii.eqb c "b"%char then Some (ascii_of_nat 8)
  else if Ascii.eqb c "f"%char then Some (ascii_of_nat 12)
  else if Ascii.eqb c "n"%char then Some (ascii_of_nat 10)
  else if Ascii.eqb c "r"%char then Some (ascii_of_nat 13)
  else if Ascii.eqb c "t"%char then Some (ascii_of_nat 9)
  else None.

Definition consTo (c : ascii) (r : option (str * str)) : option (str * str) :=
  match r with
  | Some (s, rest) => Some (c :: s, rest)
  | None => None
  end.

(** The characters of a string after its opening quote, up to the closing
    one. A [\uXXXX] escape above U+00FF is outside the alphabet of the
    embedding and is refused. *)
Fixpoint parseChars (s : str) : option (str * str) :=
  match s with
  | [] => None
  | c :: r =>
      if Ascii.eqb c DQ then Some ([], r)
      else if Ascii.eqb c BS then
        match r with
        | e :: r' =>
            if Ascii.eqb e "u"%char then
              match r' with
              | h1 :: h2 :: h3 :: h4 :: r'' =>
                  match hexValue h1, hexValue h2, hexValue h3, hexValue h4 with
                  | Some a, Some b, Some c, Some d =>
                      let n := ((a * 16 + b) * 16 + c) * 16 + d in
                      if n <? 256 then consTo (ascii_of_nat n) (parseChars r'')
                      else None
                  | _, _, _, _ => None
                  end
              | _ => None
              end
            else
              match unescape e with
              | Some c' => consTo c' (parseChars r')
              | None => None
              end
        | [] => None
        end
      else if nat_of_ascii c <? 32 then None
      else consTo c (parseChars r)
  end.

(** Drops the literal [word] from the front of [s]. *)
Definition expect (word : str) (s : str) : option str :=
  if Str.startsWith s word then Some (skipn (length word) s) else None.

(** A value, with [fuel] bounding the nesting and the number of items. *)
Fixpoint parseValue (fuel : nat) (s : str) {struct fuel} : option (json * str) :=
  match fuel with
  | 0 => None
  | S fuel =>
      match skipWs s with
      | [] => None
      | c :: r =>
          if Ascii.eqb c "n"%char then
            option_map (fun rest => (JNull, rest)) (expect $"ull" r)
          else if Ascii.eqb c "t"%char then
            option_map (fun rest => (JBool true, rest)) (expect $"rue" r)
          else if Ascii.eqb c "f"%char then
            option_map (fun rest => (JBool false, rest)) (expect $"alse" r)
          else if Ascii.eqb c DQ then
            option_map (fun sr => (JStr (fst sr), snd sr)) (parseChars r)
          else if Ascii.eqb c "["%char then
            match skipWs r with
            | d :: rest =>
                if Ascii.eqb d "]"%char then Some (JArr [], rest)
                else option_map (fun ir => (JArr (fst ir), snd ir))
                                (parseElements fuel r)
            | [] => None
            end
          else if Ascii.eqb c "{"%char then
            match skipWs r with
            | d :: rest =>
                if Ascii.eqb d "}"%char then Some (JObj [], rest)
                else option_map (fun mr => (JObj (fst mr), snd mr))
                                (parseMembers fuel r)
            | [] => None
            end
          else parseNumber (c :: r)
      end
  end

(** The elements of a non-empty array, after its opening bracket. *)
with parseElements (fuel : nat) (s : str) {struct fuel}
  : option (list json * str) :=
  match fuel with
  | 0 => None
  | S fuel =>
      match parseValue fuel s with
      | None => None
      | Some (v, rest) =>
          match skipWs rest with
          | c :: rest' =>
              if Ascii.eqb c ","%char then
                option_map (fun ir => (v :: fst ir, snd ir))
                           (parseElements fuel rest')
              else if Ascii.eqb c "]"%char then Some ([v], rest')
              else None
          | [] => None
          end
      end
  end

(** The members of a non-empty object, after its opening brace. *)
with parseMembers (fuel : nat) (s : str) {struct fuel}
  : option (list (str * json) * str) :=
  match fuel with
  | 0 => None
  | S fuel =>
      match skipWs s with
      | q :: r =>
          if Ascii.eqb q DQ then
            match parseChars r with
            | None => None
            | Some (k, rest) =>
                match skipWs rest with
                | c :: rest' =>
                    if Ascii.eqb c ":"%char then
                      match parseValue fuel rest' with
                      | None => None
                      | Some (v, rest'') =>
                          match skipWs rest'' with
                          | d :: rest3 =>
                              if Ascii.eqb d ","%char then
                                option_map (fun mr => ((k, v) :: fst mr, snd mr))
                                           (parseMembers fuel rest3)
                              else if Ascii.eqb d "}"%char
                                   then Some ([(k, v)], rest3)
                                   else None
                          | [] => None
                          end
                      end
                    else None
                | [] => None
                end
            end
          else None
      | [] => None
      end
  end.

(** [JSON.parse(text)]: [None] stands for the [SyntaxError]. *)
Definition parse (text : str) : option json :=
  match parseValue (S (length text)) text with
  | Some (v, rest) =>
      match skipWs rest with
      | [] => Some v
      | _ :: _ => None
      end
  | None => None
  end.

(** The value of the property [k] of an object with these members; of two
    members with the same key the later one counts. *)
Fixpoint lookup (k : str) (members : list (str * json)) : option json :=
  match members with
  | [] => None
  | (k', v) :: r =>
      match lookup k r with
      | Some v' => Some v'
      | None => if Str.eqb k' k then Some v else None
      end
  end.

(** [value[k]] for a value that is not [null]: [None] is [undefined]. *)
Definition get (value : json) (k : str) : option json :=
  match value with
  | JObj members => lookup k members
  | _ => None
  end.

End JSON.

(** ** Database tables

    The rows the ORM client reads and writes, with the fields the code uses.
    An id is assigned by the database when a row is created: [cuid n] is the
    id given to the [n]-th row ever created. *)
Module Document.
Record t := {
  id : str;
  title : str;
  filename : str;
  mimeType : str;
  size : nat;
  content : str;
  metadata : option json;
  createdAt : nat;
  updatedAt : nat
}.
End Document.

Module DocumentChunk.
Record t := {
  id : str;
  documentId : str;
  content : str;
  tokenCount : option nat;
  embedding : option (list Q);
  metadata : option json
}.
End DocumentChunk.

(** [ConversationSettings] of chat.types.ts. *)
Module ConversationSettings.
Record t := {
  topK : nat;
  threshold : Q;
  documentIds : option (list str)
}.
End ConversationSettings.

(** [DEFAULT_SETTINGS] of chat.types.ts. *)
Definition DEFAULT_SETTINGS : ConversationSettings.t :=
  {| ConversationSettings.topK := 5;
     ConversationSettings.threshold := 7 # 10;
     ConversationSettings.documentIds := None |}.

Inductive Role := user | assistant | system.

Module Conversation.
Record t := {
  id : str;
  userId : str;
  title : option str;
  settings : option ConversationSettings.t;
  createdAt : nat;
  updatedAt : nat
}.
End Conversation.

Module Message.
Record t := {
  id : str;
  conversationId : str;
  role : Role;
  content : str;
  sources : option json;
  createdAt : nat
}.
End Message.

Module Db.
Record t := {
  documents : list Document.t;
  chunks : list DocumentChunk.t;
  conversations : list Conversation.t;
  messages : list Message.t;
  created : nat
}.

Definition empty : t :=
  {| documents := []; chunks := []; conversations := []; messages := [];
     created := 0 |}.
End Db.

(** ** Query helpers *)

(** Insertion of [x] into a list ordered by [key]. *)
Fixpoint insertBy {A} (key : A -> Q) (x : A) (l : list A) : list A :=
  match l with
  | [] => [x]
  | y :: r => if Qle_bool (key x) (key y) then x :: l else y :: insertBy key x r
  end.

(** [ORDER BY key] (ascending). *)
Definition orderBy {A} (key : A -> Q) (l : list A) : list A :=
  fold_right (insertBy key) [] l.

Fixpoint filterMap {A B} (f : A -> option B) (l : list A) : list B :=
  match l with
  | [] => []
  | x :: r => match f x with
              | Some y => y :: filterMap f r
              | None => filterMap f r
              end
  end.

(** [arr.map((x, i) => f x i)]. *)
Fixpoint mapiFrom {A B} (f : A -> nat -> B) (i : nat) (l : list A) : list B :=
  match l with
  | [] => []
  | x :: r => f x i :: mapiFrom f (S i) r
  end.

Definition mapi {A B} (f : A -> nat -> B) (l : list A) : list B :=
  mapiFrom f 0 l.

(** ** features/documents: documents.routes.ts and documents.service.ts *)
Module Documents.

(** [chunkText]: the body of the [for] loop over the paragraphs. The state
    is [(chunks, currentChunk)]. *)
Definition chunkStep (maxChunkSize : nat) (st : list str * str) (para : str)
  : list str * str :=
  let '(chunks, currentChunk) := st in
  let trimmed := Str.trim para in
  if negb (Str.truthy trimmed) then st
  else
    let '(chunks, currentChunk) :=
      if (maxChunkSize <? length currentChunk + length trimmed)
         && Str.truthy currentChunk
      then (chunks ++ [Str.trim currentChunk], [])
      else (chunks, currentChunk) in
    (chunks,
     currentChunk
       ++ (if Str.truthy currentChunk then [Str.LF; Str.LF] else [])
       ++ trimmed).

(** [chunkText] up to, and without, its last line: the chunks that the
    paragraph splitting yields. *)
Definition paragraphChunks (text : str) (maxChunkSize : nat) : list str :=
  let paragraphs := Str.splitParagraphs text in
  let '(chunks, currentChunk) :=
    fold_left (chunkStep maxChunkSize) paragraphs ([], []) in
  if Str.truthy (Str.trim currentChunk)
  then chunks ++ [Str.trim currentChunk]
  else chunks.

(** [function chunkText(text, maxChunkSize = 1000)]. *)
Definition chunkText (text : str) (maxChunkSize : option nat) : list str :=
  let maxChunkSize :=
    match maxChunkSize with Some m => m | None => 1000 end in
  let chunks := paragraphChunks text maxChunkSize in
  if 0 <? length chunks then chunks else [Str.trim text].

(** [estimateTokens]: [Math.ceil(text.length / 4)]. *)
Definition estimateTokens (text : str) : nat :=
  Z.to_nat (Qceiling (Z.of_nat (length text) # 4)).

Record UploadDocumentInput := {
  in_title : str;
  in_filename : str;
  in_mimeType : str;
  in_size : nat;
  in_content : str;
  in_metadata : option json
}.

Record ChunkInput := {
  ci_content : str;
  ci_tokenCount : option nat;
  ci_metadata : option json
}.

Section Service.
Variable cuid : nat -> str.

(** [documentsService.createDocument]. *)
Definition createDocument (now : nat) (input : UploadDocumentInput) (db : Db.t)
  : Document.t * Db.t :=
  let doc :=
    {| Document.id := cuid (Db.created db);
       Document.title := in_title input;
       Document.filename := in_filename input;
       Document.mimeType := in_mimeType input;
       Document.size := in_size input;
       Document.content := in_content input;
       Document.metadata := in_metadata input;
       Document.createdAt := now;
       Document.updatedAt := now |} in
  (doc,
   {| Db.documents := Db.documents db ++ [doc];
      Db.chunks := Db.chunks db;
      Db.conversations := Db.conversations db;
      Db.messages := Db.messages db;
      Db.created := S (Db.created db) |}).

(** [documentsService.createChunks]: one row per element of [chunks];
    the result is the [count] of [createMany]. *)
Definition createChunks (documentId : str) (chunks : list ChunkInput) (db : Db.t)
  : nat * Db.t :=
  let rows :=
    mapi (fun chunk i =>
            {| DocumentChunk.id := cuid (Db.created db + i);
               DocumentChunk.documentId := documentId;
               DocumentChunk.content := ci_content chunk;
               DocumentChunk.tokenCount := ci_tokenCount chunk;
               DocumentChunk.embedding := None;
               DocumentChunk.metadata := ci_metadata chunk |})
         chunks in
  (length rows,
   {| Db.documents := Db.documents db;
      Db.chunks := Db.chunks db ++ rows;
      Db.conversations := Db.conversations db;
      Db.messages := Db.messages db;
      Db.created := Db.created db + length rows |}).

(** The file the upload middleware attaches to the request. *)
Record UploadedFile := {
  originalname : str;
  mimetype : str;
  fileSize : nat;
  buffer : str
}.

Record UploadRequest := {
  file : option UploadedFile;
  bodyTitle : option str
}.

(** The [data] of the 201 response: [{...document, chunkCount, status}]. *)
Record UploadResponse := {
  httpStatus : Z;
  document : Document.t;
  chunkCount : nat;
  status : str
}.

(** [name.replace(/\.[^/.]+$/, "")]: drops a final extension, a dot
    followed to the end by one or more characters other than [/] and [.]. *)
Definition stripExtension (name : str) : str :=
  let isDot c := Ascii.eqb c "."%char in
  let isSlash c := Ascii.eqb c "/"%char in
  let ext := rev (Str.takeWhile (fun c => negb (isDot c)) (rev name)) in
  if existsb isDot name
     && Str.truthy ext
     && forallb (fun c => negb (isSlash c)) ext
  then firstn (length name - S (length ext)) name
  else name.

(** The handler of [POST /api/documents/upload]. [now] is the clock and
    [nowIso] its ISO rendering. The embeddings of the new chunks are
    computed by a call that is started and not awaited; it is not part of
    the handler's result. *)
Definition uploadHandler (now : nat) (nowIso : str) (req : UploadRequest)
           (db : Db.t) : Result (UploadResponse * Db.t) :=
  match file req with
  | None => Throw (ApiError $"No file provided" (Some 400%Z) None)
  | Some file =>
      let content := buffer file in
      let title :=
        match bodyTitle req with
        | Some t => if Str.truthy t then t else stripExtension (originalname file)
        | None => stripExtension (originalname file)
        end in
      let '(document, db) :=
        createDocument now
          {| in_title := title;
             in_filename := originalname file;
             in_mimeType := mimetype file;
             in_size := fileSize file;
             in_content := content;
             in_metadata := Some (JObj [($"uploadedAt", JStr nowIso)]) |}
          db in
      let chunks := chunkText content None in
      let '(_, db) :=
        createChunks (Document.id document)
          (mapi (fun text index =>
                   {| ci_content := text;
                      ci_tokenCount := Some (estimateTokens text);
                      ci_metadata :=
                        Some (JObj [($"chunkIndex", JNum (Z.of_nat index) 0)]) |})
                chunks)
          db in
      Ok ({| httpStatus := 201;
             document := document;
             chunkCount := length chunks;
             status := $"processing" |},
          db)
  end.
End Service.

End Documents.

(** ** features/retrieval: embeddings.service.ts and retrieval.service.ts *)
Module SearchResult.
(** [SearchResult] of retrieval.types.ts. *)
Record t := {
  id : str;
  content : str;
  score : Q;
  documentId : str;
  metadata : option json
}.
End SearchResult.

Module RetrievalOptions.
(** [RetrievalOptions] of retrieval.types.ts: every field is optional. *)
Record t := {
  topK : option nat;
  threshold : option Q;
  documentIds : option (list str)
}.

(** The default argument [options = {}]. *)
Definition none : t := {| topK := None; threshold := None; documentIds := None |}.
End RetrievalOptions.

Module Retrieval.

(** The two services outside the program that the retrieval service calls:
    the hosted embedding API, which answers a model name and an input with
    the [data[_].embedding] vectors and [usage.total_tokens] or fails, and
    the vector column's cosine-distance operator [<=>]. *)
Record Services := {
  embeddings_create : str -> str -> Result (list (list Q) * nat);
  cosine_distance : list Q -> list Q -> Q
}.

Definition EMBEDDING_MODEL : str := $"text-embedding-3-small".

Record EmbeddingResult := {
  embedding : list Q;
  tokenCount : nat
}.

Definition typeError (msg : str) : AppError :=
  {| isZodError := false; zodIssues := []; message := msg;
     statusCode := None; code := None |}.

(** One row of the raw query: the selected columns, and the distance the
    rows are ordered by. *)
Record RawSearchResult := {
  raw_id : str;
  raw_content : str;
  raw_documentId : str;
  raw_metadata : option json;
  similarity : Q;
  distance : Q
}.

Definition memStr (x : str) (l : list str) : bool :=
  existsb (Str.eqb x) l.

(** The object built by the [.map] that ends [search]. *)
Definition toSearchResult (r : RawSearchResult) : SearchResult.t :=
  {| SearchResult.id := raw_id r;
     SearchResult.content := raw_content r;
     SearchResult.score := similarity r;
     SearchResult.documentId := raw_documentId r;
     SearchResult.metadata := raw_metadata r |}.

Section Service.
Variable svc : Services.

(** [embeddingsService.embed]. *)
Definition embed (text : str) : Result EmbeddingResult :=
  response <- embeddings_create svc EMBEDDING_MODEL text ;;
  match fst response with
  | [] => Throw (typeError $"Cannot read properties of undefined")
  | e :: _ => Ok {| embedding := e; tokenCount := snd response |}
  end.

(** The raw query of [search]:
    [SELECT id, content, "documentId", metadata,
            1 - (embedding <=> q) AS similarity
     FROM document_chunks
     WHERE embedding IS NOT NULL [AND "documentId" = ANY(ids)]
     ORDER BY embedding <=> q LIMIT topK];
    [ids] is [None] for the query without the document filter. *)
Definition selectRow (q : list Q) (ids : option (list str))
           (row : DocumentChunk.t) : option RawSearchResult :=
  match DocumentChunk.embedding row with
  | None => None
  | Some e =>
      if match ids with
         | Some ids => memStr (DocumentChunk.documentId row) ids
         | None => true
         end
      then Some {| raw_id := DocumentChunk.id row;
                   raw_content := DocumentChunk.content row;
                   raw_documentId := DocumentChunk.documentId row;
                   raw_metadata := DocumentChunk.metadata row;
                   similarity := 1 - cosine_distance svc e q;
                   distance := cosine_distance svc e q |}
      else None
  end.

Definition queryRaw (q : list Q) (ids : option (list str)) (topK : nat)
           (db : Db.t) : list RawSearchResult :=
  firstn topK (orderBy distance (filterMap (selectRow q ids) (Db.chunks db))).

(** [retrievalService.search]. *)
Definition search (query : str) (options : RetrievalOptions.t) (db : Db.t)
  : Result (list SearchResult.t) :=
  let topK :=
    match RetrievalOptions.topK options with Some k => k | None => 5 end in
  let threshold :=
    match RetrievalOptions.threshold options with
    | Some t => t
    | None => (7 # 10)%Q
    end in
  let documentIds := RetrievalOptions.documentIds options in
  r <- embed query ;;
  let embedding := embedding r in
  let results :=
    match documentIds with
    | Some ((_ :: _) as ids) => queryRaw embedding (Some ids) topK db
    | _ => queryRaw embedding None topK db
    end in
  Ok (map toSearchResult
          (filter (fun r => Qle_bool threshold (similarity r)) results)).
End Service.

End Retrieval.

(** ** Express: [res.status(status).json(body)]

    Every answer of the server ends in [res.status(status).json(body)].
    What that call does depends on the status. For a response of which
    nothing has been sent yet, to a request that is neither a [HEAD]
    request nor a conditional one:
    - [res.status] takes the integers from 100 to 999; for every other
      integer a [RangeError] is thrown, and the handler that made the call
      has sent nothing;
    - a status from 100 to 199 is written as an interim response, without
      the body, and a client does not take it for the answer;
    - the statuses 204, 205 and 304 are written without the body;
    - every other status is written with the body. *)
Module Express.

Inductive Outcome (Body : Type) : Type :=
| RangeError
| Interim (status : Z)
| Sent (status : Z) (body : option Body).
Arguments RangeError {Body}.
Arguments Interim {Body} status.
Arguments Sent {Body} status body.

(** The statuses that [res.status] takes. *)
Definition accepts (status : Z) : bool :=
  (100 <=? status)%Z && (status <=? 999)%Z.

(** The statuses that are written without the body they were given. *)
Definition bodiless (status : Z) : bool :=
  (status =? 204)%Z || (status =? 205)%Z || (status =? 304)%Z.

(** [res.status(status).json(body)]. *)
Definition respond {Body} (status : Z) (body : Body) : Outcome Body :=
  if negb (accepts status) then RangeError
  else if (status <? 200)%Z then Interim status
  else if bodiless status then Sent status None
  else Sent status (Some body).

End Express.

(** ** shared/middleware/error.middleware.ts and shared/utils/response.ts *)
Module ErrorMiddleware.

(** What [sendError] hands to Express: the status of [res.status(status)]
    and the body [{ success: false, error: { message, code } }] of
    [.json(response)]. What Express sends for them is [Express.respond]. *)
Record ErrorResponse := {
  status : Z;
  success : bool;
  errorMessage : str;
  errorCode : option str
}.

(** [sendError(res, message, status = 500, code?)]. *)
Definition sendError (message : str) (status : option Z) (code : option str)
  : ErrorResponse :=
  {| status := match status with Some s => s | None => 500%Z end;
     success := false;
     errorMessage := message;
     errorCode := code |}.

(** The truthiness of an optional number: [undefined] and [0] are falsy. *)
Definition truthyNumber (n : option Z) : bool :=
  match n with
  | Some n => negb (n =? 0)%Z
  | None => false
  end.

(** [errorHandler(err, _req, res, _next)]; [NODE_ENV] is
    [process.env.NODE_ENV]. The log line it writes first is left out. *)
Definition errorHandler (NODE_ENV : option str) (err : AppError) : ErrorResponse :=
  if isZodError err then
    sendError ($"Validation error: " ++ Str.join $", " (zodIssues err))
              (Some 400%Z) (Some $"VALIDATION_ERROR")
  else if truthyNumber (statusCode err) then
    sendError (message err) (statusCode err) (code err)
  else
    sendError
      (if match NODE_ENV with
          | Some e => Str.eqb e $"production"
          | None => false
          end
       then $"Internal server error"
       else message err)
      (Some 500%Z) (Some $"INTERNAL_ERROR").

End ErrorMiddleware.

(** ** features/chat/chat.service.ts *)
Module ChatService.

(** [CreateMessageInput] of chat.types.ts. *)
Record CreateMessageInput := {
  in_conversationId : str;
  in_role : Role;
  in_content : str;
  in_sources : option json
}.

Definition ownedBy (conversationId userId : str) (c : Conversation.t) : bool :=
  Str.eqb (Conversation.id c) conversationId
  && Str.eqb (Conversation.userId c) userId.

Definition timeKey (t : nat) : Q := inject_Z (Z.of_nat t).

Definition messagesOf (conversationId : str) (db : Db.t) : list Message.t :=
  filter (fun m => Str.eqb (Message.conversationId m) conversationId)
         (Db.messages db).

Definition prismaError (msg : str) : AppError :=
  {| isZodError := false; zodIssues := []; message := msg;
     statusCode := None; code := None |}.

Section Service.
Variable cuid : nat -> str.

(** [chatService.createConversation]. *)
Definition createConversation (now : nat) (userId : str) (title : option str)
           (settings : option ConversationSettings.t) (db : Db.t)
  : Conversation.t * Db.t :=
  let row :=
    {| Conversation.id := cuid (Db.created db);
       Conversation.userId := userId;
       Conversation.title :=
         Some (match title with Some t => t | None => $"New Chat" end);
       Conversation.settings := settings;
       Conversation.createdAt := now;
       Conversation.updatedAt := now |} in
  (row,
   {| Db.documents := Db.documents db;
      Db.chunks := Db.chunks db;
      Db.conversations := Db.conversations db ++ [row];
      Db.messages := Db.messages db;
      Db.created := S (Db.created db) |}).

(** [chatService.getConversations]: the user's conversations, most recently
    updated first, each with its latest message. *)
Definition getConversations (userId : str) (db : Db.t)
  : list (Conversation.t * list Message.t) :=
  map (fun c =>
         (c, firstn 1 (orderBy (fun m => (- timeKey (Message.createdAt m))%Q)
                               (messagesOf (Conversation.id c) db))))
      (orderBy (fun c => (- timeKey (Conversation.updatedAt c))%Q)
               (filter (fun c => Str.eqb (Conversation.userId c) userId)
                       (Db.conversations db))).

(** [chatService.getConversation]: [findFirst] with [where: { id, userId }],
    including the messages in creation order; [None] is [null]. *)
Definition getConversation (conversationId userId : str) (db : Db.t)
  : option (Conversation.t * list Message.t) :=
  match find (ownedBy conversationId userId) (Db.conversations db) with
  | Some c =>
      Some (c, orderBy (fun m => timeKey (Message.createdAt m))
                       (messagesOf (Conversation.id c) db))
  | None => None
  end.

(** [chatService.updateConversationSettings]: [updateMany] with
    [where: { id, userId }]; the result is its [count]. *)
Definition updateConversationSettings (now : nat) (conversationId userId : str)
           (settings : ConversationSettings.t) (db : Db.t) : nat * Db.t :=
  (length (filter (ownedBy conversationId userId) (Db.conversations db)),
   {| Db.documents := Db.documents db;
      Db.chunks := Db.chunks db;
      Db.conversations :=
        map (fun c =>
               if ownedBy conversationId userId c
               then {| Conversation.id := Conversation.id c;
                       Conversation.userId := Conversation.userId c;
                       Conversation.title := Conversation.title c;
                       Conversation.settings := Some settings;
                       Conversation.createdAt := Conversation.createdAt c;
                       Conversation.updatedAt := now |}
               else c)
            (Db.conversations db);
      Db.messages := Db.messages db;
      Db.created := Db.created db |}).

(** [chatService.addMessage]: creates the message, then touches the
    conversation's [updatedAt]; both fail when the conversation is missing. *)
Definition addMessage (now : nat) (input : CreateMessageInput) (db : Db.t)
  : Result (Message.t * Db.t) :=
  if existsb (fun c => Str.eqb (Conversation.id c) (in_conversationId input))
             (Db.conversations db)
  then
    let message :=
      {| Message.id := cuid (Db.created db);
         Message.conversationId := in_conversationId input;
         Message.role := in_role input;
         Message.content := in_content input;
         Message.sources := in_sources input;
         Message.createdAt := now |} in
    Ok (message,
        {| Db.documents := Db.documents db;
           Db.chunks := Db.chunks db;
           Db.conversations :=
             map (fun c =>
                    if Str.eqb (Conversation.id c) (in_conversationId input)
                    then {| Conversation.id := Conversation.id c;
                            Conversation.userId := Conversation.userId c;
                            Conversation.title := Conversation.title c;
                            Conversation.settings := Conversation.settings c;
                            Conversation.createdAt := Conversation.createdAt c;
                            Conversation.updatedAt := now |}
                    else c)
                 (Db.conversations db);
           Db.messages := Db.messages db ++ [message];
           Db.created := S (Db.created db) |})
  else Throw (prismaError $"Foreign key constraint failed").

(** [chatService.deleteConversation]: [deleteMany] with
    [where: { id, userId }]; the result is its [count]. *)
Definition deleteConversation (conversationId userId : str) (db : Db.t)
  : nat * Db.t :=
  let deleted := filter (ownedBy conversationId userId) (Db.conversations db) in
  (length deleted,
   {| Db.documents := Db.documents db;
      Db.chunks := Db.chunks db;
      Db.conversations :=
        filter (fun c => negb (ownedBy conversationId userId c))
               (Db.conversations db);
      Db.messages :=
        filter (fun m =>
                  negb (existsb (fun c => Str.eqb (Conversation.id c)
                                                  (Message.conversationId m))
                                deleted))
               (Db.messages db);
      Db.created := Db.created db |}).

End Service.
End ChatService.

(** ** Client: the chat store (stores/chat-store.ts) *)
Module ChatStore.

Record Message := {
  id : str;
  role : Role;
  content : str;
  sources : option json;
  createdAt : nat;
  isStreaming : option bool
}.

Record Conversation := {
  conv_id : str;
  title : option str;
  conv_createdAt : nat;
  updatedAt : nat;
  messages : list Message
}.

Record ChatState := {
  conversations : list Conversation;
  activeConversationId : option str;
  isLoading : bool;
  stateIsStreaming : bool;
  error : option str
}.

Definition initialState : ChatState :=
  {| conversations := [];
     activeConversationId := None;
     isLoading := false;
     stateIsStreaming := false;
     error := None |}.

(** The computed getter [activeConversation]. *)
Definition activeConversation (state : ChatState) : option Conversation :=
  match activeConversationId state with
  | Some id => find (fun c => Str.eqb (conv_id c) id) (conversations state)
  | None => None
  end.

(** [set({ conversations })] and [set((state) => ({ conversations }))]: the
    other fields of the state are kept. *)
Definition setConversationsOf (state : ChatState) (cs : list Conversation)
  : ChatState :=
  {| conversations := cs;
     activeConversationId := activeConversationId state;
     isLoading := isLoading state;
     stateIsStreaming := stateIsStreaming state;
     error := error state |}.

Definition setMessagesOf (c : Conversation) (ms : list Message) : Conversation :=
  {| conv_id := conv_id c;
     title := title c;
     conv_createdAt := conv_createdAt c;
     updatedAt := updatedAt c;
     messages := ms |}.

Definition addMessage (conversationId : str) (message : Message)
           (state : ChatState) : ChatState :=
  setConversationsOf state
    (map (fun c =>
            if Str.eqb (conv_id c) conversationId
            then setMessagesOf c (messages c ++ [message])
            else c)
         (conversations state)).

Definition updateMessage (conversationId messageId content : str)
           (state : ChatState) : ChatState :=
  setConversationsOf state
    (map (fun c =>
            if Str.eqb (conv_id c) conversationId
            then setMessagesOf c
                   (map (fun m =>
                           if Str.eqb (id m) messageId
                           then {| id := id m;
                                   role := role m;
                                   content := content;
                                   sources := sources m;
                                   createdAt := createdAt m;
                                   isStreaming := Some false |}
                           else m)
                        (messages c))
            else c)
         (conversations state)).

(** [appendToMessage(conversationId, messageId, chunk)]. *)
Definition appendToMessage (conversationId messageId chunk : str)
           (state : ChatState) : ChatState :=
  setConversationsOf state
    (map (fun c =>
            if Str.eqb (conv_id c) conversationId
            then setMessagesOf c
                   (map (fun m =>
                           if Str.eqb (id m) messageId
                           then {| id := id m;
                                   role := role m;
                                   content := content m ++ chunk;
                                   sources := sources m;
                                   createdAt := createdAt m;
                                   isStreaming := isStreaming m |}
                           else m)
                        (messages c))
            else c)
         (conversations state)).

End ChatStore.

(** ** features/chat/completion.service.ts *)
Module Completion.

(** [SYSTEM_PROMPT]: the lines of the template literal. *)
Definition SYSTEM_PROMPT : str :=
  Str.join [Str.LF]
    [ $"You are a helpful knowledge assistant. Your role is to answer questions based on the documents and content provided to you.";
      $"";
      $"When answering questions:";
      $"1. Base your answers on the provided context from the documents";
      $"2. If the context doesn't contain relevant information, acknowledge that and offer what you can help with";
      $"3. Be concise but thorough";
      $"4. Reference specific sources when helpful";
      $"5. Feel free to expand on topics using your general knowledge when the documents provide a foundation";
      $"";
      $"Be helpful, accurate, and conversational." ].

(** [OPENAI_CONFIG] of shared/constants. *)
Definition CHAT_MODEL : str := $"gpt-4o-mini".
Definition TEMPERATURE : Q := (7 # 10)%Q.
Definition MAX_TOKENS : nat := 1024.

(** One message of the [messages] array of a chat-completion request, and
    one entry of [conversationHistory]. *)
Record ChatMessage := {
  role : Role;
  content : str
}.

(** [CompletionOptions]: every field is optional. *)
Record CompletionOptions := {
  conversationHistory : option (list ChatMessage);
  useRAG : option bool;
  topK : option nat;
  threshold : option Q;
  documentIds : option (list str)
}.

(** The argument of [openai.chat.completions.create]. *)
Record ChatCompletionRequest := {
  model : str;
  messages : list ChatMessage;
  temperature : Q;
  max_tokens : nat;
  stream_flag : bool
}.

Record Usage := {
  prompt_tokens : nat;
  completion_tokens : nat;
  total_tokens : nat
}.

(** The answer of the API without streaming: [choices[i].message.content]
    ([None] is [null]), [model] and [usage]. *)
Record ChatCompletion := {
  choices : list (option str);
  response_model : str;
  response_usage : option Usage
}.

(** The hosted chat-completion API. With [stream: true] the answer is a
    sequence of deltas [chunk.choices[0]?.delta?.content] ([None] where it
    is missing), possibly cut short by an error. *)
Record OpenAI := {
  create : ChatCompletionRequest -> Result ChatCompletion;
  create_stream :
    ChatCompletionRequest -> Result (list (option str) * option AppError)
}.

Record CompletionResult := {
  result_content : str;
  result_sources : list SearchResult.t;
  result_model : str;
  result_usage : option Usage
}.

(** What the generator [stream] yields. *)
Inductive StreamChunk :=
| SourcesChunk (sources : list SearchResult.t)
| ContentChunk (content : str)
| DoneChunk (sources : list SearchResult.t).

Section Service.
Variable svc : Retrieval.Services.
Variable openai : OpenAI.

(** The first part of [complete] and of [stream]: the retrieval and the
    context prompt built from it. *)
Definition retrieve (userMessage : str) (useRAG : bool) (topK : nat)
           (threshold : Q) (documentIds : option (list str)) (db : Db.t)
  : Result (list SearchResult.t * str) :=
  if useRAG then
    sources <- Retrieval.search svc userMessage
                 {| RetrievalOptions.topK := Some topK;
                    RetrievalOptions.threshold := Some threshold;
                    RetrievalOptions.documentIds := documentIds |} db ;;
    Ok (sources,
        if 0 <? length sources
        then [Str.LF; Str.LF] ++ $"Relevant context from company documents:"
             ++ [Str.LF]
             ++ Str.join [Str.LF; Str.LF]
                  (mapi (fun s i =>
                           $"[" ++ Str.ofNat (i + 1) ++ $"] "
                            ++ SearchResult.content s)
                        sources)
        else [])
  else Ok ([], []).

(** The [messages] array of [complete] and of [stream]. *)
Definition buildMessages (contextPrompt : str)
           (conversationHistory : list ChatMessage) (userMessage : str)
  : list ChatMessage :=
  [ {| role := system; content := SYSTEM_PROMPT ++ contextPrompt |} ]
    ++ map (fun msg => {| role := role msg; content := content msg |})
           conversationHistory
    ++ [ {| role := user; content := userMessage |} ].

Definition defaulted {A} (o : option A) (d : A) : A :=
  match o with Some a => a | None => d end.

(** [completionService.complete]. The first component of the result is the
    list of requests sent to the completion API. Log lines are left out. *)
Definition complete (userMessage : str) (options : CompletionOptions) (db : Db.t)
  : list ChatCompletionRequest * Result CompletionResult :=
  let conversationHistory := defaulted (conversationHistory options) [] in
  let useRAG := defaulted (useRAG options) true in
  let topK := defaulted (topK options) 5 in
  let threshold := defaulted (threshold options) (7 # 10)%Q in
  let documentIds := documentIds options in
  match retrieve userMessage useRAG topK threshold documentIds db with
  | Throw e => ([], Throw e)
  | Ok (sources, contextPrompt) =>
      let messages := buildMessages contextPrompt conversationHistory userMessage in
      let request :=
        {| model := CHAT_MODEL;
           messages := messages;
           temperature := TEMPERATURE;
           max_tokens := MAX_TOKENS;
           stream_flag := false |} in
      ([request],
       response <- create openai request ;;
       match choices response with
       | [] => Throw (Retrieval.typeError $"Cannot read properties of undefined")
       | choice :: _ =>
           Ok {| result_content := defaulted choice [];
                 result_sources := sources;
                 result_model := response_model response;
                 result_usage := response_usage response |}
       end)
  end.

(** The chunks yielded for the deltas of the API's stream: one [content]
    chunk per delta that is a non-empty string. *)
Definition contentChunks (deltas : list (option str)) : list StreamChunk :=
  filterMap (fun delta =>
               match delta with
               | Some content =>
                   if Str.truthy content then Some (ContentChunk content) else None
               | None => None
               end)
            deltas.

(** [completionService.stream]: the requests sent to the completion API, the
    chunks yielded in order, and the error thrown at the end, if any. *)
Definition stream (userMessage : str) (options : CompletionOptions) (db : Db.t)
  : list ChatCompletionRequest * (list StreamChunk * option AppError) :=
  let conversationHistory := defaulted (conversationHistory options) [] in
  let useRAG := defaulted (useRAG options) true in
  let topK := defaulted (topK options) 5 in
  let threshold := defaulted (threshold options) (7 # 10)%Q in
  let documentIds := documentIds options in
  match retrieve userMessage useRAG topK threshold documentIds db with
  | Throw e => ([], ([], Some e))
  | Ok (sources, contextPrompt) =>
      let first := if useRAG then [SourcesChunk sources] else [] in
      let messages := buildMessages contextPrompt conversationHistory userMessage in
      let request :=
        {| model := CHAT_MODEL;
           messages := messages;
           temperature := TEMPERATURE;
           max_tokens := MAX_TOKENS;
           stream_flag := true |} in
      ([request],
       match create_stream openai request with
       | Throw e => (first, Some e)
       | Ok (deltas, Some e) => (first ++ contentChunks deltas, Some e)
       | Ok (deltas, None) =>
           (first ++ contentChunks deltas ++ [DoneChunk sources], None)
       end)
  end.

End Service.
End Completion.

(** ** features/chat/chat.controller.ts: the streaming endpoint *)
Module ChatController.
Import Completion.

(** [ERROR_CODES.CONVERSATION_NOT_FOUND]. *)
Definition CONVERSATION_NOT_FOUND : str := $"CONVERSATION_NOT_FOUND".

(** What the handler did with [res] and [next]. *)
Record Outcome := {
  headers : list (str * str);
  writes : list str;
  ended : bool;
  nextError : option AppError;
  requests : list ChatCompletionRequest;
  db : Db.t
}.

(** The request as the handler reads it: [req.userId], [req.params.id] and
    [req.body.content]. *)
Record Request := {
  userId : str;
  conversationId : str;
  content : str
}.

(** The state of the [for await] loop. *)
Record LoopState := {
  fullContent : str;
  sources : list SearchResult.t;
  written : list str;
  loopDb : Db.t
}.

(** [`data: ${JSON.stringify(value)}\n\n`]. *)
Definition sseEvent (value : json) : str :=
  $"data: " ++ JSON.stringify value ++ [Str.LF; Str.LF].

Section Handler.
Variable svc : Retrieval.Services.
Variable openai : OpenAI.
Variable cuid : nat -> str.

(** The decimal form [(mantissa, exponent)] in which the host writes a
    number into JSON text. *)
Variable decimalOf : Q -> Z * Z.

(** A search result as a JSON value: the properties in the order in which
    [search] builds them, [metadata] only when it is defined. *)
Definition searchResultJson (r : SearchResult.t) : json :=
  JObj ([ ($"id", JStr (SearchResult.id r));
          ($"content", JStr (SearchResult.content r));
          ($"score", JNum (fst (decimalOf (SearchResult.score r)))
                          (snd (decimalOf (SearchResult.score r))));
          ($"documentId", JStr (SearchResult.documentId r)) ]
          ++ match SearchResult.metadata r with
             | Some m => [($"metadata", m)]
             | None => []
             end).

(** A chunk of the generator as a JSON value: [{ type, data }]. *)
Definition chunkJson (chunk : StreamChunk) : json :=
  match chunk with
  | SourcesChunk sources =>
      JObj [ ($"type", JStr $"sources");
             ($"data", JArr (map searchResultJson sources)) ]
  | ContentChunk content =>
      JObj [ ($"type", JStr $"content"); ($"data", JStr content) ]
  | DoneChunk sources =>
      JObj [ ($"type", JStr $"done");
             ($"data", JObj [($"sources", JArr (map searchResultJson sources))]) ]
  end.

(** The body of the [for await] loop of [sendMessageStream], for one chunk;
    [now] is the clock when the chunk arrives. *)
Definition onChunk (now : nat) (conversationId : str) (st : LoopState)
           (chunk : StreamChunk) : Result LoopState :=
  match chunk with
  | ContentChunk data =>
      Ok {| fullContent := fullContent st ++ data;
            sources := sources st;
            written := written st ++ [sseEvent (chunkJson chunk)];
            loopDb := loopDb st |}
  | SourcesChunk data =>
      Ok {| fullContent := fullContent st;
            sources := data;
            written := written st ++ [sseEvent (chunkJson chunk)];
            loopDb := loopDb st |}
  | DoneChunk _ =>
      saved <- ChatService.addMessage cuid now
                 {| ChatService.in_conversationId := conversationId;
                    ChatService.in_role := assistant;
                    ChatService.in_content := fullContent st;
                    ChatService.in_sources :=
                      Some (JArr (map searchResultJson (sources st))) |}
                 (loopDb st) ;;
      let assistantMessage := fst saved in
      Ok {| fullContent := fullContent st;
            sources := sources st;
            written :=
              written st
                ++ [sseEvent
                      (JObj [ ($"type", JStr $"done");
                              ($"data",
                               JObj [($"messageId",
                                      JStr (Message.id assistantMessage))]) ])];
            loopDb := snd saved |}
  end.

(** The [for await] loop: the state when it ends, and the error that ended
    it, if one was thrown. *)
Fixpoint streamLoop (now : nat) (conversationId : str) (st : LoopState)
         (chunks : list StreamChunk) : LoopState * option AppError :=
  match chunks with
  | [] => (st, None)
  | chunk :: rest =>
      match onChunk now conversationId st chunk with
      | Ok st' => streamLoop now conversationId st' rest
      | Throw e => (st, Some e)
      end
  end.

Definition sseHeaders : list (str * str) :=
  [ ($"Content-Type", $"text/event-stream");
    ($"Cache-Control", $"no-cache");
    ($"Connection", $"keep-alive") ].

(** [chatController.sendMessageStream]; [now] is the clock when the user
    message is saved and [later] the clock while the answer streams. *)
Definition sendMessageStream (now later : nat) (req : Request) (db : Db.t)
  : Outcome :=
  match ChatService.getConversation (conversationId req) (userId req) db with
  | None =>
      {| headers := []; writes := []; ended := false;
         nextError := Some (ApiError $"Conversation not found" (Some 404%Z)
                                     (Some CONVERSATION_NOT_FOUND));
         requests := []; db := db |}
  | Some (conversation, conversationMessages) =>
      match ChatService.addMessage cuid now
              {| ChatService.in_conversationId := conversationId req;
                 ChatService.in_role := user;
                 ChatService.in_content := content req;
                 ChatService.in_sources := None |} db with
      | Throw e =>
          {| headers := []; writes := []; ended := false; nextError := Some e;
             requests := []; db := db |}
      | Ok (_, db) =>
          let conversationHistory :=
            map (fun msg => {| role := Message.role msg;
                               Completion.content := Message.content msg |})
                conversationMessages in
          let settings :=
            match Conversation.settings conversation with
            | Some s => s
            | None => DEFAULT_SETTINGS
            end in
          let '(requests, (chunks, thrown)) :=
            stream svc openai (content req)
              {| Completion.conversationHistory := Some conversationHistory;
                 useRAG := Some true;
                 Completion.topK := Some (ConversationSettings.topK settings);
                 Completion.threshold :=
                   Some (ConversationSettings.threshold settings);
                 Completion.documentIds :=
                   ConversationSettings.documentIds settings |} db in
          let '(st, loopError) :=
            streamLoop later (conversationId req)
              {| fullContent := []; sources := []; written := []; loopDb := db |}
              chunks in
          let error :=
            match loopError with
            | Some e => Some e
            | None => thrown
            end in
          {| headers := sseHeaders;
             writes := written st;
             ended := match error with Some _ => false | None => true end;
             nextError := error;
             requests := requests;
             db := loopDb st |}
      end
  end.

End Handler.
End ChatController.

(** ** Client: the streaming hook (hooks/use-chat-streaming.ts) *)
Module ChatStreaming.

(** A thrown value: an [Error] with its message, or anything else. *)
Inductive Thrown :=
| ThrownError (message : str)
| ThrownOther.

(** The state of the hook. *)
Record State := {
  isStreaming : bool;
  streamingContent : str;
  streamingSources : option json;
  pendingUserMessage : option str;
  error : option str
}.

Definition initialState : State :=
  {| isStreaming := false;
     streamingContent := [];
     streamingSources := Some (JArr []);
     pendingUserMessage := None;
     error := None |}.

(** What the hook does besides updating its state. *)
Inductive Effect :=
| Fetch (url : str) (body : str)
| InvalidateQueries (conversationId : str)
| OnComplete.

Record World := {
  state : State;
  effects : list Effect
}.

(** The body of the response: the values that [reader.read()] resolves to,
    and how the reading ends. *)
Inductive ReadEnd :=
| ReadDone
| ReadThrows (e : Thrown).

Record Body := {
  reads : list str;
  ending : ReadEnd
}.

(** What [fetch] does: it rejects, or it resolves to a response with its
    [ok] flag and its body, if it has one. *)
Inductive FetchOutcome :=
| FetchRejects (e : Thrown)
| FetchResolves (ok : bool) (body : option Body).

Definition setStreamingContent (f : str -> str) (w : World) : World :=
  {| state :=
       {| isStreaming := isStreaming (state w);
          streamingContent := f (streamingContent (state w));
          streamingSources := streamingSources (state w);
          pendingUserMessage := pendingUserMessage (state w);
          error := error (state w) |};
     effects := effects w |}.

Definition setStreamingSources (v : option json) (w : World) : World :=
  {| state :=
       {| isStreaming := isStreaming (state w);
          streamingContent := streamingContent (state w);
          streamingSources := v;
          pendingUserMessage := pendingUserMessage (state w);
          error := error (state w) |};
     effects := effects w |}.

Definition setIsStreaming (b : bool) (w : World) : World :=
  {| state :=
       {| isStreaming := b;
          streamingContent := streamingContent (state w);
          streamingSources := streamingSources (state w);
          pendingUserMessage := pendingUserMessage (state w);
          error := error (state w) |};
     effects := effects w |}.

Definition setPendingUserMessage (m : option str) (w : World) : World :=
  {| state :=
       {| isStreaming := isStreaming (state w);
          streamingContent := streamingContent (state w);
          streamingSources := streamingSources (state w);
          pendingUserMessage := m;
          error := error (state w) |};
     effects := effects w |}.

Definition setError (e : option str) (w : World) : World :=
  {| state :=
       {| isStreaming := isStreaming (state w);
          streamingContent := streamingContent (state w);
          streamingSources := streamingSources (state w);
          pendingUserMessage := pendingUserMessage (state w);
          error := e |};
     effects := effects w |}.

Definition perform (e : Effect) (w : World) : World :=
  {| state := state w; effects := effects w ++ [e] |}.

Section Hook.

(** [clientEnv.NEXT_PUBLIC_API_URL]. *)
Variable apiUrl : str.

(** The host's conversion to a string of a value that is not a string
    ([None] is [undefined]), as [prev + data.data] applies it. *)
Variable ToString : option json -> str.

Definition plus (prev : str) (v : option json) : str :=
  match v with
  | Some (JStr s) => prev ++ s
  | _ => prev ++ ToString v
  end.

(** The body of the loop over the complete lines of the buffer. A line
    whose payload does not parse, or parses to [null], changes nothing: the
    error is caught and ignored. *)
Definition onLine (conversationId : str) (w : World) (line : str) : World :=
  if Str.startsWith line $"data: " then
    match JSON.parse (Str.slice 6 line) with
    | None => w
    | Some JNull => w
    | Some data =>
        match JSON.get data $"type" with
        | Some (JStr type) =>
            if Str.eqb type $"content" then
              setStreamingContent (fun prev => plus prev (JSON.get data $"data")) w
            else if Str.eqb type $"sources" then
              setStreamingSources (JSON.get data $"data") w
            else if Str.eqb type $"done" then
              perform OnComplete (perform (InvalidateQueries conversationId) w)
            else w
        | _ => w
        end
    end
  else w.

(** The [while (true)] loop over the reads. The decoder is in streaming mode:
    the text of the reads is the text of the whole body, cut at the reads. *)
Fixpoint readLoop (conversationId : str) (values : list str) (buffer : str)
         (w : World) : World * str :=
  match values with
  | [] => (w, buffer)
  | value :: rest =>
      let buffer := buffer ++ value in
      let lines := Str.splitOnBlankLine buffer in
      let buffer := last lines [] in
      let lines := removelast lines in
      readLoop conversationId rest buffer
               (fold_left (onLine conversationId) lines w)
  end.

(** The statements before the [try] block. *)
Definition begin (content : str) (w : World) : World :=
  setError None
    (setStreamingSources (Some (JArr []))
       (setStreamingContent (fun _ => [])
          (setIsStreaming true (setPendingUserMessage (Some content) w)))).

(** The [try] block: the world when it is left, and the value thrown in it,
    if any. *)
Definition tryBlock (conversationId content : str) (net : FetchOutcome)
           (w : World) : World * option Thrown :=
  let w :=
    perform
      (Fetch (apiUrl ++ $"/api/chat/conversations/" ++ conversationId
                     ++ $"/messages/stream")
             (JSON.stringify (JObj [($"content", JStr content)])))
      w in
  match net with
  | FetchRejects e => (w, Some e)
  | FetchResolves ok body =>
      if negb ok then (w, Some (ThrownError $"Failed to send message"))
      else
        match body with
        | None => (w, Some (ThrownError $"No response body"))
        | Some body =>
            (fst (readLoop conversationId (reads body) [] w),
             match ending body with
             | ReadDone => None
             | ReadThrows e => Some e
             end)
        end
  end.

(** The [catch] block. *)
Definition catchBlock (thrown : option Thrown) (w : World) : World :=
  match thrown with
  | Some (ThrownError message) => setError (Some message) w
  | Some ThrownOther => setError (Some $"Failed to get response") w
  | None => w
  end.

(** The [finally] block. *)
Definition finallyBlock (w : World) : World :=
  setPendingUserMessage None
    (setStreamingSources (Some (JArr []))
       (setStreamingContent (fun _ => []) (setIsStreaming false w))).

(** [sendMessage(conversationId, content)]. *)
Definition sendMessage (conversationId content : str) (net : FetchOutcome)
           (w : World) : World :=
  let '(w, thrown) := tryBlock conversationId content net (begin content w) in
  finallyBlock (catchBlock thrown w).

End Hook.
End ChatStreaming.

(** ** features/chat/chat.controller.ts: the handlers without streaming *)
Module ChatHandlers.
Import Completion.

(** What [sendSuccess(res, data, status = 200)] puts on the wire:
    [res.status(status)] and the body [{ success: true, data }]. *)
Record SuccessResponse (A : Type) := {
  status : Z;
  success : bool;
  data : A
}.

(** [sendSuccess] of shared/utils/response.ts. *)
Definition sendSuccess {A} (data : A) (status : option Z) : SuccessResponse A :=
  {| status := match status with Some s => s | None => 200%Z end;
     success := true;
     data := data |}.

(** What a handler did: the response it sent, or the error it passed to
    [next]; the requests sent to the completion API; and the database when
    it returns. *)
Record Handled (A : Type) := {
  response : Result (SuccessResponse A);
  requests : list ChatCompletionRequest;
  db : Db.t
}.

(** [{ deleted: true }] and [{ updated: true }]. *)
Record Deleted := { deleted : bool }.
Record Updated := { updated : bool }.

(** The data of the answer of [sendMessage]. *)
Record SendMessageData := {
  userMessage : Message.t;
  assistantMessage : Message.t;
  sources : list SearchResult.t
}.

(** The body of a quick-chat request and the data of its answer. *)
Record QuickChatBody := {
  body_content : str;
  body_topK : option nat;
  body_threshold : option Q;
  body_documentIds : option (list str)
}.

Record QuickChatData := {
  quick_content : str;
  quick_sources : list SearchResult.t
}.

Definition notFound : AppError :=
  ApiError $"Conversation not found" (Some 404%Z)
           (Some ChatController.CONVERSATION_NOT_FOUND).

Section Handler.
Variable svc : Retrieval.Services.
Variable openai : OpenAI.
Variable cuid : nat -> str.
Variable decimalOf : Q -> Z * Z.

(** [chatController.getConversations]. *)
Definition getConversations (userId : str) (db : Db.t)
  : Handled (list (Conversation.t * list Message.t)) :=
  {| response := Ok (sendSuccess (ChatService.getConversations userId db) None);
     requests := [];
     db := db |}.

(** [chatController.createConversation]; [title] and [settings] are the
    optional members of the body. *)
Definition createConversation (now : nat) (userId : str) (title : option str)
           (settings : option ConversationSettings.t) (db : Db.t)
  : Handled Conversation.t :=
  let '(conversation, db) :=
    ChatService.createConversation cuid now userId title
      (Some (match settings with Some s => s | None => DEFAULT_SETTINGS end))
      db in
  {| response := Ok (sendSuccess conversation (Some 201%Z));
     requests := [];
     db := db |}.

(** [chatController.getConversation]. *)
Definition getConversation (conversationId userId : str) (db : Db.t)
  : Handled (Conversation.t * list Message.t) :=
  match ChatService.getConversation conversationId userId db with
  | None => {| response := Throw notFound; requests := []; db := db |}
  | Some conversation =>
      {| response := Ok (sendSuccess conversation None);
         requests := [];
         db := db |}
  end.

(** [chatController.deleteConversation]. *)
Definition deleteConversation (conversationId userId : str) (db : Db.t)
  : Handled Deleted :=
  let '(_, db) := ChatService.deleteConversation conversationId userId db in
  {| response := Ok (sendSuccess {| deleted := true |} None);
     requests := [];
     db := db |}.

(** [chatController.updateSettings]. *)
Definition updateSettings (now : nat) (conversationId userId : str)
           (settings : ConversationSettings.t) (db : Db.t) : Handled Updated :=
  let '(_, db) :=
    ChatService.updateConversationSettings now conversationId userId settings
      db in
  {| response := Ok (sendSuccess {| updated := true |} None);
     requests := [];
     db := db |}.

(** [chatController.sendMessage]; [now] is the clock when the user message
    is saved and [later] the clock when the answer is. *)
Definition sendMessage (now later : nat) (req : ChatController.Request)
           (db : Db.t) : Handled SendMessageData :=
  let content := ChatController.content req in
  let conversationId := ChatController.conversationId req in
  match ChatService.getConversation conversationId
          (ChatController.userId req) db with
  | None => {| response := Throw notFound; requests := []; db := db |}
  | Some (conversation, conversationMessages) =>
      match ChatService.addMessage cuid now
              {| ChatService.in_conversationId := conversationId;
                 ChatService.in_role := user;
                 ChatService.in_content := content;
                 ChatService.in_sources := None |} db with
      | Throw e => {| response := Throw e; requests := []; db := db |}
      | Ok (userMessage, db) =>
          let conversationHistory :=
            map (fun msg => {| role := Message.role msg;
                               Completion.content := Message.content msg |})
                conversationMessages in
          let settings :=
            match Conversation.settings conversation with
            | Some s => s
            | None => DEFAULT_SETTINGS
            end in
          let '(requests, result) :=
            complete svc openai content
              {| Completion.conversationHistory := Some conversationHistory;
                 useRAG := Some true;
                 Completion.topK := Some (ConversationSettings.topK settings);
                 Completion.threshold :=
                   Some (ConversationSettings.threshold settings);
                 Completion.documentIds :=
                   ConversationSettings.documentIds settings |} db in
          match result with
          | Throw e => {| response := Throw e; requests := requests; db := db |}
          | Ok result =>
              match ChatService.addMessage cuid later
                      {| ChatService.in_conversationId := conversationId;
                         ChatService.in_role := assistant;
                         ChatService.in_content := result_content result;
                         ChatService.in_sources :=
                           Some (JArr (map (ChatController.searchResultJson
                                              decimalOf)
                                           (result_sources result))) |} db with
              | Throw e =>
                  {| response := Throw e; requests := requests; db := db |}
              | Ok (assistantMessage, db) =>
                  {| response :=
                       Ok (sendSuccess
                             {| userMessage := userMessage;
                                assistantMessage := assistantMessage;
                                sources := result_sources result |} None);
                     requests := requests;
                     db := db |}
              end
          end
      end
  end.

(** [chatController.quickChat]. *)
Definition quickChat (body : QuickChatBody) (db : Db.t) : Handled QuickChatData :=
  let '(requests, result) :=
    complete svc openai (body_content body)
      {| Completion.conversationHistory := None;
         useRAG := Some true;
         Completion.topK :=
           Some (match body_topK body with Some k => k | None => 5 end);
         Completion.threshold :=
           Some (match body_threshold body with
                 | Some t => t
                 | None => (7 # 10)%Q
                 end);
         Completion.documentIds := body_documentIds body |} db in
  {| response :=
       result <- result ;;
       Ok (sendSuccess {| quick_content := result_content result;
                          quick_sources := result_sources result |} None);
     requests := requests;
     db := db |}.

End Handler.
End ChatHandlers.

(** ** Client: [chatApi.sendMessageStream] (api/chat-api.ts) *)
Module ChatApi.
Import ChatStreaming.

(** A call of one of the callbacks, with its argument ([None] is
    [undefined]). *)
Inductive Call :=
| OnChunk (chunk : option json)
| OnSources (sources : option json)
| OnDone (messageId : option json).

(** Whether the optional callbacks [onSources] and [onDone] are given. *)
Record Callbacks := {
  onSources : bool;
  onDone : bool
}.

(** What ends the call early: the [SyntaxError] of [JSON.parse], the
    [TypeError] of a property read on [null] or [undefined], an [Error]
    of the function itself, or what [fetch] or [reader.read()] rejected
    with. *)
Inductive Exception :=
| SyntaxError
| TypeError
| Failure (message : str)
| Rejected (e : Thrown).

(** [value === s] for a value read from parsed JSON. *)
Definition isString (value : option json) (s : str) : bool :=
  match value with
  | Some (JStr t) => Str.eqb t s
  | _ => false
  end.

(** The body of the loop over the complete lines of the buffer: the calls
    it makes, and what it throws, if anything. *)
Definition onLine (cb : Callbacks) (line : str) : list Call * option Exception :=
  if Str.startsWith line $"data: " then
    match JSON.parse (Str.slice 6 line) with
    | None => ([], Some SyntaxError)
    | Some JNull => ([], Some TypeError)
    | Some data =>
        if isString (JSON.get data $"type") $"content" then
          ([OnChunk (JSON.get data $"data")], None)
        else if isString (JSON.get data $"type") $"sources" && onSources cb then
          ([OnSources (JSON.get data $"data")], None)
        else if isString (JSON.get data $"type") $"done" && onDone cb then
          match JSON.get data $"data" with
          | None => ([], Some TypeError)
          | Some JNull => ([], Some TypeError)
          | Some inner => ([OnDone (JSON.get inner $"messageId")], None)
          end
        else ([], None)
    end
  else ([], None).

(** The [for] loop over the lines: it stops at the first line that
    throws. *)
Fixpoint onLines (cb : Callbacks) (lines : list str)
  : list Call * option Exception :=
  match lines with
  | [] => ([], None)
  | line :: rest =>
      match onLine cb line with
      | (calls, Some e) => (calls, Some e)
      | (calls, None) =>
          let '(calls', thrown) := onLines cb rest in
          (calls ++ calls', thrown)
      end
  end.

(** The [while (true)] loop over the reads; [ending] is how the reading
    ends after the last value. *)
Fixpoint readLoop (cb : Callbacks) (values : list str) (ending : ReadEnd)
         (buffer : str) : list Call * option Exception :=
  match values with
  | [] =>
      ([], match ending with
           | ReadDone => None
           | ReadThrows e => Some (Rejected e)
           end)
  | value :: rest =>
      let buffer := buffer ++ value in
      let lines := Str.splitOnBlankLine buffer in
      let buffer := last lines [] in
      let lines := removelast lines in
      match onLines cb lines with
      | (calls, Some e) => (calls, Some e)
      | (calls, None) =>
          let '(calls', thrown) := readLoop cb rest ending buffer in
          (calls ++ calls', thrown)
      end
  end.

(** The request that [chatApi.sendMessageStream] makes with [fetch]: its URL
    and its body. *)
Definition request (apiUrl conversationId content : str) : Effect :=
  Fetch (apiUrl ++ $"/api/chat/conversations/" ++ conversationId
                ++ $"/messages/stream")
        (JSON.stringify (JObj [($"content", JStr content)])).

(** [chatApi.sendMessageStream(conversationId, content, onChunk, onSources,
    onDone)], given what the [fetch] of [request] does: the calls of the
    callbacks in order, and what the promise is rejected with, if it is.
    The callbacks are taken to return. *)
Definition sendMessageStream (cb : Callbacks) (net : FetchOutcome)
  : list Call * option Exception :=
  match net with
  | FetchRejects e => ([], Some (Rejected e))
  | FetchResolves ok body =>
      if negb ok then ([], Some (Failure $"Failed to send message"))
      else
        match body with
        | None => ([], Some (Failure $"No response body"))
        | Some body => readLoop cb (reads body) (ending body) []
        end
  end.

End ChatApi.

(** ** Client: the other actions of the chat store (stores/chat-store.ts) *)
Module ChatStoreActions.
Import ChatStore.

(** [setConversations(conversations)]. *)
Definition setConversations (cs : list Conversation) (state : ChatState)
  : ChatState :=
  setConversationsOf state cs.

(** [setActiveConversation(id)]; [None] is [null]. *)
Definition setActiveConversation (id : option str) (state : ChatState)
  : ChatState :=
  {| conversations := conversations state;
     activeConversationId := id;
     isLoading := isLoading state;
     stateIsStreaming := stateIsStreaming state;
     error := error state |}.

(** [addConversation(conversation)]. *)
Definition addConversation (conversation : Conversation) (state : ChatState)
  : ChatState :=
  {| conversations := conversation :: conversations state;
     activeConversationId := Some (conv_id conversation);
     isLoading := isLoading state;
     stateIsStreaming := stateIsStreaming state;
     error := error state |}.

(** [removeConversation(id)]. *)
Definition removeConversation (id : str) (state : ChatState) : ChatState :=
  {| conversations :=
       filter (fun c => negb (Str.eqb (conv_id c) id)) (conversations state);
     activeConversationId :=
       match activeConversationId state with
       | Some active => if Str.eqb active id then None else Some active
       | None => None
       end;
     isLoading := isLoading state;
     stateIsStreaming := stateIsStreaming state;
     error := error state |}.

(** [setStreaming(isStreaming)]. *)
Definition setStreaming (isStreaming : bool) (state : ChatState) : ChatState :=
  {| conversations := conversations state;
     activeConversationId := activeConversationId state;
     isLoading := isLoading state;
     stateIsStreaming := isStreaming;
     error := error state |}.

(** [setLoading(isLoading)]. *)
Definition setLoading (isLoading : bool) (state : ChatState) : ChatState :=
  {| conversations := conversations state;
     activeConversationId := activeConversationId state;
     isLoading := isLoading;
     stateIsStreaming := stateIsStreaming state;
     error := error state |}.

(** [setError(error)]. *)
Definition setError (error : option str) (state : ChatState) : ChatState :=
  {| conversations := conversations state;
     activeConversationId := activeConversationId state;
     isLoading := isLoading state;
     stateIsStreaming := stateIsStreaming state;
     error := error |}.

(** [reset()]. *)
Definition reset (state : ChatState) : ChatState := initialState.

End ChatStoreActions.

(** ** features/documents: the reads of documents.service.ts and their
    routes *)
Module DocumentsRead.

(** [DocumentResponse]. *)
Record DocumentResponse := {
  dr_id : str;
  dr_title : str;
  dr_filename : str;
  dr_mimeType : str;
  dr_size : nat;
  dr_createdAt : nat;
  dr_updatedAt : nat;
  dr_chunkCount : nat
}.

(** The columns of a chunk that [getDocument] selects. *)
Record ChunkView := {
  cv_id : str;
  cv_content : str;
  cv_tokenCount : option nat;
  cv_metadata : option json
}.

Record RecentDocument := {
  rd_id : str;
  rd_title : str;
  rd_createdAt : nat;
  rd_chunkCount : nat
}.

(** [DocumentStatsResponse]. *)
Record DocumentStatsResponse := {
  documentCount : nat;
  chunkCount : nat;
  totalSizeBytes : nat;
  recentDocuments : list RecentDocument
}.

(** The chunks of a document: the relation [chunks] of the schema. Below
    they are counted, or rearranged before they are given out. *)
Definition chunksOf (documentId : str) (db : Db.t) : list DocumentChunk.t :=
  filter (fun chunk => Str.eqb (DocumentChunk.documentId chunk) documentId)
         (Db.chunks db).

(** [orderBy: { createdAt: "desc" }]. *)
Definition newestFirst (documents : list Document.t) : list Document.t :=
  orderBy (fun d => (- ChatService.timeKey (Document.createdAt d))%Q) documents.

(** [documentsService.getDocuments]. *)
Definition getDocuments (db : Db.t) : list DocumentResponse :=
  map (fun doc =>
         {| dr_id := Document.id doc;
            dr_title := Document.title doc;
            dr_filename := Document.filename doc;
            dr_mimeType := Document.mimeType doc;
            dr_size := Document.size doc;
            dr_createdAt := Document.createdAt doc;
            dr_updatedAt := Document.updatedAt doc;
            dr_chunkCount := length (chunksOf (Document.id doc) db) |})
      (newestFirst (Db.documents db)).

(** [documentsService.getDocument]: [None] is [null]. The chunks are
    included without an [orderBy], so the database gives them in an order
    of its own: [unordered] is that order, some arrangement of the rows
    that the code does not choose. *)
Definition getDocument (unordered : list DocumentChunk.t -> list DocumentChunk.t)
           (documentId : str) (db : Db.t)
  : option (Document.t * list ChunkView) :=
  match find (fun d => Str.eqb (Document.id d) documentId) (Db.documents db) with
  | Some doc =>
      Some (doc,
            map (fun chunk =>
                   {| cv_id := DocumentChunk.id chunk;
                      cv_content := DocumentChunk.content chunk;
                      cv_tokenCount := DocumentChunk.tokenCount chunk;
                      cv_metadata := DocumentChunk.metadata chunk |})
                (unordered (chunksOf (Document.id doc) db)))
  | None => None
  end.

(** [documentsService.getStats]. *)
Definition getStats (db : Db.t) : DocumentStatsResponse :=
  let documentCount := length (Db.documents db) in
  let chunkCount := length (Db.chunks db) in
  let recentDocumentsRaw := firstn 5 (newestFirst (Db.documents db)) in
  let totalSize :=
    match Db.documents db with
    | [] => None
    | docs => Some (fold_left (fun sum d => sum + Document.size d) docs 0)
    end in
  let recentDocuments :=
    map (fun doc =>
           {| rd_id := Document.id doc;
              rd_title := Document.title doc;
              rd_createdAt := Document.createdAt doc;
              rd_chunkCount := length (chunksOf (Document.id doc) db) |})
        recentDocumentsRaw in
  {| documentCount := documentCount;
     chunkCount := chunkCount;
     totalSizeBytes := match totalSize with Some s => s | None => 0 end;
     recentDocuments := recentDocuments |}.

(** The handlers of [GET /api/documents], [GET /api/documents/stats] and
    [GET /api/documents/:id]: the response sent, or the error passed to
    [next]. *)
Definition listHandler (db : Db.t)
  : Result (ChatHandlers.SuccessResponse (list DocumentResponse)) :=
  Ok (ChatHandlers.sendSuccess (getDocuments db) None).

Definition statsHandler (db : Db.t)
  : Result (ChatHandlers.SuccessResponse DocumentStatsResponse) :=
  Ok (ChatHandlers.sendSuccess (getStats db) None).

Definition getHandler (unordered : list DocumentChunk.t -> list DocumentChunk.t)
           (id : str) (db : Db.t)
  : Result (ChatHandlers.SuccessResponse (Document.t * list ChunkView)) :=
  match getDocument unordered id db with
  | None => Throw (ApiError $"Document not found" (Some 404%Z) None)
  | Some document => Ok (ChatHandlers.sendSuccess document None)
  end.

End DocumentsRead.

(** ** features/retrieval: the batch embeddings and their storage *)
Module Embeddings.

(** [EMBEDDING_DIMENSION] and [embeddingsService.getDimension]. *)
Definition EMBEDDING_DIMENSION : nat := 1536.
Definition getDimension : nat := EMBEDDING_DIMENSION.


Section Service.

(** The hosted embedding API called with an array as input: it answers the
    model name and the texts with the [data[_].embedding] vectors and
    [usage.total_tokens], or fails. *)
Variable embeddings_create_batch :
  str -> list str -> Result (list (list Q) * nat).





End Service.
End Embeddings.

(** ** What [res.json] sends for the bodies of shared/utils/response.ts *)
Module Wire.


(** The body of [sendError]: [{ success: false, error: { message, code } }];
    a [code] that is [undefined] is not written. *)
Definition errorBody (r : ErrorMiddleware.ErrorResponse) : json :=
  JObj [ ($"success", JBool (ErrorMiddleware.success r));
         ($"error",
          JObj ([ ($"message", JStr (ErrorMiddleware.errorMessage r)) ]
                  ++ match ErrorMiddleware.errorCode r with
                     | Some c => [($"code", JStr c)]
                     | None => []
                     end)) ].

(** The last line of [sendError], [res.status(status).json(response)]: what
    Express sends for the status and the body of [r]. *)
Definition answerOf (r : ErrorMiddleware.ErrorResponse) : Express.Outcome json :=
  Express.respond (ErrorMiddleware.status r) (errorBody r).



End Wire.

(** ** Client: the request wrapper (shared/lib/request.ts), for JSON
    responses *)
Module Request.

(** The client's [ApiError]: [message], [statusCode], [code] and
    [response]; [None] is [undefined]. *)
Record ApiError := {
  message : str;
  statusCode : option Z;
  code : option json;
  response : option json
}.


(** What [baseRequest] does: it returns a value ([None] is [undefined]) or
    throws an [ApiError]. *)
Inductive Outcome :=
| Returns (value : option json)
| Throws (error : ApiError).

(** The truthiness of a JSON value. *)
Definition truthy (v : json) : bool :=
  match v with
  | JNull => false
  | JBool b => b
  | JNum m _ => negb (m =? 0)%Z
  | JStr s => Str.truthy s
  | JArr _ => true
  | JObj _ => true
  end.



(** [url.startsWith("/") ? url : `/${url}`] after [BASE_URL]. *)
Definition requestUrl (BASE_URL url : str) : str :=
  BASE_URL ++ (if Str.startsWith url $"/" then url else $"/" ++ url).

Section Client.

(** The host's conversion to a string of a value that is not a string, as
    the constructor of [Error] applies it to its message. *)
Variable ToString : json -> str.

Definition messageOf (v : json) : str :=
  match v with
  | JStr s => s
  | _ => ToString v
  end.




End Client.
End Request.

(** ** shared/middleware/auth.middleware.ts *)
Module AuthMiddleware.

(** [session.user]: [name] may be missing ([None]) or [null]
    ([Some None]). *)
Record SessionUser := {
  su_id : str;
  su_email : str;
  su_name : option (option str)
}.

(** What [auth.api.getSession] does: it resolves to [null] ([None]), to a
    session without user ([Some None]) or to a session with its user; or
    it throws an [ApiError] ([Some e]) or anything else ([None]). *)
Inductive SessionOutcome :=
| SessionResolves (session : option (option SessionUser))
| SessionThrows (apiError : option AppError).

(** What the middleware has attached to the request. *)
Record Attached := {
  userId : option str;
  user : option SessionUser
}.

(** [next()] with the request as it is then, or [next(error)]. *)
Inductive Passed :=
| Next (req : Attached)
| NextError (e : AppError).

(** [requireAuth]. *)
Definition requireAuth (outcome : SessionOutcome) : Passed :=
  match outcome with
  | SessionResolves (Some (Some u)) =>
      Next {| userId := Some (su_id u);
              user := Some {| su_id := su_id u;
                              su_email := su_email u;
                              su_name := su_name u |} |}
  | SessionResolves _ =>
      NextError (ApiError $"Authentication required" (Some 401%Z)
                          (Some $"UNAUTHORIZED"))
  | SessionThrows (Some e) => NextError e
  | SessionThrows None =>
      NextError (ApiError $"Authentication failed" (Some 401%Z)
                          (Some $"UNAUTHORIZED"))
  end.

(** [optionalAuth]. *)
Definition optionalAuth (outcome : SessionOutcome) : Passed :=
  match outcome with
  | SessionResolves (Some (Some u)) =>
      Next {| userId := Some (su_id u);
              user := Some {| su_id := su_id u;
                              su_email := su_email u;
                              su_name := su_name u |} |}
  | _ => Next {| userId := None; user := None |}
  end.

End AuthMiddleware.

(* ================================================================== *)
(** * Part II: properties *)
(* ================================================================== *)

Unset Implicit Arguments.

(** ** Strings *)
Section StrFacts.

(** No white space at the front, and none at the back. *)
Definition noLeadingWs (s : str) : bool :=
  match s with
  | [] => true
  | c :: _ => negb (Str.isWhiteSpace c)
  end.

Definition noTrailingWs (s : str) : bool := noLeadingWs (rev s).

Definition isTrimmed (s : str) : bool := noLeadingWs s && noTrailingWs s.

Lemma dropWhile_suffix (p : ascii -> bool) (s : str) :
  exists pre, s = pre ++ Str.dropWhile p s.
Proof.
  induction s as [|c r IH]; simpl.
  - exists []. reflexivity.
  - destruct (p c).
    + destruct IH as [pre E]. exists (c :: pre). simpl. now rewrite <- E.
    + exists []. reflexivity.
Qed.

Lemma dropWhile_head (s : str) :
  noLeadingWs (Str.dropWhile Str.isWhiteSpace s) = true.
Proof.
  induction s as [|c r IH]; simpl; [reflexivity|].
  destruct (Str.isWhiteSpace c) eqn:E; [exact IH|].
  simpl. now rewrite E.
Qed.

Lemma trimEnd_prefix (s : str) : exists post, s = Str.trimEnd s ++ post.
Proof.
  unfold Str.trimEnd.
  destruct (dropWhile_suffix Str.isWhiteSpace (rev s)) as [pre E].
  exists (rev pre).
  rewrite <- rev_app_distr, <- E. now rewrite rev_involutive.
Qed.

Lemma trimEnd_keeps_head (s : str) :
  noLeadingWs s = true -> noLeadingWs (Str.trimEnd s) = true.
Proof.
  destruct (trimEnd_prefix s) as [post E].
  destruct (Str.trimEnd s) as [|c r]; [reflexivity|].
  rewrite E. simpl. auto.
Qed.

Lemma trim_isTrimmed (s : str) : isTrimmed (Str.trim s) = true.
Proof.
  unfold isTrimmed, Str.trim. apply andb_true_intro. split.
  - apply trimEnd_keeps_head, dropWhile_head.
  - unfold noTrailingWs, Str.trimEnd. rewrite rev_involutive.
    apply dropWhile_head.
Qed.

Lemma Str_eqb_eq (a b : str) : Str.eqb a b = true <-> a = b.
Proof.
  unfold Str.eqb. destruct (list_eq_dec ascii_dec a b); split; congruence.
Qed.

Lemma Str_eqb_refl (a : str) : Str.eqb a a = true.
Proof. now apply Str_eqb_eq. Qed.

Lemma Str_eqb_neq (a b : str) : Str.eqb a b = false <-> a <> b.
Proof.
  unfold Str.eqb. destruct (list_eq_dec ascii_dec a b); split; congruence.
Qed.

End StrFacts.

(** ** Documents: chunking and upload *)
Section DocumentsFacts.
Import Documents.

Lemma chunkStep_trimmed m chunks cur para :
  Forall (fun c => isTrimmed c = true) chunks ->
  Forall (fun c => isTrimmed c = true) (fst (chunkStep m (chunks, cur) para)).
Proof.
  intros H. unfold chunkStep.
  destruct (negb (Str.truthy (Str.trim para))); [exact H|].
  destruct ((m <? length cur + length (Str.trim para)) && Str.truthy cur);
    simpl; [|exact H].
  apply Forall_app. split; [exact H|].
  constructor; [apply trim_isTrimmed|constructor].
Qed.

Lemma fold_chunkStep_trimmed m paras st :
  Forall (fun c => isTrimmed c = true) (fst st) ->
  Forall (fun c => isTrimmed c = true) (fst (fold_left (chunkStep m) paras st)).
Proof.
  revert st. induction paras as [|p ps IH]; intros [chunks cur] H; simpl.
  - exact H.
  - apply IH. now apply chunkStep_trimmed.
Qed.

Lemma paragraphChunks_trimmed text m :
  Forall (fun c => isTrimmed c = true) (paragraphChunks text m).
Proof.
  unfold paragraphChunks.
  pose proof (fold_chunkStep_trimmed m (Str.splitParagraphs text) ([], [])
                (Forall_nil _)) as H.
  destruct (fold_left (chunkStep m) (Str.splitParagraphs text) ([], []))
    as [chunks cur]. simpl in H.
  destruct (Str.truthy (Str.trim cur)); [|exact H].
  apply Forall_app. split; [exact H|].
  constructor; [apply trim_isTrimmed|constructor].
Qed.

Lemma chunkText_cases text maxChunkSize :
  let m := match maxChunkSize with Some m => m | None => 1000 end in
  (paragraphChunks text m = [] /\ chunkText text maxChunkSize = [Str.trim text])
  \/ (paragraphChunks text m <> [] /\ chunkText text maxChunkSize = paragraphChunks text m).
Proof.
  unfold chunkText. simpl.
  destruct (paragraphChunks text _) as [|c cs] eqn:E; simpl.
  - left. split; reflexivity.
  - right. split; [discriminate|reflexivity].
Qed.

(** C10. [chunkText] is a total function that returns at least one chunk for
    every text and every chunk size; when the paragraph splitting yields no
    chunk the result is the single chunk [text.trim()], and otherwise it is
    the chunks of the paragraph splitting; and no chunk of the result starts
    or ends with white space. *)
Theorem chunkText_nonempty_and_trimmed :
  forall (text : str) (maxChunkSize : option nat),
    let m := match maxChunkSize with Some m => m | None => 1000 end in
    1 <= length (chunkText text maxChunkSize)
    /\ (paragraphChunks text m = [] ->
        chunkText text maxChunkSize = [Str.trim text])
    /\ (paragraphChunks text m <> [] ->
        chunkText text maxChunkSize = paragraphChunks text m)
    /\ Forall (fun chunk => noLeadingWs chunk = true /\ noTrailingWs chunk = true)
              (chunkText text maxChunkSize).
Proof.
  intros text maxChunkSize m.
  pose proof (chunkText_cases text maxChunkSize) as H. cbv zeta in H.
  fold m in H.
  pose proof (paragraphChunks_trimmed text m) as HT.
  destruct H as [[E1 E2]|[E1 E2]]; rewrite E2.
  - repeat split; simpl; auto; try congruence.
    constructor; [|constructor].
    apply andb_prop. apply trim_isTrimmed.
  - repeat split; auto; try congruence.
    + destruct (paragraphChunks text m); [congruence|simpl; lia].
    + eapply Forall_impl; [|exact HT].
      intros c Hc. apply andb_prop. exact Hc.
Qed.

Lemma mapiFrom_length {A B} (f : A -> nat -> B) i l :
  length (mapiFrom f i l) = length l.
Proof. revert i. induction l; intros; simpl; auto. Qed.

Lemma mapiFrom_nth_error {A B} (f : A -> nat -> B) l : forall i k,
  nth_error (mapiFrom f i l) k
  = option_map (fun x => f x (i + k)) (nth_error l k).
Proof.
  induction l as [|x r IH]; intros i [|k]; simpl; auto.
  - now rewrite Nat.add_0_r.
  - rewrite IH. now replace (S i + k) with (i + S k) by lia.
Qed.



End DocumentsFacts.

(** ** Retrieval: threshold, limit, order and document filter *)
Section RetrievalFacts.
Import Retrieval.

Variable svc : Services.

Lemma insertBy_In {A} (key : A -> Q) x y l :
  In y (insertBy key x l) <-> y = x \/ In y l.
Proof.
  induction l as [|z r IH]; simpl.
  - intuition.
  - destruct (Qle_bool (key x) (key z)); simpl; rewrite ?IH; intuition.
Qed.

Lemma insertBy_sorted {A} (key : A -> Q) x l :
  StronglySorted (fun a b => (key a <= key b)%Q) l ->
  StronglySorted (fun a b => (key a <= key b)%Q) (insertBy key x l).
Proof.
  induction 1 as [|z r Hs IH Hz]; simpl.
  - constructor; constructor.
  - destruct (Qle_bool (key x) (key z)) eqn:E.
    + apply Qle_bool_iff in E.
      constructor; [constructor; assumption|].
      constructor; [exact E|].
      eapply Forall_impl; [|exact Hz]. intros a Ha. simpl in Ha. lra.
    + assert (key z <= key x)%Q.
      { destruct (Qlt_le_dec (key z) (key x)) as [L|L]; [lra|].
        apply Qle_bool_iff in L. congruence. }
      constructor; [exact IH|].
      apply Forall_forall. intros a Ha. apply insertBy_In in Ha.
      destruct Ha as [->|Ha]; [assumption|].
      rewrite Forall_forall in Hz. now apply Hz.
Qed.

Lemma orderBy_In {A} (key : A -> Q) y l : In y (orderBy key l) <-> In y l.
Proof.
  induction l as [|x r IH]; simpl; [tauto|].
  rewrite insertBy_In, IH. intuition.
Qed.

Lemma orderBy_sorted {A} (key : A -> Q) l :
  StronglySorted (fun a b => (key a <= key b)%Q) (orderBy key l).
Proof.
  induction l; simpl; [constructor|now apply insertBy_sorted].
Qed.

Lemma firstn_incl {A} n (l : list A) x : In x (firstn n l) -> In x l.
Proof.
  revert n. induction l as [|y r IH]; intros [|n]; simpl; try tauto.
  intros [->|H]; [now left|right; eauto].
Qed.

Lemma firstn_sorted {A} (R : A -> A -> Prop) n l :
  StronglySorted R l -> StronglySorted R (firstn n l).
Proof.
  intros H. revert n. induction H as [|x r Hs IH Hx]; intros [|n]; simpl;
    try constructor; auto.
  apply Forall_forall. intros y Hy. apply firstn_incl in Hy.
  rewrite Forall_forall in Hx. auto.
Qed.

Lemma filter_sorted {A} (R : A -> A -> Prop) f l :
  StronglySorted R l -> StronglySorted R (filter f l).
Proof.
  induction 1 as [|x r Hs IH Hx]; simpl; [constructor|].
  destruct (f x); [|exact IH].
  constructor; [exact IH|].
  apply Forall_forall. intros y Hy. apply filter_In in Hy.
  rewrite Forall_forall in Hx. apply Hx, Hy.
Qed.

Lemma map_sorted {A B} (R : B -> B -> Prop) (f : A -> B) l :
  StronglySorted (fun a b => R (f a) (f b)) l -> StronglySorted R (map f l).
Proof.
  induction 1 as [|x r Hs IH Hx]; simpl; constructor; auto.
  apply Forall_forall. intros y Hy. apply in_map_iff in Hy.
  destruct Hy as [a [<- Ha]]. rewrite Forall_forall in Hx. auto.
Qed.

Lemma filterMap_In {A B} (f : A -> option B) l y :
  In y (filterMap f l) <-> exists x, In x l /\ f x = Some y.
Proof.
  induction l as [|a r IH]; simpl.
  - split; [tauto|intros [x [[] _]]].
  - destruct (f a) eqn:E; simpl; rewrite IH; split.
    + intros [<-|[x [Hx Hf]]]; eauto.
    + intros [x [[<-|Hx] Hf]]; [left; congruence|right; eauto].
    + intros [x [Hx Hf]]; eauto.
    + intros [x [[<-|Hx] Hf]]; [congruence|eauto].
Qed.

Lemma memStr_In x l : memStr x l = true <-> In x l.
Proof.
  unfold memStr. rewrite existsb_exists. unfold Str.eqb. split.
  - intros [y [Hy E]]. destruct (list_eq_dec ascii_dec x y); congruence.
  - intros H. exists x. split; [exact H|].
    destruct (list_eq_dec ascii_dec x x); congruence.
Qed.

(** What the raw query returns: rows of chunks that have an embedding (and
    a document id of the filter), in ascending distance, at most [topK]. *)
Lemma queryRaw_spec q ids topK db :
  let raws := queryRaw svc q ids topK db in
  length raws <= topK
  /\ StronglySorted (fun a b => (distance a <= distance b)%Q) raws
  /\ Forall (fun raw =>
               exists row e,
                 In row (Db.chunks db)
                 /\ DocumentChunk.embedding row = Some e
                 /\ raw_id raw = DocumentChunk.id row
                 /\ raw_documentId raw = DocumentChunk.documentId row
                 /\ distance raw = cosine_distance svc e q
                 /\ similarity raw = (1 - cosine_distance svc e q)%Q
                 /\ (forall l, ids = Some l -> In (raw_documentId raw) l))
            raws.
Proof.
  unfold queryRaw. repeat split.
  - apply firstn_le_length.
  - apply firstn_sorted, orderBy_sorted.
  - apply Forall_forall. intros raw H.
    apply firstn_incl, orderBy_In, filterMap_In in H.
    destruct H as [row [Hrow Hsel]]. unfold selectRow in Hsel.
    destruct (DocumentChunk.embedding row) as [e|] eqn:Ee; [|discriminate].
    exists row, e.
    destruct ids as [l|].
    + destruct (memStr _ l) eqn:Em; [|discriminate].
      injection Hsel as <-. simpl. repeat split; auto.
      intros l' [= <-]. now apply memStr_In.
    + injection Hsel as <-. simpl. repeat split; auto. discriminate.
Qed.

Definition thresholdOf (options : RetrievalOptions.t) : Q :=
  match RetrievalOptions.threshold options with
  | Some t => t
  | None => (7 # 10)%Q
  end.

Definition topKOf (options : RetrievalOptions.t) : nat :=
  match RetrievalOptions.topK options with Some k => k | None => 5 end.

(** The shape of a successful [search]: the query embedding was obtained
    and the results are the rows of one raw query that meet the threshold. *)
Lemma search_Ok query options db results :
  search svc query options db = Ok results ->
  exists r ids,
    embed svc query = Ok r
    /\ (forall l, RetrievalOptions.documentIds options = Some l -> l <> [] ->
                  ids = Some l)
    /\ results
       = map toSearchResult
           (filter (fun raw => Qle_bool (thresholdOf options) (similarity raw))
                   (queryRaw svc (embedding r) ids (topKOf options) db)).
Proof.
  unfold search, thresholdOf, topKOf.
  destruct (embed svc query) as [r|e]; simpl; [|discriminate].
  intros [= <-].
  destruct (RetrievalOptions.documentIds options) as [[|i ids]|].
  - exists r, None.
    split; [reflexivity|split; [intros l [= <-] Hne; congruence|reflexivity]].
  - exists r, (Some (i :: ids)).
    split; [reflexivity|split; [intros l [= <-] Hne; reflexivity|reflexivity]].
  - exists r, None.
    split; [reflexivity|split; [intros l [=]|reflexivity]].
Qed.

(** C1. Every result that [search] returns has a score greater than or
    equal to the threshold, which is 0.7 when the options give none; a
    candidate row of the raw query whose similarity is below the threshold
    is not among the results. *)
Theorem search_excludes_below_threshold :
  forall (query : str) (options : RetrievalOptions.t) (db : Db.t)
         (results : list SearchResult.t),
    search svc query options db = Ok results ->
    Forall (fun r => (thresholdOf options <= SearchResult.score r)%Q) results
    /\ (RetrievalOptions.threshold options = None ->
        Forall (fun r => (7 # 10 <= SearchResult.score r)%Q) results)
    /\ (forall raw : RawSearchResult,
           (similarity raw < thresholdOf options)%Q ->
           ~ In (toSearchResult raw) results).
Proof.
  intros query options db results H.
  destruct (search_Ok _ _ _ _ H) as [r [ids [_ [_ ->]]]].
  assert (HF : Forall (fun r => (thresholdOf options <= SearchResult.score r)%Q)
                 (map toSearchResult
                    (filter (fun raw => Qle_bool (thresholdOf options) (similarity raw))
                            (queryRaw svc (embedding r) ids (topKOf options) db)))).
  { apply Forall_forall. intros x Hx. apply in_map_iff in Hx.
    destruct Hx as [raw [<- Hraw]]. apply filter_In in Hraw.
    destruct Hraw as [_ Hle]. apply Qle_bool_iff in Hle. exact Hle. }
  split; [exact HF|]. split.
  - intros E. eapply Forall_impl; [|exact HF].
    intros x Hx. unfold thresholdOf in Hx. now rewrite E in Hx.
  - intros raw Hlt Hin. rewrite Forall_forall in HF.
    specialize (HF _ Hin). simpl in HF. lra.
Qed.

(** C2. [search] returns at most [topK] results (5 when the options give
    none), in descending score, which is ascending cosine distance of the
    rows they come from to the query embedding; and when [documentIds] is a
    non-empty list, the document id of every result is in that list. *)
Theorem search_topK_ordered_filtered :
  forall (query : str) (options : RetrievalOptions.t) (db : Db.t)
         (results : list SearchResult.t),
    search svc query options db = Ok results ->
    length results <= topKOf options
    /\ (RetrievalOptions.topK options = None -> length results <= 5)
    /\ StronglySorted
         (fun a b => (SearchResult.score b <= SearchResult.score a)%Q) results
    /\ (exists (r : EmbeddingResult) (raws : list RawSearchResult),
           embed svc query = Ok r
           /\ results = map toSearchResult raws
           /\ StronglySorted (fun a b => (distance a <= distance b)%Q) raws
           /\ Forall (fun raw =>
                        exists row e,
                          In row (Db.chunks db)
                          /\ DocumentChunk.embedding row = Some e
                          /\ raw_id raw = DocumentChunk.id row
                          /\ distance raw = cosine_distance svc e (embedding r)
                          /\ similarity raw = (1 - distance raw)%Q)
                     raws)
    /\ (forall ids : list str,
           RetrievalOptions.documentIds options = Some ids -> ids <> [] ->
           Forall (fun r => In (SearchResult.documentId r) ids) results).
Proof.
  intros query options db results H.
  destruct (search_Ok _ _ _ _ H) as [r [ids [Er [Hids ->]]]].
  destruct (queryRaw_spec (embedding r) ids (topKOf options) db)
    as [Hlen [Hsorted Hrows]].
  set (raws := queryRaw svc (embedding r) ids (topKOf options) db) in *.
  set (kept := filter (fun raw => Qle_bool (thresholdOf options) (similarity raw)) raws).
  assert (Hkept : forall raw, In raw kept -> In raw raws).
  { intros raw Hin. apply filter_In in Hin. tauto. }
  assert (Hklen : length kept <= topKOf options).
  { pose proof (filter_length_le (fun raw => Qle_bool (thresholdOf options) (similarity raw)) raws).
    fold kept in H0. lia. }
  assert (Hksorted : StronglySorted (fun a b => (distance a <= distance b)%Q) kept)
    by now apply filter_sorted.
  rewrite Forall_forall in Hrows.
  split; [now rewrite length_map|]. split.
  { intros E. rewrite length_map. unfold topKOf in Hklen. now rewrite E in Hklen. }
  split.
  { apply map_sorted.
    assert (Hsim : forall raw, In raw kept -> similarity raw = (1 - distance raw)%Q).
    { intros raw Hin. destruct (Hrows raw (Hkept raw Hin))
        as [row [e [_ [_ [_ [_ [Hd [Hs _]]]]]]]]. now rewrite Hs, Hd. }
    clear - Hksorted Hsim.
    induction Hksorted as [|x l Hs IH Hx]; constructor.
    - apply IH. intros raw Hin. apply Hsim. now right.
    - apply Forall_forall. intros y Hy. rewrite Forall_forall in Hx.
      specialize (Hx y Hy). simpl.
      rewrite (Hsim x (or_introl eq_refl)), (Hsim y (or_intror Hy)). lra. }
  split.
  { exists r, kept. repeat split; auto.
    apply Forall_forall. intros raw Hin.
    destruct (Hrows raw (Hkept raw Hin))
      as [row [e [Hr [He [Hid [_ [Hd [Hs _]]]]]]]].
    exists row, e. repeat split; auto. now rewrite Hs, Hd. }
  intros l El Hne. specialize (Hids l El Hne). subst ids.
  apply Forall_forall. intros x Hx. apply in_map_iff in Hx.
  destruct Hx as [raw [<- Hin]]. simpl.
  destruct (Hrows raw (Hkept raw Hin))
    as [row [e [_ [_ [_ [_ [_ [_ Hmem]]]]]]]].
  now apply Hmem.
Qed.

End RetrievalFacts.

(** A small vector store to run [search] on: three chunks of two documents
    with embeddings at similarity 1, 4/5 and 0 to the query, and one chunk
    whose embedding has not been computed yet. *)
Definition demoServices : Retrieval.Services :=
  {| Retrieval.embeddings_create := fun _ _ => Ok ([[1; 0]%Q], 2);
     Retrieval.cosine_distance :=
       fun a b =>
         (1 - fold_right Qplus 0 (map (fun p => fst p * snd p) (combine a b)))%Q |}.

Definition demoChunk (id doc : str) (e : option (list Q)) : DocumentChunk.t :=
  {| DocumentChunk.id := id;
     DocumentChunk.documentId := doc;
     DocumentChunk.content := id;
     DocumentChunk.tokenCount := Some 1;
     DocumentChunk.embedding := e;
     DocumentChunk.metadata := None |}.

Definition demoDb : Db.t :=
  {| Db.documents := [];
     Db.chunks :=
       [ demoChunk $"c1" $"d1" (Some [0; 1]%Q);
         demoChunk $"c2" $"d2" (Some [4 # 5; 3 # 5]%Q);
         demoChunk $"c3" $"d1" None;
         demoChunk $"c4" $"d1" (Some [1; 0]%Q) ];
     Db.conversations := [];
     Db.messages := [];
     Db.created := 4 |}.

Example search_demo :
  option_map (map SearchResult.id)
    (match Retrieval.search demoServices $"q" RetrievalOptions.none demoDb with
     | Ok l => Some l
     | Throw _ => None
     end)
  = Some [$"c4"; $"c2"].
Proof. reflexivity. Qed.

Lemma search_excludes_below_threshold_witness :
  exists results,
    Retrieval.search demoServices $"q" RetrievalOptions.none demoDb = Ok results
    /\ Forall (fun r => (thresholdOf RetrievalOptions.none <= SearchResult.score r)%Q)
              results
    /\ (RetrievalOptions.threshold RetrievalOptions.none = None ->
        Forall (fun r => (7 # 10 <= SearchResult.score r)%Q) results)
    /\ (forall raw : Retrieval.RawSearchResult,
           (Retrieval.similarity raw < thresholdOf RetrievalOptions.none)%Q ->
           ~ In (Retrieval.toSearchResult raw) results).
Proof.
  eexists. split; [reflexivity|].
  apply (search_excludes_below_threshold demoServices $"q" RetrievalOptions.none demoDb).
  reflexivity.
Defined.

Definition demoOptions : RetrievalOptions.t :=
  {| RetrievalOptions.topK := Some 1;
     RetrievalOptions.threshold := Some (1 # 2)%Q;
     RetrievalOptions.documentIds := Some [$"d2"] |}.

Lemma search_topK_ordered_filtered_witness :
  exists results,
    Retrieval.search demoServices $"q" demoOptions demoDb = Ok results
    /\ map SearchResult.id results = [$"c2"]
    /\ length results <= topKOf demoOptions
    /\ StronglySorted
         (fun a b => (SearchResult.score b <= SearchResult.score a)%Q) results
    /\ Forall (fun r => In (SearchResult.documentId r) [$"d2"]) results.
Proof.
  eexists. split; [reflexivity|]. split; [reflexivity|].
  destruct (search_topK_ordered_filtered demoServices $"q" demoOptions demoDb _ eq_refl)
    as [Hlen [_ [Hsorted [_ Hids]]]].
  split; [exact Hlen|]. split; [exact Hsorted|].
  apply Hids; [reflexivity|discriminate].
Defined.


(** ** The central error handler *)
Section ErrorHandlerFacts.
Import ErrorMiddleware.

(** An error whose [statusCode] is [0], as [new ApiError("teapot", 0, "E0")]
    builds it. *)
Definition zeroStatusError : AppError :=
  ApiError $"teapot" (Some 0%Z) (Some $"E0").

(** C6, as stated, fails: the error [zeroStatusError] carries the status code
    0 and the code [E0], and the handler answers it with 500 and
    [INTERNAL_ERROR]. *)
Lemma errorHandler_statusCode_counterexample :
  ~ (forall (NODE_ENV : option str) (err : AppError) (n : Z),
        isZodError err = false ->
        statusCode err = Some n ->
        Wire.answerOf (errorHandler NODE_ENV err)
        = Express.Sent n (Some (Wire.errorBody (errorHandler NODE_ENV err)))
        /\ errorCode (errorHandler NODE_ENV err) = code err).
Proof.
  intros H.
  destruct (H None zeroStatusError 0%Z eq_refl eq_refl) as [H1 _].
  discriminate H1.
Qed.

(** Nor is every non-zero status code answered as it is: [res.status]
    refuses 42 and the handler throws, and the status 204 goes out without
    the body, so without the code. *)
Example errorHandler_status_42 :
  Wire.answerOf (errorHandler None (ApiError $"teapot" (Some 42%Z) (Some $"E42")))
  = Express.RangeError.
Proof. reflexivity. Qed.

Example errorHandler_status_204 :
  Wire.answerOf (errorHandler None (ApiError $"teapot" (Some 204%Z) (Some $"E204")))
  = Express.Sent 204%Z None.
Proof. reflexivity. Qed.

Example errorHandler_status_404 :
  Wire.answerOf (errorHandler None (ApiError $"gone" (Some 404%Z) (Some $"E404")))
  = Express.Sent 404%Z
      (Some (JObj [ ($"success", JBool false);
                    ($"error", JObj [ ($"message", JStr $"gone");
                                      ($"code", JStr $"E404") ]) ])).
Proof. reflexivity. Qed.

(** C6, amended. The handler gives Express a body with [success: false] in
    every case, and what Express sends for it is this. A schema validation
    error is answered with 400 and [VALIDATION_ERROR]. Any other error with
    a non-zero [statusCode] [n] gets a body with its own message and code,
    and the status [n]: outside 100..999 [res.status] throws a [RangeError]
    and the handler sends nothing; from 100 to 199 the status goes out as an
    interim response without the body; 204, 205 and 304 go out without the
    body; every other status goes out with the body. An error with no
    [statusCode], or with the [statusCode] 0, is answered with 500 and
    [INTERNAL_ERROR], the message being [Internal server error] when
    [NODE_ENV] is [production] and the error's own message otherwise. *)
Theorem errorHandler_cases :
  forall (NODE_ENV : option str) (err : AppError),
    let r := errorHandler NODE_ENV err in
    let answer := Wire.answerOf r in
    success r = false
    /\ (isZodError err = true ->
        answer = Express.Sent 400%Z (Some (Wire.errorBody r))
        /\ errorCode r = Some $"VALIDATION_ERROR")
    /\ (isZodError err = false ->
        forall n, statusCode err = Some n -> n <> 0%Z ->
                  errorCode r = code err
                  /\ errorMessage r = message err
                  /\ ((n < 100 \/ 999 < n)%Z -> answer = Express.RangeError)
                  /\ ((100 <= n <= 199)%Z -> answer = Express.Interim n)
                  /\ (n = 204%Z \/ n = 205%Z \/ n = 304%Z ->
                      answer = Express.Sent n None)
                  /\ ((200 <= n <= 999)%Z ->
                      n <> 204%Z -> n <> 205%Z -> n <> 304%Z ->
                      answer = Express.Sent n (Some (Wire.errorBody r))))
    /\ (isZodError err = false ->
        statusCode err = None \/ statusCode err = Some 0%Z ->
        answer = Express.Sent 500%Z (Some (Wire.errorBody r))
        /\ errorCode r = Some $"INTERNAL_ERROR"
        /\ (NODE_ENV = Some $"production" ->
            errorMessage r = $"Internal server error")
        /\ (NODE_ENV <> Some $"production" -> errorMessage r = message err)).
Proof.
  intros NODE_ENV err r answer. subst answer r. unfold errorHandler.
  destruct (isZodError err) eqn:Ez.
  - repeat split; try discriminate; reflexivity.
  - split; [destruct (truthyNumber (statusCode err)); reflexivity|].
    split; [discriminate|]. split.
    + intros _ n En Hn. rewrite En. simpl truthyNumber.
      destruct (n =? 0)%Z eqn:E0; [apply Z.eqb_eq in E0; contradiction|].
      cbn [negb]. split; [reflexivity|]. split; [reflexivity|].
      unfold Wire.answerOf, Express.respond, Express.accepts, Express.bodiless.
      cbn [status sendError].
      repeat split.
      * intros Hr.
        destruct (100 <=? n)%Z eqn:E1; destruct (n <=? 999)%Z eqn:E2;
          try reflexivity; lia.
      * intros Hr.
        replace (100 <=? n)%Z with true by lia.
        replace (n <=? 999)%Z with true by lia.
        replace (n <? 200)%Z with true by lia. reflexivity.
      * intros Hr.
        replace (100 <=? n)%Z with true by lia.
        replace (n <=? 999)%Z with true by lia.
        replace (n <? 200)%Z with false by lia.
        destruct Hr as [-> | [-> | ->]]; reflexivity.
      * intros Hr H204 H205 H304.
        replace (100 <=? n)%Z with true by lia.
        replace (n <=? 999)%Z with true by lia.
        replace (n <? 200)%Z with false by lia.
        replace (n =? 204)%Z with false by lia.
        replace (n =? 205)%Z with false by lia.
        replace (n =? 304)%Z with false by lia.
        reflexivity.
    + intros _ Hs.
      assert (Et : truthyNumber (statusCode err) = false)
        by (destruct Hs as [-> | ->]; reflexivity).
      rewrite Et. simpl. repeat split.
      * intros ->. now rewrite Str_eqb_refl.
      * intros Hne. destruct NODE_ENV as [e|]; [|reflexivity].
        destruct (Str.eqb e $"production") eqn:Ee; [|reflexivity].
        apply Str_eqb_eq in Ee. congruence.
Qed.

End ErrorHandlerFacts.

(** ** The chat service is scoped to the user *)
Section ChatServiceFacts.
Import ChatService.

Lemma filter_all_false {A} (f : A -> bool) l :
  (forall x, In x l -> f x = false) -> filter f l = [].
Proof.
  induction l as [|a r IH]; simpl; intros H; [reflexivity|].
  rewrite (H a (or_introl eq_refl)). apply IH. intros x Hx. apply H. now right.
Qed.

Lemma filter_all_true {A} (f : A -> bool) l :
  (forall x, In x l -> f x = true) -> filter f l = l.
Proof.
  induction l as [|a r IH]; simpl; intros H; [reflexivity|].
  rewrite (H a (or_introl eq_refl)). f_equal. apply IH.
  intros x Hx. apply H. now right.
Qed.

Lemma map_id_on {A} (f : A -> A) l :
  (forall x, In x l -> f x = x) -> map f l = l.
Proof.
  induction l as [|a r IH]; simpl; intros H; [reflexivity|].
  rewrite (H a (or_introl eq_refl)). f_equal. apply IH.
  intros x Hx. apply H. now right.
Qed.

Lemma find_all_false {A} (f : A -> bool) l :
  (forall x, In x l -> f x = false) -> find f l = None.
Proof.
  induction l as [|a r IH]; simpl; intros H; [reflexivity|].
  rewrite (H a (or_introl eq_refl)). apply IH. intros x Hx. apply H. now right.
Qed.

Lemma ownedBy_true conversationId userId c :
  ownedBy conversationId userId c = true
  <-> Conversation.id c = conversationId /\ Conversation.userId c = userId.
Proof.
  unfold ownedBy. rewrite andb_true_iff, !Str_eqb_eq. tauto.
Qed.

(** The conversations that do not belong to [userId]. *)
Definition othersOf (userId : str) (db : Db.t) : list Conversation.t :=
  filter (fun c => negb (Str.eqb (Conversation.userId c) userId))
         (Db.conversations db).

Lemma filter_filter_negb_other {A} (f g : A -> bool) l :
  (forall x, g x = true -> f x = true) ->
  filter g (filter f l) = filter g l.
Proof.
  intros H. induction l as [|a r IH]; simpl; [reflexivity|].
  destruct (f a) eqn:Ef; simpl.
  - destruct (g a); now rewrite IH.
  - destruct (g a) eqn:Eg; [|exact IH]. rewrite (H a Eg) in Ef. discriminate.
Qed.

Lemma filter_map_unchanged {A} (g : A -> bool) (h : A -> A) l :
  (forall x, g x = true -> h x = x) ->
  (forall x, g (h x) = g x) ->
  filter g (map h l) = filter g l.
Proof.
  intros H1 H2. induction l as [|a r IH]; simpl; [reflexivity|].
  rewrite H2. destruct (g a) eqn:Eg; rewrite IH; [|reflexivity].
  now rewrite (H1 a Eg).
Qed.

(** C8. When every conversation with the id [conversationId] belongs to a
    user other than [userId], then for [userId] [getConversation] returns
    [null], and [deleteConversation] and [updateConversationSettings] match
    zero rows and leave the whole database as it was. *)
Theorem chatService_scoped_to_user :
  forall (now : nat) (conversationId userId : str)
         (settings : ConversationSettings.t) (db : Db.t),
    (forall c, In c (Db.conversations db) ->
               Conversation.id c = conversationId ->
               Conversation.userId c <> userId) ->
    getConversation conversationId userId db = None
    /\ deleteConversation conversationId userId db = (0, db)
    /\ updateConversationSettings now conversationId userId settings db = (0, db).
Proof.
  intros now conversationId userId settings db H.
  assert (Hno : forall c, In c (Db.conversations db) ->
                          ownedBy conversationId userId c = false).
  { intros c Hc. destruct (ownedBy conversationId userId c) eqn:E; [|reflexivity].
    apply ownedBy_true in E. destruct E as [E1 E2]. now destruct (H c Hc E1). }
  unfold getConversation, deleteConversation, updateConversationSettings.
  rewrite (find_all_false _ _ Hno), (filter_all_false _ _ Hno).
  split; [reflexivity|]. simpl.
  rewrite (filter_all_true (fun c => negb (ownedBy conversationId userId c))).
  2:{ intros c Hc. now rewrite (Hno c Hc). }
  rewrite (filter_all_true (fun m => true)) by reflexivity.
  rewrite (map_id_on _ (Db.conversations db)).
  2:{ intros c Hc. now rewrite (Hno c Hc). }
  destruct db; split; reflexivity.
Qed.

(** Reads and writes for [userId] never return or change a conversation of
    another user, whatever the conversation id is. *)
Lemma chatService_other_users_untouched :
  forall (now : nat) (conversationId userId : str)
         (settings : ConversationSettings.t) (db : Db.t),
    (forall c ms, getConversation conversationId userId db = Some (c, ms) ->
                  Conversation.userId c = userId /\ In c (Db.conversations db))
    /\ Forall (fun cm => Conversation.userId (fst cm) = userId)
              (getConversations userId db)
    /\ othersOf userId (snd (deleteConversation conversationId userId db))
       = othersOf userId db
    /\ othersOf userId
         (snd (updateConversationSettings now conversationId userId settings db))
       = othersOf userId db.
Proof.
  intros. repeat split.
  - unfold getConversation in H.
    destruct (find _ _) as [c'|] eqn:E; [|discriminate].
    injection H as <- _. apply find_some in E. destruct E as [_ E].
    now apply ownedBy_true in E.
  - unfold getConversation in H.
    destruct (find _ _) as [c'|] eqn:E; [|discriminate].
    injection H as <- _. apply find_some in E. tauto.
  - unfold getConversations. apply Forall_forall. intros [c ms] Hin.
    apply in_map_iff in Hin. destruct Hin as [c' [[= <- _] Hc]].
    apply orderBy_In, filter_In in Hc. simpl. now apply Str_eqb_eq.
  - unfold othersOf, deleteConversation. simpl.
    apply filter_filter_negb_other. intros c Hc.
    unfold ownedBy. apply negb_true_iff in Hc. rewrite Hc.
    now rewrite andb_false_r.
  - unfold othersOf, updateConversationSettings. simpl.
    apply filter_map_unchanged.
    + intros c Hc. unfold ownedBy. apply negb_true_iff in Hc.
      now rewrite Hc, andb_false_r.
    + intros c. destruct (ownedBy conversationId userId c); reflexivity.
Qed.

End ChatServiceFacts.

(** A database with one conversation, owned by [alice]. *)
Definition aliceDb : Db.t :=
  {| Db.documents := [];
     Db.chunks := [];
     Db.conversations :=
       [ {| Conversation.id := $"conv1";
            Conversation.userId := $"alice";
            Conversation.title := Some $"New Chat";
            Conversation.settings := Some DEFAULT_SETTINGS;
            Conversation.createdAt := 1;
            Conversation.updatedAt := 2 |} ];
     Db.messages :=
       [ {| Message.id := $"m1";
            Message.conversationId := $"conv1";
            Message.role := user;
            Message.content := $"hello";
            Message.sources := None;
            Message.createdAt := 2 |} ];
     Db.created := 2 |}.

Lemma chatService_scoped_to_user_witness :
  ChatService.getConversation $"conv1" $"bob" aliceDb = None
  /\ ChatService.deleteConversation $"conv1" $"bob" aliceDb = (0, aliceDb)
  /\ ChatService.updateConversationSettings 9 $"conv1" $"bob" DEFAULT_SETTINGS aliceDb
     = (0, aliceDb).
Proof.
  apply (chatService_scoped_to_user 9 $"conv1" $"bob" DEFAULT_SETTINGS aliceDb).
  intros c [<-|[]] _. discriminate.
Defined.

Example chatService_owner_can_delete :
  ChatService.deleteConversation $"conv1" $"alice" aliceDb
  = (1, {| Db.documents := []; Db.chunks := []; Db.conversations := [];
           Db.messages := []; Db.created := 2 |}).
Proof. reflexivity. Qed.

(** ** The client chat store *)
Section ChatStoreFacts.
Import ChatStore.

Lemma appendToMessage_conversations cid mid chunk s :
  conversations (appendToMessage cid mid chunk s)
  = map (fun c =>
           if Str.eqb (conv_id c) cid
           then setMessagesOf c
                  (map (fun m =>
                          if Str.eqb (id m) mid
                          then {| id := id m; role := role m;
                                  content := content m ++ chunk;
                                  sources := sources m;
                                  createdAt := createdAt m;
                                  isStreaming := isStreaming m |}
                          else m)
                       (messages c))
           else c)
        (conversations s).
Proof. reflexivity. Qed.

Lemma appendToMessage_compose cid mid a b s :
  appendToMessage cid mid b (appendToMessage cid mid a s)
  = appendToMessage cid mid (a ++ b) s.
Proof.
  unfold appendToMessage, setConversationsOf. simpl. f_equal.
  rewrite map_map. apply map_ext. intros c.
  destruct (Str.eqb (conv_id c) cid) eqn:Ec; simpl; rewrite Ec; [|reflexivity].
  unfold setMessagesOf. simpl. f_equal.
  rewrite map_map. apply map_ext. intros m.
  destruct (Str.eqb (id m) mid) eqn:Em; simpl; rewrite Em; [|reflexivity].
  now rewrite app_assoc.
Qed.

Lemma appendToMessage_empty cid mid s : appendToMessage cid mid [] s = s.
Proof.
  unfold appendToMessage, setConversationsOf.
  rewrite map_id_on; [now destruct s|].
  intros c _. destruct (Str.eqb (conv_id c) cid); [|reflexivity].
  unfold setMessagesOf. rewrite map_id_on; [now destruct c|].
  intros m _. destruct (Str.eqb (id m) mid); [|reflexivity].
  rewrite app_nil_r. now destruct m.
Qed.

(** C9. [appendToMessage(conversationId, messageId, chunk)] keeps every field
    of the store other than [conversations], keeps the number and the order
    of the conversations and of their messages, keeps every field of every
    conversation other than [messages], leaves a conversation with another
    id as it is, and in a conversation with that id keeps every field of
    every message other than [content]; the content of a message becomes
    its old content followed by [chunk] when the message has the id
    [messageId] (in a conversation with the id [conversationId]) and stays
    what it was otherwise. Appending chunks one after the other is appending
    their concatenation. *)
Theorem appendToMessage_frame :
  forall (conversationId messageId chunk : str) (s : ChatState),
    let s' := appendToMessage conversationId messageId chunk s in
    activeConversationId s' = activeConversationId s
    /\ isLoading s' = isLoading s
    /\ stateIsStreaming s' = stateIsStreaming s
    /\ error s' = error s
    /\ length (conversations s') = length (conversations s)
    /\ (forall i c,
           nth_error (conversations s) i = Some c ->
           exists c',
             nth_error (conversations s') i = Some c'
             /\ conv_id c' = conv_id c
             /\ title c' = title c
             /\ conv_createdAt c' = conv_createdAt c
             /\ updatedAt c' = updatedAt c
             /\ length (messages c') = length (messages c)
             /\ (conv_id c <> conversationId -> c' = c)
             /\ (forall j m,
                    nth_error (messages c) j = Some m ->
                    exists m',
                      nth_error (messages c') j = Some m'
                      /\ id m' = id m
                      /\ role m' = role m
                      /\ sources m' = sources m
                      /\ createdAt m' = createdAt m
                      /\ isStreaming m' = isStreaming m
                      /\ content m'
                         = (if Str.eqb (conv_id c) conversationId
                               && Str.eqb (id m) messageId
                            then content m ++ chunk
                            else content m)
                      /\ (id m <> messageId -> m' = m)))
    /\ (forall chunks : list str,
           fold_left (fun st ch => appendToMessage conversationId messageId ch st)
                     chunks s
           = appendToMessage conversationId messageId (concat chunks) s).
Proof.
  intros conversationId messageId chunk s s'. subst s'.
  repeat (split; [reflexivity|]).
  split; [simpl; now rewrite length_map|].
  split.
  - intros i c Hc. rewrite appendToMessage_conversations.
    rewrite nth_error_map, Hc. simpl.
    eexists. split; [reflexivity|].
    destruct (Str.eqb (conv_id c) conversationId) eqn:Ec; simpl.
    + repeat (split; [reflexivity|]).
      split; [now rewrite length_map|].
      split; [intros Hne; apply Str_eqb_eq in Ec; contradiction|].
      intros j m Hm. rewrite nth_error_map, Hm. simpl.
      eexists. split; [reflexivity|].
      destruct (Str.eqb (id m) messageId) eqn:Em; simpl.
      * repeat (split; [reflexivity|]).
        intros Hne. apply Str_eqb_eq in Em. contradiction.
      * repeat (split; [reflexivity|]). reflexivity.
    + repeat (split; [reflexivity|]).
      intros j m Hm. exists m. split; [exact Hm|].
      repeat (split; [reflexivity|]). reflexivity.
  - intros chunks. revert s.
    induction chunks as [|ch chunks IH]; intros s; simpl.
    + now rewrite appendToMessage_empty.
    + rewrite IH. apply appendToMessage_compose.
Qed.

End ChatStoreFacts.

(** ** The completion service: the prompt sent to the completion API *)
Section CompletionFacts.
Import Completion.

Variable svc : Retrieval.Services.
Variable openai : OpenAI.

(** The retrieval outcome of a call with [options]: the result of
    [retrievalService.search] when RAG is on, and no chunk when it is off. *)
Definition retrievalOutcome (userMessage : str) (options : CompletionOptions)
           (db : Db.t) : Result (list SearchResult.t) :=
  if defaulted (useRAG options) true
  then Retrieval.search svc userMessage
         {| RetrievalOptions.topK := Some (defaulted (topK options) 5);
            RetrievalOptions.threshold :=
              Some (defaulted (threshold options) (7 # 10)%Q);
            RetrievalOptions.documentIds := documentIds options |} db
  else Ok [].

(** The block of the context that lists the chunk of rank [i] (from 0). *)
Definition contextBlock (i : nat) (s : SearchResult.t) : str :=
  $"[" ++ Str.ofNat (i + 1) ++ $"] " ++ SearchResult.content s.

Definition contextHeader : str :=
  [Str.LF; Str.LF] ++ $"Relevant context from company documents:" ++ [Str.LF].

Lemma retrieve_outcome userMessage options db :
  retrieve svc userMessage (defaulted (useRAG options) true)
           (defaulted (topK options) 5)
           (defaulted (threshold options) (7 # 10)%Q)
           (documentIds options) db
  = (sources <- retrievalOutcome userMessage options db ;;
     Ok (sources,
         if 0 <? length sources
         then contextHeader
              ++ Str.join [Str.LF; Str.LF] (mapi (fun s i => contextBlock i s) sources)
         else [])).
Proof.
  unfold retrieve, retrievalOutcome.
  destruct (defaulted (useRAG options) true); [|reflexivity].
  destruct (Retrieval.search _ _ _ _) as [sources|e]; simpl; [|reflexivity].
  unfold contextHeader, contextBlock. simpl. now rewrite <- ?app_assoc.
Qed.

Lemma mapi_nth_error {A B} (f : A -> nat -> B) l i :
  nth_error (mapi f l) i = option_map (fun x => f x i) (nth_error l i).
Proof. unfold mapi. now rewrite mapiFrom_nth_error. Qed.

(** C4. When the retrieval outcome is the list [sources], [complete] and
    [stream] each send the completion API exactly one request, and the
    [messages] of both are the same array: first the system message, whose
    content is the system prompt followed by the context, then the
    conversation history in order, and last the user message. The context is
    empty when [sources] is empty; otherwise it is the header followed by one
    block per source, in retrieval order and separated by blank lines, the
    block of the source of rank [i] (from 0) being [[i+1] ] and its text. *)
Theorem completion_prompt_shape :
  forall (userMessage : str) (options : CompletionOptions) (db : Db.t)
         (sources : list SearchResult.t),
    retrievalOutcome userMessage options db = Ok sources ->
    let history := defaulted (conversationHistory options) [] in
    exists (request request' : ChatCompletionRequest) (context : str)
           (blocks : list str),
      fst (complete svc openai userMessage options db) = [request]
      /\ fst (stream svc openai userMessage options db) = [request']
      /\ stream_flag request = false /\ stream_flag request' = true
      /\ messages request' = messages request
      /\ messages request
         = {| role := system; content := SYSTEM_PROMPT ++ context |}
             :: history ++ [ {| role := user; content := userMessage |} ]
      /\ hd_error (messages request)
         = Some {| role := system; content := SYSTEM_PROMPT ++ context |}
      /\ last (messages request) {| role := system; content := [] |}
         = {| role := user; content := userMessage |}
      /\ (forall i, i < length history ->
                    nth_error (messages request) (S i) = nth_error history i)
      /\ length (messages request) = length history + 2
      /\ (sources = [] -> context = [])
      /\ (sources <> [] ->
          context = contextHeader ++ Str.join [Str.LF; Str.LF] blocks)
      /\ length blocks = length sources
      /\ (forall i s, nth_error sources i = Some s ->
                      nth_error blocks i
                      = Some ($"[" ++ Str.ofNat (i + 1) ++ $"] "
                               ++ SearchResult.content s)).
Proof.
  intros userMessage options db sources Hs history.
  unfold complete, stream. rewrite retrieve_outcome, Hs. cbn [bind fst].
  set (blocks := mapi (fun s i => contextBlock i s) sources).
  set (context := if 0 <? length sources
                  then contextHeader ++ Str.join [Str.LF; Str.LF] blocks
                  else []).
  assert (Emap : map (fun msg => {| role := role msg; content := content msg |})
                     history = history).
  { apply map_id_on. now intros [r c] _. }
  eexists _, _, context, blocks.
  split; [reflexivity|]. split; [reflexivity|].
  cbn [stream_flag messages].
  split; [reflexivity|]. split; [reflexivity|]. split; [reflexivity|].
  unfold buildMessages. fold history. rewrite Emap. cbn [app].
  split; [reflexivity|]. split; [reflexivity|].
  split; [now rewrite app_comm_cons, last_last|].
  split; [intros i Hi; cbn [nth_error]; now rewrite nth_error_app1|].
  split; [cbn [length]; rewrite length_app; cbn [length]; lia|].
  split; [intros ->; reflexivity|].
  split.
  { intros Hne. subst context. destruct sources; [congruence|reflexivity]. }
  split; [subst blocks; unfold mapi; now rewrite mapiFrom_length|].
  intros i s Hi. subst blocks. rewrite mapi_nth_error, Hi. reflexivity.
Qed.

(** When the retrieval fails, neither function sends a request. *)
Lemma completion_retrieval_failure :
  forall (userMessage : str) (options : CompletionOptions) (db : Db.t)
         (e : AppError),
    retrievalOutcome userMessage options db = Throw e ->
    complete svc openai userMessage options db = ([], Throw e)
    /\ stream svc openai userMessage options db = ([], ([], Some e)).
Proof.
  intros userMessage options db e He.
  unfold complete, stream. now rewrite retrieve_outcome, He.
Qed.

End CompletionFacts.

(** A completion API that answers every request with one fixed choice, and
    every streaming request with three deltas. *)
Definition demoOpenAI : Completion.OpenAI :=
  {| Completion.create :=
       fun _ => Ok {| Completion.choices := [Some $"Hi."];
                      Completion.response_model := Completion.CHAT_MODEL;
                      Completion.response_usage := None |};
     Completion.create_stream :=
       fun _ => Ok ([Some $"Hi"; None; Some $"."], None) |}.

Definition demoCompletionOptions : Completion.CompletionOptions :=
  {| Completion.conversationHistory :=
       Some [ {| Completion.role := user; Completion.content := $"hello" |};
              {| Completion.role := assistant; Completion.content := $"hi" |} ];
     Completion.useRAG := None;
     Completion.topK := None;
     Completion.threshold := None;
     Completion.documentIds := None |}.

Example completion_demo :
  map (fun r => map Completion.content (tl (Completion.messages r)))
      (fst (Completion.complete demoServices demoOpenAI $"q" demoCompletionOptions demoDb))
  = [[$"hello"; $"hi"; $"q"]]
  /\ map (fun chunk =>
            match chunk with
            | Completion.SourcesChunk sources => map SearchResult.id sources
            | Completion.ContentChunk content => [content]
            | Completion.DoneChunk sources => map SearchResult.id sources
            end)
         (fst (snd (Completion.stream demoServices demoOpenAI $"q"
                      demoCompletionOptions demoDb)))
     = [[$"c4"; $"c2"]; [$"Hi"]; [$"."]; [$"c4"; $"c2"]].
Proof. split; reflexivity. Qed.

Lemma completion_prompt_shape_witness :
  exists (sources : list SearchResult.t) (request : Completion.ChatCompletionRequest),
    retrievalOutcome demoServices $"q" demoCompletionOptions demoDb = Ok sources
    /\ map SearchResult.id sources = [$"c4"; $"c2"]
    /\ fst (Completion.complete demoServices demoOpenAI $"q" demoCompletionOptions demoDb)
       = [request]
    /\ map Completion.content (Completion.messages request)
       = [ Completion.SYSTEM_PROMPT
             ++ contextHeader
             ++ $"[1] c4" ++ [Str.LF; Str.LF] ++ $"[2] c2";
           $"hello"; $"hi"; $"q" ].
Proof.
  destruct (completion_prompt_shape demoServices demoOpenAI $"q"
              demoCompletionOptions demoDb _ eq_refl)
    as [request [request' [context [blocks [H1 H]]]]].
  eexists _, request. split; [reflexivity|]. split; [reflexivity|].
  split; [exact H1|].
  injection H1 as <-. reflexivity.
Defined.

(** ** JSON: parsing the text of a value gives the value back *)
Section JSONFacts.
Import JSON.

(** The next character does not continue a run of digits. *)
Definition noDigitAhead (rest : str) : Prop :=
  match rest with
  | [] => True
  | c :: _ => digitCons c = None
  end.

Lemma parseDigits_uintChars (u : Decimal.uint) (rest : str) :
  noDigitAhead rest -> parseDigits (Str.uintChars u ++ rest) = (u, rest).
Proof.
  intros H. induction u; simpl; try (rewrite IHu; reflexivity).
  destruct rest as [|c r]; simpl in *; [reflexivity|now rewrite H].
Qed.

Lemma uintChars_nonempty (u : Decimal.uint) :
  u <> Decimal.Nil -> Str.uintChars u <> [].
Proof. destruct u; simpl; congruence. Qed.

Lemma unorm_fixed_no_leading_zero (u : Decimal.uint) :
  Decimal.unorm u = u -> leadingZero u = false.
Proof.
  destruct u as [|r| | | | | | | | | ]; try reflexivity.
  simpl. intros H. destruct (isNil r) eqn:En; [reflexivity|]. exfalso.
  assert (1 <= Decimal.nb_digits r)
    by (destruct r; simpl in *; try discriminate; lia).
  apply (f_equal Decimal.nb_digits) in H. unfold Decimal.unorm in H.
  simpl Decimal.nzhead in H.
  pose proof (DecimalFacts.nb_digits_nzhead r) as L.
  destruct (Decimal.nzhead r); simpl in H, L; lia.
Qed.

Lemma to_uint_no_leading_zero (p : positive) :
  leadingZero (Pos.to_uint p) = false.
Proof.
  apply unorm_fixed_no_leading_zero.
  pose proof (DecimalPos.Unsigned.to_of (Pos.to_uint p)) as H.
  rewrite DecimalPos.Unsigned.of_to in H. symmetry. exact H.
Qed.

Lemma to_uint_not_nil (p : positive) : isNil (Pos.to_uint p) = false.
Proof.
  pose proof (DecimalPos.Unsigned.to_uint_nonnil p).
  destruct (Pos.to_uint p); simpl; congruence.
Qed.

(** The next character does not continue a number. *)
Definition numberEnds (rest : str) : Prop :=
  match rest with
  | [] => True
  | c :: _ =>
      digitCons c = None
      /\ Ascii.eqb c "."%char = false
      /\ Ascii.eqb c "e"%char = false
      /\ Ascii.eqb c "E"%char = false
  end.

Lemma numberEnds_noDigit rest : numberEnds rest -> noDigitAhead rest.
Proof. destruct rest; simpl; tauto. Qed.

Lemma uintChars_head_digit (u : Decimal.uint) c r :
  Str.uintChars u = c :: r ->
  digitCons c <> None /\ Ascii.eqb c "-"%char = false
  /\ Ascii.eqb c "."%char = false /\ Ascii.eqb c "e"%char = false
  /\ Ascii.eqb c "E"%char = false /\ Ascii.eqb c "+"%char = false.
Proof.
  destruct u; simpl; intros [= <- _]; try discriminate;
    repeat split; discriminate.
Qed.

Lemma parseExponent_none rest :
  numberEnds rest -> parseExponent rest = Some (0%Z, rest).
Proof.
  destruct rest as [|c r]; simpl; [reflexivity|].
  intros [_ [_ [-> ->]]]. reflexivity.
Qed.

Lemma parseInt_sign (z : Z) :
  exists (negative : bool) (u : Decimal.uint),
    intChars z = (if negative then ["-"%char] else []) ++ Str.uintChars u
    /\ isNil u = false /\ leadingZero u = false
    /\ z = if negative then (- Z.of_uint u)%Z else Z.of_uint u.
Proof.
  unfold intChars. pose proof (DecimalZ.of_to z) as H.
  destruct z as [|p|p]; simpl in *.
  - exists false, Decimal.zero. repeat split.
  - exists false, (Pos.to_uint p). repeat split;
      auto using to_uint_not_nil, to_uint_no_leading_zero.
  - exists true, (Pos.to_uint p). repeat split;
      auto using to_uint_not_nil, to_uint_no_leading_zero.
Qed.

Lemma nonNil_head (u : Decimal.uint) :
  isNil u = false -> exists c r, Str.uintChars u = c :: r.
Proof. destruct u; simpl; try discriminate; eauto. Qed.

Local Arguments JSON.parseDigits s : simpl never.

Lemma parseExponent_some (e : Z) rest :
  noDigitAhead rest ->
  parseExponent ("e"%char :: intChars e ++ rest) = Some (e, rest).
Proof.
  intros Hrest. destruct (parseInt_sign e) as [neg [u [-> [Hn [_ ->]]]]].
  pose proof (parseDigits_uintChars u rest Hrest) as Hd.
  destruct neg; simpl.
  - now rewrite Hd, Hn.
  - destruct (nonNil_head u Hn) as [c [r Ec]].
    destruct (uintChars_head_digit u c r Ec) as [_ [Hm [_ [_ [_ Hp]]]]].
    rewrite Ec in *. simpl in *. now rewrite Hm, Hp, Hd, Hn.
Qed.

Lemma app_uint_nil (u : Decimal.uint) : Decimal.app u Decimal.Nil = u.
Proof.
  apply DecimalFacts.to_list_inj.
  rewrite DecimalFacts.app_spec. simpl. apply app_nil_r.
Qed.

Lemma parseNumber_numberChars (m e : Z) rest :
  numberEnds rest ->
  parseNumber (numberChars m e ++ rest) = Some (JNum m e, rest).
Proof.
  intros Hrest. unfold numberChars.
  destruct (parseInt_sign m) as [neg [u [-> [Hn [Hz Em]]]]].
  assert (Hafter : forall tail : str,
             (tail = rest \/ exists t, tail = "e"%char :: t) ->
             parseDigits (Str.uintChars u ++ tail) = (u, tail)).
  { intros tail [->|[t ->]]; apply parseDigits_uintChars;
      [now apply numberEnds_noDigit|reflexivity]. }
  assert (Hnum : forall s', parseNumber (((if neg then ["-"%char] else []) ++ Str.uintChars u) ++ s')
                 = (let '(int, s) := parseDigits (Str.uintChars u ++ s') in
                    if isNil int || leadingZero int then None
                    else
                      let fraction :=
                        match s with
                        | c :: r =>
                            if Ascii.eqb c "."%char then
                              let '(frac, rest) := parseDigits r in
                              if isNil frac then None else Some (frac, rest)
                            else Some (Decimal.Nil, s)
                        | [] => Some (Decimal.Nil, s)
                        end in
                      match fraction with
                      | None => None
                      | Some (frac, s) =>
                          match parseExponent s with
                          | None => None
                          | Some (e, rest) =>
                              let magnitude := Z.of_uint (Decimal.app int frac) in
                              Some (JNum (if neg then (- magnitude)%Z else magnitude)
                                         (e - Z.of_nat (Decimal.nb_digits frac))%Z,
                                    rest)
                          end
                      end)).
  { intros s'. destruct neg; [reflexivity|].
    destruct (nonNil_head u Hn) as [c [r Ec]].
    destruct (uintChars_head_digit u c r Ec) as [_ [Hm _]].
    unfold parseNumber. simpl app. rewrite Ec. simpl app. cbv iota.
    rewrite Hm. reflexivity. }
  rewrite <- app_assoc, Hnum. clear Hnum.
  destruct (e =? 0)%Z eqn:Ee.
  - apply Z.eqb_eq in Ee. subst e. simpl app at 2.
    rewrite Hafter by now left. rewrite Hn, Hz. simpl orb. cbv iota.
    destruct rest as [|c r].
    + simpl. rewrite app_uint_nil, <- Em. reflexivity.
    + destruct Hrest as [Hd [Hdot [He HE]]]. rewrite Hdot.
      cbv beta iota zeta. rewrite parseExponent_none by (simpl; auto).
      rewrite app_uint_nil, <- Em. reflexivity.
  - simpl app at 2. rewrite Hafter by (right; eauto).
    rewrite Hn, Hz.
    simpl orb. cbv iota. simpl Ascii.eqb. cbv beta iota zeta.
    rewrite parseExponent_some by now apply numberEnds_noDigit.
    rewrite app_uint_nil, <- Em. simpl. now rewrite Z.sub_0_r.
Qed.

Lemma json_induction (P : json -> Prop) :
  P JNull ->
  (forall b, P (JBool b)) ->
  (forall m e, P (JNum m e)) ->
  (forall s, P (JStr s)) ->
  (forall items, Forall P items -> P (JArr items)) ->
  (forall members, Forall (fun kv => P (snd kv)) members -> P (JObj members)) ->
  forall j, P j.
Proof.
  intros HN HB HNum HS HA HO. fix IH 1.
  intros [ | b | m e | s | items | members].
  - exact HN.
  - apply HB.
  - apply HNum.
  - apply HS.
  - apply HA. revert items. fix IHl 1. intros [|x r].
    + constructor.
    + constructor; [apply IH|apply IHl].
  - apply HO. revert members. fix IHl 1. intros [|[k v] r].
    + constructor.
    + constructor; [apply IH|apply IHl].
Qed.

Lemma join_one (sep x : str) : Str.join sep [x] = x.
Proof. reflexivity. Qed.

Lemma join_cons (sep x y : str) (r : list str) :
  Str.join sep (x :: y :: r) = x ++ sep ++ Str.join sep (y :: r).
Proof. reflexivity. Qed.

Lemma parseChars_escapeChar (c : ascii) (t : str) :
  parseChars (escapeChar c ++ t) = consTo c (parseChars t).
Proof.
  destruct c as [[] [] [] [] [] [] [] []]; reflexivity.
Qed.

Lemma parseChars_quoted (s rest : str) :
  parseChars (flat_map escapeChar s ++ DQ :: rest) = Some (s, rest).
Proof.
  induction s as [|c s IH]; simpl; [reflexivity|].
  now rewrite <- app_assoc, parseChars_escapeChar, IH.
Qed.

(** The fuel that parsing the text of a value takes. *)
Fixpoint need (j : json) : nat :=
  match j with
  | JArr items => S (fold_right (fun x n => S (need x + n)) 0 items)
  | JObj members => S (fold_right (fun kv n => S (need (snd kv) + n)) 0 members)
  | _ => 1
  end.

Definition needItems (items : list json) : nat :=
  fold_right (fun x n => S (need x + n)) 0 items.

Definition needMembers (members : list (str * json)) : nat :=
  fold_right (fun kv n => S (need (snd kv) + n)) 0 members.

Definition memberText (kv : str * json) : str :=
  quote (fst kv) ++ ":"%char :: stringify (snd kv).

(** What may follow a value inside a text: nothing, or a character that
    does not continue a number. *)
Lemma numberEnds_comma rest : numberEnds (","%char :: rest).
Proof. repeat split. Qed.
Lemma numberEnds_bracket rest : numberEnds ("]"%char :: rest).
Proof. repeat split. Qed.
Lemma numberEnds_brace rest : numberEnds ("}"%char :: rest).
Proof. repeat split. Qed.

(** The first character of the text of a value. *)
Definition startsValue (c : ascii) : Prop :=
  isJsonWs c = false /\ Ascii.eqb c "]"%char = false
  /\ Ascii.eqb c "}"%char = false.

Lemma intChars_head (z : Z) :
  exists c t,
    intChars z = c :: t /\ startsValue c
    /\ Ascii.eqb c "n"%char = false /\ Ascii.eqb c "t"%char = false
    /\ Ascii.eqb c "f"%char = false /\ Ascii.eqb c DQ = false
    /\ Ascii.eqb c "["%char = false /\ Ascii.eqb c "{"%char = false.
Proof.
  destruct (parseInt_sign z) as [neg [u [-> [Hn _]]]].
  destruct neg.
  - eexists _, _. split; [reflexivity|]. repeat split.
  - destruct u; try discriminate; eexists _, _;
      (split; [reflexivity|]); repeat split.
Qed.

Lemma stringify_head (j : json) :
  exists c t, stringify j = c :: t /\ startsValue c.
Proof.
  destruct j as [ | [] | m e | s | items | members];
    try (eexists _, _; split; [reflexivity|repeat split]).
  destruct (intChars_head m) as [c [t [E [H _]]]].
  exists c, (t ++ (if (e =? 0)%Z then [] else "e"%char :: intChars e)).
  split; [|exact H]. simpl. unfold numberChars. now rewrite E.
Qed.

Lemma skipWs_start (c : ascii) (r : str) :
  isJsonWs c = false -> skipWs (c :: r) = c :: r.
Proof. intros H. unfold skipWs. simpl. now rewrite H. Qed.

Local Arguments JSON.skipWs s : simpl never.
Local Arguments JSON.isJsonWs c : simpl never.
Local Arguments JSON.parseNumber s : simpl never.
Local Arguments JSON.parseChars s : simpl never.

Lemma parseValue_number fuel m e rest :
  numberEnds rest ->
  parseValue (S fuel) (numberChars m e ++ rest) = Some (JNum m e, rest).
Proof.
  intros Hrest. pose proof (parseNumber_numberChars m e rest Hrest) as Hp.
  destruct (intChars_head m) as [c [t [E [[Hw _] [H1 [H2 [H3 [H4 [H5 H6]]]]]]]]].
  unfold numberChars in *. rewrite E in *. simpl app in *.
  simpl. rewrite (skipWs_start _ _ Hw). now rewrite H1, H2, H3, H4, H5, H6.
Qed.

Lemma stringify_arr items :
  stringify (JArr items)
  = "["%char :: Str.join [","%char] (map stringify items) ++ ["]"%char].
Proof. reflexivity. Qed.

Lemma stringify_obj members :
  stringify (JObj members)
  = "{"%char :: Str.join [","%char] (map memberText members) ++ ["}"%char].
Proof. reflexivity. Qed.

Lemma parse_roundtrip_fuel :
  forall fuel,
    (forall j rest,
        need j <= fuel -> numberEnds rest ->
        parseValue fuel (stringify j ++ rest) = Some (j, rest))
    /\ (forall items rest,
           items <> [] -> needItems items <= fuel ->
           parseElements fuel
             (Str.join [","%char] (map stringify items) ++ "]"%char :: rest)
           = Some (items, rest))
    /\ (forall members rest,
           members <> [] -> needMembers members <= fuel ->
           parseMembers fuel
             (Str.join [","%char] (map memberText members) ++ "}"%char :: rest)
           = Some (members, rest)).
Proof.
  induction fuel as [|fuel [IHv [IHe IHm]]].
  - split; [|split].
    + intros j rest H. destruct j; simpl in H; lia.
    + intros [|x r] rest Hne H; [congruence|simpl in H; lia].
    + intros [|x r] rest Hne H; [congruence|simpl in H; lia].
  - split; [|split].
    + intros j rest Hneed Hrest.
      destruct j as [ | [] | m e | s | items | members].
      * reflexivity.
      * reflexivity.
      * reflexivity.
      * now apply parseValue_number.
      * simpl. rewrite <- app_assoc. simpl. now rewrite parseChars_quoted.
      * destruct items as [|x r]; [reflexivity|].
        simpl in Hneed. apply le_S_n in Hneed.
        specialize (IHe (x :: r) rest ltac:(discriminate) Hneed).
        rewrite stringify_arr. cbn [app]. rewrite <- app_assoc. cbn [app].
        destruct (stringify_head x) as [c [t [Ex [Hw [Hb _]]]]].
        assert (Ej : exists t', Str.join [","%char] (map stringify (x :: r)) = c :: t').
        { destruct r; simpl map; [rewrite join_one|rewrite join_cons];
            rewrite Ex; simpl; eauto. }
        destruct Ej as [t' Ej].
        change (parseValue (S fuel) ("["%char :: ?s))
          with (match skipWs s with
                | d :: rest0 =>
                    if Ascii.eqb d "]"%char then Some (JArr [], rest0)
                    else option_map (fun ir => (JArr (fst ir), snd ir))
                                    (parseElements fuel s)
                | [] => None
                end).
        rewrite IHe, Ej. cbn [app]. rewrite (skipWs_start _ _ Hw), Hb. reflexivity.
      * destruct members as [|[k v] r]; [reflexivity|].
        simpl in Hneed. apply le_S_n in Hneed.
        specialize (IHm ((k, v) :: r) rest ltac:(discriminate) Hneed).
        rewrite stringify_obj. cbn [app]. rewrite <- app_assoc. cbn [app].
        assert (Ej : exists t', Str.join [","%char] (map memberText ((k, v) :: r)) = DQ :: t').
        { destruct r; simpl map; [rewrite join_one|rewrite join_cons];
            unfold memberText at 1; unfold quote; simpl; eauto. }
        destruct Ej as [t' Ej].
        change (parseValue (S fuel) ("{"%char :: ?s))
          with (match skipWs s with
                | d :: rest0 =>
                    if Ascii.eqb d "}"%char then Some (JObj [], rest0)
                    else option_map (fun mr => (JObj (fst mr), snd mr))
                                    (parseMembers fuel s)
                | [] => None
                end).
        rewrite IHm, Ej. cbn [app]. rewrite skipWs_start by reflexivity.
        reflexivity.
    + intros [|x r] rest Hne Hneed; [congruence|].
      unfold needItems in Hneed. simpl in Hneed. apply le_S_n in Hneed.
      fold (needItems r) in Hneed.
      destruct r as [|y r'].
      * simpl map. rewrite join_one. cbn [parseElements].
        rewrite IHv by (try apply numberEnds_bracket; lia). reflexivity.
      * simpl map. rewrite join_cons. rewrite <- !app_assoc. cbn [app].
        cbn [parseElements].
        rewrite IHv by (try apply numberEnds_comma; lia).
        simpl skipWs. cbn [Str.dropWhile]. simpl.
        change (stringify y :: map stringify r') with (map stringify (y :: r')).
        rewrite IHe by (try discriminate; lia). reflexivity.
    + intros [|[k v] r] rest Hne Hneed; [congruence|].
      unfold needMembers in Hneed. simpl in Hneed. apply le_S_n in Hneed.
      fold (needMembers r) in Hneed.
      destruct r as [|y r'].
      * simpl map. rewrite join_one. unfold memberText, quote. simpl.
        rewrite <- ?app_assoc. simpl. rewrite ?skipWs_start by reflexivity.
        simpl. rewrite parseChars_quoted. rewrite ?skipWs_start by reflexivity.
        simpl.
        rewrite IHv by (try apply numberEnds_brace; lia).
        rewrite ?skipWs_start by reflexivity. reflexivity.
      * simpl map. rewrite join_cons. unfold memberText at 1. unfold quote. simpl.
        rewrite <- ?app_assoc. simpl. rewrite ?skipWs_start by reflexivity.
        simpl. rewrite parseChars_quoted. rewrite ?skipWs_start by reflexivity.
        simpl. rewrite <- ?app_assoc. simpl.
        rewrite IHv by (try apply numberEnds_comma; lia).
        rewrite ?skipWs_start by reflexivity. simpl.
        change (memberText y :: map memberText r') with (map memberText (y :: r')).
        rewrite IHm by (try discriminate; lia). reflexivity.
Qed.

Lemma intChars_nonempty (z : Z) : 1 <= length (intChars z).
Proof.
  destruct (intChars_head z) as [c [t [E _]]]. rewrite E. simpl. lia.
Qed.

Lemma needList_le_join {A} (f : A -> nat) (text : A -> str) (l : list A) :
  Forall (fun x => f x <= length (text x)) l ->
  fold_right (fun x n => S (f x + n)) 0 l
  <= length (Str.join [","%char] (map text l)) + 1.
Proof.
  induction 1 as [|x r Hx Hr IH]; [simpl; lia|].
  destruct r as [|y r'].
  - simpl map. rewrite join_one. simpl. lia.
  - cbn [map] in *. rewrite join_cons, !length_app.
    cbn [fold_right] in *. simpl length. lia.
Qed.

Lemma need_le_length (j : json) : need j <= length (stringify j).
Proof.
  induction j using json_induction.
  - simpl. lia.
  - destruct b; simpl; lia.
  - simpl. unfold numberChars. rewrite length_app.
    pose proof (intChars_nonempty m). lia.
  - simpl. unfold quote. simpl. rewrite length_app. simpl. lia.
  - rewrite stringify_arr. simpl length. rewrite length_app. simpl.
    pose proof (needList_le_join need stringify items H). lia.
  - rewrite stringify_obj. simpl length. rewrite length_app. simpl.
    assert (H' : Forall (fun kv => need (snd kv) <= length (memberText kv)) members).
    { eapply Forall_impl; [|exact H]. intros [k v] Hv. unfold memberText.
      simpl in *. rewrite length_app. simpl. lia. }
    pose proof (needList_le_join (fun kv => need (snd kv)) memberText members H').
    lia.
Qed.

(** [JSON.parse(JSON.stringify(value))] is [value]. *)
Lemma parse_stringify (j : json) : parse (stringify j) = Some j.
Proof.
  unfold parse.
  destruct (parse_roundtrip_fuel (S (length (stringify j)))) as [H _].
  specialize (H j [] ltac:(pose proof (need_le_length j); lia) I).
  rewrite app_nil_r in H. rewrite H. reflexivity.
Qed.

(** The text that [JSON.stringify] produces holds no line feed. *)
Definition noLF (s : str) : Prop := Forall (fun c => Str.isLF c = false) s.

Lemma noLF_app a b : noLF a -> noLF b -> noLF (a ++ b).
Proof. intros. apply Forall_app. now split. Qed.

Lemma uintChars_noLF u : noLF (Str.uintChars u).
Proof. induction u; simpl; constructor; auto. Qed.

Lemma intChars_noLF z : noLF (intChars z).
Proof.
  unfold intChars. destruct (Z.to_int z); [|constructor; [reflexivity|]];
    apply uintChars_noLF.
Qed.

Lemma escapeChar_noLF c : noLF (escapeChar c).
Proof.
  destruct c as [[] [] [] [] [] [] [] []]; vm_compute; repeat constructor.
Qed.

Lemma quote_noLF s : noLF (quote s).
Proof.
  unfold quote. constructor; [reflexivity|]. apply noLF_app.
  - induction s; simpl; [constructor|]. apply noLF_app; auto using escapeChar_noLF.
  - repeat constructor.
Qed.

Lemma join_noLF (l : list str) :
  Forall noLF l -> noLF (Str.join [","%char] l).
Proof.
  induction 1 as [|x r Hx Hr IH]; [constructor|].
  destruct r as [|y r']; [now rewrite join_one|].
  rewrite join_cons. apply noLF_app; [exact Hx|].
  apply noLF_app; [repeat constructor|exact IH].
Qed.

Lemma stringify_noLF (j : json) : noLF (stringify j).
Proof.
  induction j using json_induction.
  - repeat constructor.
  - destruct b; repeat constructor.
  - simpl. unfold numberChars. apply noLF_app; [apply intChars_noLF|].
    destruct (e =? 0)%Z; [constructor|].
    constructor; [reflexivity|apply intChars_noLF].
  - apply quote_noLF.
  - rewrite stringify_arr. constructor; [reflexivity|].
    apply noLF_app; [|repeat constructor].
    apply join_noLF. now apply Forall_map.
  - rewrite stringify_obj. constructor; [reflexivity|].
    apply noLF_app; [|repeat constructor].
    apply join_noLF. apply Forall_map.
    eapply Forall_impl; [|exact H]. intros [k v] Hv. unfold memberText.
    apply noLF_app; [apply quote_noLF|]. constructor; [reflexivity|exact Hv].
Qed.

End JSONFacts.

(** ** Splitting a stream on blank lines, read by read *)
Section SplitFacts.

Lemma list_ind2 {A} (P : list A -> Prop) :
  P [] -> (forall a, P [a]) ->
  (forall a b l, P l -> P (b :: l) -> P (a :: b :: l)) ->
  forall l, P l.
Proof.
  intros H0 H1 H2 l.
  assert (P l /\ forall a, P (a :: l)) as [H _]; [|exact H].
  induction l as [|b l [IH1 IH2]]; split; auto.
Qed.

Lemma isLF_eq c : Str.isLF c = true -> c = Str.LF.
Proof. unfold Str.isLF. apply Ascii.eqb_eq. Qed.

Lemma consHead_nonempty c l : Str.consHead c l <> [].
Proof. destruct l; discriminate. Qed.

Lemma split_nonempty s : Str.splitOnBlankLine s <> [].
Proof.
  destruct s as [|c [|d r]]; simpl; try discriminate.
  destruct (Str.isLF c && Str.isLF d); [discriminate|apply consHead_nonempty].
Qed.

Lemma split_cons2 a b l :
  Str.splitOnBlankLine (a :: b :: l)
  = if Str.isLF a && Str.isLF b
    then [] :: Str.splitOnBlankLine l
    else Str.consHead a (Str.splitOnBlankLine (b :: l)).
Proof. reflexivity. Qed.

(** The pieces of a text joined by blank lines give the text back. *)
Lemma join_split s :
  Str.join [Str.LF; Str.LF] (Str.splitOnBlankLine s) = s.
Proof.
  assert (Hc : forall c l, l <> [] ->
                Str.join [Str.LF; Str.LF] (Str.consHead c l)
                = c :: Str.join [Str.LF; Str.LF] l).
  { intros c [|h [|h' t]] Hl; [congruence|reflexivity|reflexivity]. }
  induction s as [|a|a b l IH1 IH2] using list_ind2; try reflexivity.
  rewrite split_cons2.
  destruct (Str.isLF a && Str.isLF b) eqn:E.
  - apply andb_prop in E. destruct E as [Ea Eb].
    apply isLF_eq in Ea, Eb. subst.
    pose proof (split_nonempty l) as Hn.
    destruct (Str.splitOnBlankLine l) as [|h t] eqn:El; [congruence|].
    change (Str.join [Str.LF; Str.LF] ([] :: h :: t))
      with ([] ++ [Str.LF; Str.LF] ++ Str.join [Str.LF; Str.LF] (h :: t)).
    now rewrite IH1.
  - rewrite Hc by apply split_nonempty. now rewrite IH2.
Qed.

Lemma split_single s p : Str.splitOnBlankLine s = [p] -> p = s.
Proof.
  intros H. pose proof (join_split s) as J. rewrite H in J. exact J.
Qed.

(** Splitting a text that continues: the complete pieces of the first part
    stay, and the last piece is split again with what follows. *)
Lemma split_app (a b : str) :
  Str.splitOnBlankLine (a ++ b)
  = removelast (Str.splitOnBlankLine a)
      ++ Str.splitOnBlankLine (last (Str.splitOnBlankLine a) [] ++ b).
Proof.
  induction a as [|c|c d r IH1 IH2] using list_ind2; try reflexivity.
  cbn [app]. rewrite !split_cons2.
  destruct (Str.isLF c && Str.isLF d) eqn:E.
  - rewrite IH1. pose proof (split_nonempty r) as Hn.
    destruct (Str.splitOnBlankLine r) as [|h t]; [congruence|]. reflexivity.
  - cbn [app] in IH2. rewrite IH2.
    pose proof (split_nonempty (d :: r)) as Hn.
    destruct (Str.splitOnBlankLine (d :: r)) as [|h [|h' t]] eqn:El;
      [congruence| |reflexivity].
    apply split_single in El. subst h. cbn [removelast last Str.consHead app].
    rewrite split_cons2, E. reflexivity.
Qed.

(** The last piece of a split holds no blank line. *)
Lemma split_last_stable (a : str) :
  Str.splitOnBlankLine (last (Str.splitOnBlankLine a) [])
  = [last (Str.splitOnBlankLine a) []].
Proof.
  pose proof (split_app a []) as H. rewrite !app_nil_r in H.
  rewrite (app_removelast_last [] (split_nonempty a)) in H at 1.
  now apply app_inv_head in H.
Qed.

(** A piece without line feed, followed by a blank line. *)
Lemma split_frame (x rest : str) :
  noLF x ->
  Str.splitOnBlankLine (x ++ Str.LF :: Str.LF :: rest)
  = x :: Str.splitOnBlankLine rest.
Proof.
  induction 1 as [|c x Hc Hx IH]; [reflexivity|].
  cbn [app].
  destruct (x ++ Str.LF :: Str.LF :: rest) eqn:E.
  - destruct x; discriminate.
  - rewrite split_cons2, Hc. cbn [andb]. rewrite IH. reflexivity.
Qed.

End SplitFacts.

(** ** The streaming endpoint and the client that reads it *)
Section StreamingFacts.
Import ChatStreaming.

Variable apiUrl : str.
Variable ToString : option json -> str.

Lemma removelast_app_nonempty {A} (l l' : list A) :
  l' <> [] -> removelast (l ++ l') = l ++ removelast l'.
Proof. intros H. now apply removelast_app. Qed.

Lemma last_app_nonempty {A} (l l' : list A) d :
  l' <> [] -> last (l ++ l') d = last l' d.
Proof.
  intros H. induction l as [|a l IH]; [reflexivity|].
  simpl. destruct (l ++ l') eqn:E; [|exact IH].
  apply app_eq_nil in E. tauto.
Qed.

(** The loop over the reads handles the complete pieces of the whole text,
    and keeps its last piece as the buffer. *)
Lemma readLoop_spec (conversationId : str) (values : list str) :
  forall (buffer : str) (w : World),
    Str.splitOnBlankLine buffer = [buffer] ->
    readLoop ToString conversationId values buffer w
    = (fold_left (onLine ToString conversationId)
                 (removelast (Str.splitOnBlankLine (buffer ++ concat values))) w,
       last (Str.splitOnBlankLine (buffer ++ concat values)) []).
Proof.
  induction values as [|value rest IH]; intros buffer w Hb.
  - simpl. rewrite app_nil_r, Hb. reflexivity.
  - cbn [readLoop concat]. rewrite IH by apply split_last_stable.
    rewrite app_assoc, (split_app (buffer ++ value) (concat rest)).
    set (lines := Str.splitOnBlankLine (buffer ++ value)).
    set (tail := Str.splitOnBlankLine (last lines [] ++ concat rest)).
    assert (Ht : tail <> []) by apply split_nonempty.
    rewrite removelast_app_nonempty, last_app_nonempty by exact Ht.
    now rewrite fold_left_app.
Qed.

(** The members of an event object of the stream. *)
Definition eventType (members : list (str * json)) (t : str) : Prop :=
  JSON.lookup $"type" members = Some (JStr t).

(** The payload of an event: the [data] of a [content] event, and nothing
    for the other events. *)
Definition contentPayload (members : list (str * json)) : list str :=
  match JSON.lookup $"type" members, JSON.lookup $"data" members with
  | Some (JStr t), Some (JStr d) => if Str.eqb t $"content" then [d] else []
  | _, _ => []
  end.

(** An event as the endpoint writes it: its type is [content], with a string
    as data, or [sources], or [done]. *)
Definition wellFormedEvent (members : list (str * json)) : Prop :=
  (exists d, eventType members $"content"
             /\ JSON.lookup $"data" members = Some (JStr d))
  \/ eventType members $"sources"
  \/ eventType members $"done".

Definition eventLine (members : list (str * json)) : str :=
  $"data: " ++ JSON.stringify (JObj members).

Lemma sseEvent_eventLine members :
  ChatController.sseEvent (JObj members)
  = eventLine members ++ [Str.LF; Str.LF].
Proof. unfold ChatController.sseEvent, eventLine. now rewrite <- app_assoc. Qed.

Lemma eventLine_noLF members : noLF (eventLine members).
Proof.
  unfold eventLine. apply noLF_app; [repeat constructor|apply stringify_noLF].
Qed.

Lemma split_events (events : list (list (str * json))) :
  Str.splitOnBlankLine
    (concat (map (fun ms => ChatController.sseEvent (JObj ms)) events))
  = map eventLine events ++ [[]].
Proof.
  induction events as [|ms events IH]; [reflexivity|].
  cbn [map concat]. rewrite sseEvent_eventLine, <- app_assoc.
  cbn [app]. rewrite split_frame by apply eventLine_noLF. now rewrite IH.
Qed.

Lemma onLine_event (conversationId : str) (w : World) members :
  wellFormedEvent members ->
  streamingContent (state (onLine ToString conversationId w (eventLine members)))
  = streamingContent (state w) ++ concat (contentPayload members).
Proof.
  intros Hwf. unfold onLine, eventLine.
  change (Str.startsWith ($"data: " ++ ?x) $"data: ") with true.
  change (Str.slice 6 ($"data: " ++ ?x)) with x.
  rewrite parse_stringify. cbn [JSON.get].
  unfold contentPayload, eventType in *.
  destruct Hwf as [[d [Ht Hd]]|[Ht|Ht]]; rewrite Ht.
  - rewrite Hd. simpl. now rewrite app_nil_r.
  - destruct (JSON.lookup $"data" members) as [[]|]; simpl;
      now rewrite ?app_nil_r.
  - destruct (JSON.lookup $"data" members) as [[]|]; simpl;
      now rewrite ?app_nil_r.
Qed.

Lemma fold_onLine_events (conversationId : str) events : forall (w : World),
  Forall wellFormedEvent events ->
  streamingContent
    (state (fold_left (onLine ToString conversationId) (map eventLine events) w))
  = streamingContent (state w) ++ concat (flat_map contentPayload events).
Proof.
  induction events as [|ms events IH]; intros w H.
  - simpl. now rewrite app_nil_r.
  - inversion H as [|? ? Hms Hrest]; subst. cbn [map fold_left flat_map].
    rewrite IH by assumption. rewrite onLine_event by assumption.
    now rewrite concat_app, app_assoc.
Qed.

Section Endpoint.
Import ChatController.

Variable svc : Retrieval.Services.
Variable openai : Completion.OpenAI.
Variable cuid : nat -> str.
Variable decimalOf : Q -> Z * Z.

Lemma onChunk_event now conversationId st chunk st' :
  onChunk cuid decimalOf now conversationId st chunk = Ok st' ->
  exists members,
    written st' = written st ++ [sseEvent (JObj members)]
    /\ wellFormedEvent members
    /\ fullContent st' = fullContent st ++ concat (contentPayload members).
Proof.
  destruct chunk as [sources|content|sources]; simpl.
  - intros [= <-]. eexists. split; [reflexivity|]. split.
    + right. left. reflexivity.
    + simpl. now rewrite app_nil_r.
  - intros [= <-]. eexists. split; [reflexivity|]. split.
    + left. exists content. split; reflexivity.
    + simpl. now rewrite app_nil_r.
  - destruct (ChatService.addMessage _ _ _ _) as [[message db']|e]; simpl;
      [|discriminate].
    intros [= <-]. eexists. split; [reflexivity|]. split.
    + right. right. reflexivity.
    + simpl. now rewrite app_nil_r.
Qed.

(** What the loop of the endpoint has written when it ends, and the content
    it has collected. *)
Lemma streamLoop_events now conversationId chunks : forall st,
  exists events,
    written (fst (streamLoop cuid decimalOf now conversationId st chunks))
    = written st ++ map (fun ms => sseEvent (JObj ms)) events
    /\ Forall wellFormedEvent events
    /\ fullContent (fst (streamLoop cuid decimalOf now conversationId st chunks))
       = fullContent st ++ concat (flat_map contentPayload events).
Proof.
  induction chunks as [|chunk rest IH]; intros st.
  - exists []. simpl. now rewrite !app_nil_r.
  - simpl. destruct (onChunk _ _ _ _ _ _) as [st'|e] eqn:E.
    + destruct (onChunk_event _ _ _ _ _ E) as [ms [Hw [Hwf Hc]]].
      destruct (IH st') as [events [Hw' [Hwf' Hc']]].
      exists (ms :: events). rewrite Hw', Hc', Hw, Hc.
      cbn [map flat_map]. rewrite concat_app, <- !app_assoc.
      repeat split; auto.
    + exists []. simpl. now rewrite !app_nil_r.
Qed.

Lemma sendMessageStream_events now later req db :
  exists events,
    writes (sendMessageStream svc openai cuid decimalOf now later req db)
    = map (fun ms => sseEvent (JObj ms)) events
    /\ Forall wellFormedEvent events.
Proof.
  unfold sendMessageStream.
  destruct (ChatService.getConversation _ _ _) as [[conversation messages]|];
    [|exists []; split; [reflexivity|constructor]].
  destruct (ChatService.addMessage _ _ _ _) as [[message db']|e];
    [|exists []; split; [reflexivity|constructor]].
  destruct (Completion.stream _ _ _ _ _) as [requests [chunks thrown]].
  match goal with
  | |- context [streamLoop cuid decimalOf ?n ?c ?s ?l] =>
      destruct (streamLoop_events n c l s) as [events [Hw [Hwf _]]];
      destruct (streamLoop cuid decimalOf n c s l) as [st loopError]
  end.
  exists events. simpl in *. split; assumption.
Qed.

End Endpoint.

(** C3. Every event that the streaming endpoint writes is [data: ], the text
    of a JSON object whose [type] is [content], [sources] or [done], and two
    line feeds; and however the text of the response is cut into reads, the
    client splits it at the blank lines, parses the payload of every event,
    and when its loop ends [streamingContent] is the concatenation of the
    payloads of the [content] events, in order. *)
Theorem sse_framing_and_reassembly :
  forall (svc : Retrieval.Services) (openai : Completion.OpenAI)
         (cuid : nat -> str) (decimalOf : Q -> Z * Z) (now later : nat)
         (req : ChatController.Request) (db : Db.t),
    let out :=
      ChatController.sendMessageStream svc openai cuid decimalOf now later req db in
    exists events : list (list (str * json)),
      ChatController.writes out
      = map (fun members =>
               $"data: " ++ JSON.stringify (JObj members) ++ [Str.LF; Str.LF])
            events
      /\ Forall (fun members =>
                   exists t,
                     JSON.lookup $"type" members = Some (JStr t)
                     /\ (t = $"content" \/ t = $"sources" \/ t = $"done"))
                events
      /\ forall (conversationId content : str) (values : list str)
                (ending : ReadEnd) (w : World),
           concat values = concat (ChatController.writes out) ->
           streamingContent
             (state
                (fst (tryBlock apiUrl ToString conversationId content
                        (FetchResolves true
                           (Some {| reads := values; ending := ending |}))
                        (begin content w))))
           = concat (flat_map contentPayload events).
Proof.
  intros svc openai cuid decimalOf now later req db out.
  destruct (sendMessageStream_events svc openai cuid decimalOf now later req db)
    as [events [Hw Hwf]].
  fold out in Hw. exists events. split; [exact Hw|]. split.
  - eapply Forall_impl; [|exact Hwf].
    intros ms [[d [Ht _]]|[Ht|Ht]]; eexists; (split; [exact Ht|]); auto.
  - intros conversationId content values ending w Hv.
    cbn [tryBlock negb fst]. rewrite readLoop_spec by reflexivity.
    cbn [app fst reads]. rewrite Hv, Hw, split_events.
    rewrite removelast_app by discriminate. cbn [removelast].
    rewrite app_nil_r, fold_onLine_events by exact Hwf. reflexivity.
Qed.

(** C7. Whatever the network does, [sendMessage] ends with the streaming
    state cleared: [isStreaming] false, [streamingContent] empty,
    [streamingSources] empty and [pendingUserMessage] null. When the fetch
    is rejected, the response is not [ok], the response has no body, or a
    read fails, [error] is one message: the message of the error thrown, or
    [Failed to get response] when the thrown value is not an error. When
    the body is read to its end, [error] is null. *)
Theorem sendMessage_clears_and_reports :
  forall (conversationId content : str) (net : FetchOutcome) (w : World),
    let w' := sendMessage apiUrl ToString conversationId content net w in
    let messageOf (e : Thrown) : str :=
      match e with
      | ThrownError message => message
      | ThrownOther => $"Failed to get response"
      end in
    isStreaming (state w') = false
    /\ streamingContent (state w') = []
    /\ streamingSources (state w') = Some (JArr [])
    /\ pendingUserMessage (state w') = None
    /\ (forall e, net = FetchRejects e -> error (state w') = Some (messageOf e))
    /\ (forall body, net = FetchResolves false body ->
                     error (state w') = Some $"Failed to send message")
    /\ (net = FetchResolves true None ->
        error (state w') = Some $"No response body")
    /\ (forall values e,
           net = FetchResolves true
                   (Some {| reads := values; ending := ReadThrows e |}) ->
           error (state w') = Some (messageOf e))
    /\ (forall values,
           net = FetchResolves true
                   (Some {| reads := values; ending := ReadDone |}) ->
           error (state w') = None).
Proof.
  intros conversationId content net w w' messageOf. subst w'.
  unfold sendMessage.
  destruct (tryBlock apiUrl ToString conversationId content net (begin content w))
    as [w1 thrown] eqn:Et.
  repeat (split; [reflexivity|]).
  assert (Herr : forall e, thrown = Some e ->
                 error (state (finallyBlock (catchBlock thrown w1)))
                 = Some (messageOf e)).
  { intros e ->. destruct e; reflexivity. }
  unfold tryBlock in Et.
  split; [intros e ->; injection Et as _ <-; exact (Herr _ eq_refl)|].
  split; [intros body ->; simpl in Et; injection Et as _ <-;
          exact (Herr _ eq_refl)|].
  split; [intros ->; simpl in Et; injection Et as _ <-; exact (Herr _ eq_refl)|].
  split; [intros values e ->; simpl in Et; injection Et as _ <-;
          exact (Herr _ eq_refl)|].
  intros values ->. simpl in Et. injection Et as <- <-. simpl.
  rewrite readLoop_spec by reflexivity. simpl.
  generalize (removelast (Str.splitOnBlankLine (concat values))).
  intros lines.
  assert (H : forall (l : list str) (w0 : World),
             error (state (fold_left (onLine ToString conversationId) l w0))
             = error (state w0)).
  { induction l as [|line l IH]; intros w0; [reflexivity|].
    simpl. rewrite IH. unfold onLine.
    destruct (Str.startsWith line $"data: "); [|reflexivity].
    destruct (JSON.parse _) as [[]|]; try reflexivity;
      destruct (JSON.get _ _) as [[]|]; try reflexivity;
      repeat match goal with
             | |- context [if ?b then _ else _] => destruct b
             end; reflexivity. }
  rewrite H. reflexivity.
Qed.

End StreamingFacts.


(** ** A run of the endpoint and of the client *)

(** The database of [aliceDb] with the chunks of [demoDb]. *)
Definition streamDemoDb : Db.t :=
  {| Db.documents := [];
     Db.chunks := Db.chunks demoDb;
     Db.conversations := Db.conversations aliceDb;
     Db.messages := Db.messages aliceDb;
     Db.created := 6 |}.

Definition demoOutcome : ChatController.Outcome :=
  ChatController.sendMessageStream demoServices demoOpenAI
    (fun n => $"id" ++ Str.ofNat n)
    (fun q => (Qfloor (q * 1000), -3)%Z)
    10 11
    {| ChatController.userId := $"alice";
       ChatController.conversationId := $"conv1";
       ChatController.content := $"q" |}
    streamDemoDb.

Definition demoWorld : ChatStreaming.World :=
  {| ChatStreaming.state := ChatStreaming.initialState;
     ChatStreaming.effects := [] |}.

(** The endpoint writes four events; the client, fed the response one
    character per read, rebuilds the answer, reports the completion once,
    and ends with its streaming state cleared. *)
Example sse_demo :
  let values := map (fun c => [c]) (concat (ChatController.writes demoOutcome)) in
  let net :=
    ChatStreaming.FetchResolves true
      (Some {| ChatStreaming.reads := values;
               ChatStreaming.ending := ChatStreaming.ReadDone |}) in
  let tried :=
    fst (ChatStreaming.tryBlock [] (fun _ => []) $"conv1" $"q" net
           (ChatStreaming.begin $"q" demoWorld)) in
  let final :=
    ChatStreaming.sendMessage [] (fun _ => []) $"conv1" $"q" net demoWorld in
  length (ChatController.writes demoOutcome) = 4
  /\ nth 1 (ChatController.writes demoOutcome) []
     = $"data: {" ++ [JSON.DQ] ++ $"type" ++ [JSON.DQ] ++ $":" ++ [JSON.DQ]
        ++ $"content" ++ [JSON.DQ] ++ $"," ++ [JSON.DQ] ++ $"data" ++ [JSON.DQ]
        ++ $":" ++ [JSON.DQ] ++ $"Hi" ++ [JSON.DQ] ++ $"}" ++ [Str.LF; Str.LF]
  /\ ChatController.ended demoOutcome = true
  /\ map Message.content (Db.messages (ChatController.db demoOutcome))
     = [$"hello"; $"q"; $"Hi."]
  /\ ChatStreaming.streamingContent (ChatStreaming.state tried) = $"Hi."
  /\ tl (ChatStreaming.effects tried)
     = [ChatStreaming.InvalidateQueries $"conv1"; ChatStreaming.OnComplete]
  /\ ChatStreaming.state final = ChatStreaming.initialState.
Proof. vm_compute. repeat split. Qed.

(** ** Further runs of the embedding *)

Example splitParagraphs_ex :
  Str.splitParagraphs ($"a" ++ [Str.LF; Str.LF; Str.LF] ++ $"b" ++ [Str.LF] ++ $"c" ++ [Str.LF; Str.LF])
  = [$"a"; $"b" ++ [Str.LF] ++ $"c"; []].
Proof. reflexivity. Qed.

Example stripExtension_ex :
  Documents.stripExtension $"notes.v2.md" = $"notes.v2"
  /\ Documents.stripExtension $"a.b/c" = $"a.b/c"
  /\ Documents.stripExtension $"README" = $"README"
  /\ Documents.stripExtension $"x." = $"x.".
Proof. repeat split; reflexivity. Qed.

Example chunkText_ex :
  Documents.chunkText ($" a " ++ [Str.LF; Str.LF; Str.LF] ++ $"b" ++ [Str.LF]) None
  = [$"a" ++ [Str.LF; Str.LF] ++ $"b"]
  /\ Documents.chunkText ($" " ++ [Str.LF; Str.LF]) None = [[]]
  /\ Documents.chunkText ($"abc" ++ [Str.LF; Str.LF] ++ $"de") (Some 4) = [$"abc"; $"de"].
Proof. repeat split; reflexivity. Qed.

Example JSON_roundtrip_ex :
  let v := JObj [($"type", JStr $"content");
                 ($"data", JArr [JStr ($"a" ++ [JSON.DQ; Str.LF; JSON.BS; ascii_of_nat 1] ++ $"b");
                                 JNum (-12) 0; JNum 8234 (-4); JNull; JBool true;
                                 JObj []; JArr []])] in
  JSON.parse (JSON.stringify v) = Some v
  /\ JSON.stringify v
     = $"{" ++ [JSON.DQ] ++ $"type" ++ [JSON.DQ] ++ $":" ++ [JSON.DQ] ++ $"content"
        ++ [JSON.DQ] ++ $"," ++ [JSON.DQ] ++ $"data" ++ [JSON.DQ] ++ $":["
        ++ [JSON.DQ] ++ $"a" ++ [JSON.BS; JSON.DQ; JSON.BS] ++ $"n" ++ [JSON.BS; JSON.BS; JSON.BS]
        ++ $"u0001b" ++ [JSON.DQ] ++ $",-12,8234e-4,null,true,{},[]]}".
Proof. split; reflexivity. Qed.

Example JSON_parse_ex :
  JSON.parse $" [1.5e2, 0.25 ,-0 ] " = Some (JArr [JNum 15 1; JNum 25 (-2); JNum 0 0])
  /\ JSON.parse $"01" = None
  /\ JSON.parse $"{} x" = None
  /\ JSON.parse $"nul" = None.
Proof. repeat split; reflexivity. Qed.

(** ** Chunking keeps the text and bounds the chunks *)
Section ChunkFacts.
Import Documents.

Abbreviation join2 := (Str.join [Str.LF; Str.LF]).

Lemma dropWhile_id (p : ascii -> bool) (s : str) :
  match s with [] => True | c :: _ => p c = false end ->
  Str.dropWhile p s = s.
Proof. destruct s as [|c r]; simpl; [reflexivity|]. now intros ->. Qed.

Lemma trim_fixed (s : str) : isTrimmed s = true -> Str.trim s = s.
Proof.
  unfold isTrimmed, noTrailingWs, noLeadingWs, Str.trim, Str.trimStart, Str.trimEnd.
  intros H. apply andb_prop in H. destruct H as [H1 H2].
  rewrite (dropWhile_id _ s).
  - rewrite (dropWhile_id _ (rev s)); [apply rev_involutive|].
    destruct (rev s); [exact I|]. now apply negb_true_iff in H2.
  - destruct s; [exact I|]. now apply negb_true_iff in H1.
Qed.

Lemma truthy_nonempty (s : str) : Str.truthy s = true <-> s <> [].
Proof. destruct s; simpl; split; congruence. Qed.

(** A piece that is not empty and has no white space at either end. *)
Definition solid (s : str) : Prop := s <> [] /\ isTrimmed s = true.

Lemma solid_glue (a b : str) :
  solid a -> solid b -> solid (a ++ [Str.LF; Str.LF] ++ b).
Proof.
  intros [Ha Ta] [Hb Tb]. split.
  - destruct a; [congruence|discriminate].
  - unfold isTrimmed, noTrailingWs in *.
    apply andb_prop in Ta, Tb. destruct Ta as [Ta _], Tb as [_ Tb].
    apply andb_true_intro. split.
    + destruct a; [congruence|exact Ta].
    + rewrite !rev_app_distr. destruct (rev b) eqn:E; [|exact Tb].
      apply (f_equal (@rev ascii)) in E. rewrite rev_involutive in E.
      simpl in E. congruence.
Qed.

(** The chunks closed so far, followed by the open one if it holds text. *)
Definition withOpen (chunks : list str) (cur : str) : list str :=
  chunks ++ (if Str.truthy cur then [cur] else []).

(** Gluing two texts with a blank line, when both hold text. *)
Definition glue (a b : str) : str :=
  match a, b with
  | [], _ => b
  | _, [] => a
  | _, _ => a ++ [Str.LF; Str.LF] ++ b
  end.

Lemma join_snoc (sep : str) (l : list str) (x : str) :
  Str.join sep (l ++ [x])
  = match l with [] => x | _ => Str.join sep l ++ sep ++ x end.
Proof.
  induction l as [|a l IH]; [reflexivity|].
  destruct l as [|b l'].
  - reflexivity.
  - change ((a :: b :: l') ++ [x]) with (a :: b :: (l' ++ [x])).
    rewrite (join_cons sep a b (l' ++ [x])).
    change (b :: l' ++ [x]) with ((b :: l') ++ [x]). rewrite IH.
    rewrite (join_cons sep a b l'). now rewrite <- !app_assoc.
Qed.

Lemma join_nonempty (sep : str) (l : list str) :
  Forall (fun s => s <> []) l -> l <> [] -> Str.join sep l <> [].
Proof.
  intros Hl Hne. destruct l as [|a l]; [congruence|].
  inversion Hl as [|? ? Ha _]; subst.
  destruct l; [exact Ha|]. rewrite join_cons.
  destruct a; [congruence|discriminate].
Qed.

Lemma join2_snoc (l : list str) (x : str) :
  Forall (fun s => s <> []) l -> x <> [] ->
  join2 (l ++ [x]) = glue (join2 l) x.
Proof.
  intros Hl Hx. rewrite join_snoc. destruct l as [|a l]; [reflexivity|].
  pose proof (join_nonempty [Str.LF; Str.LF] (a :: l) Hl ltac:(discriminate)) as Hj.
  unfold glue. destruct (join2 (a :: l)); [congruence|].
  destruct x; [congruence|reflexivity].
Qed.

(** The paragraphs that hold text, trimmed: what the loop of [chunkText]
    works on. *)
Definition solidParagraphs (text : str) : list str :=
  filter Str.truthy (map Str.trim (Str.splitParagraphs text)).

Lemma solid_nonempty (l : list str) :
  Forall solid l -> Forall (fun s => s <> []) l.
Proof. apply Forall_impl. now intros s [H _]. Qed.

(** What the loop keeps true of [(chunks, currentChunk)] after the solid
    paragraphs [ps]. *)
Record chunkInv (m : nat) (ps : list str) (st : list str * str) : Prop := {
  inv_chunks : Forall solid (fst st);
  inv_open : snd st = [] \/ solid (snd st);
  inv_text : join2 (withOpen (fst st) (snd st)) = join2 ps;
  inv_size : Forall (fun c => In c ps \/ length c <= m + 2)
               (withOpen (fst st) (snd st));
  inv_paras : Forall solid ps
}.

Lemma withOpen_solid (chunks : list str) (cur : str) :
  Forall solid chunks -> cur = [] \/ solid cur ->
  Forall solid (withOpen chunks cur).
Proof.
  intros Hc [->|Hs]; unfold withOpen.
  - simpl. now rewrite app_nil_r.
  - destruct cur; [destruct Hs; congruence|]. simpl.
    apply Forall_app. split; [exact Hc|]. now constructor.
Qed.

Lemma withOpen_solid_eq (chunks : list str) (cur : str) :
  solid cur -> withOpen chunks cur = chunks ++ [cur].
Proof. intros [H _]. unfold withOpen. destruct cur; [congruence|reflexivity]. Qed.

Lemma chunkStep_skip (m : nat) (st : list str * str) (para : str) :
  Str.trim para = [] -> chunkStep m st para = st.
Proof. intros E. unfold chunkStep. destruct st. now rewrite E. Qed.

Lemma chunkStep_inv (m : nat) (ps : list str) (st : list str * str)
  (para : str) :
  chunkInv m ps st ->
  chunkInv m (ps ++ filter Str.truthy [Str.trim para]) (chunkStep m st para).
Proof.
  intros [Hc Ho Ht Hs Hp]. destruct st as [chunks cur]. cbn [fst snd] in *.
  destruct (Str.trim para) as [|t0 t'] eqn:Et.
  - rewrite chunkStep_skip by exact Et. simpl. rewrite app_nil_r.
    now constructor.
  - assert (St : solid (t0 :: t')).
    { split; [discriminate|]. rewrite <- Et. apply trim_isTrimmed. }
    set (t := t0 :: t') in *.
    assert (Hp' : Forall solid (ps ++ [t])).
    { apply Forall_app. split; [exact Hp|]. now constructor. }
    assert (Hold : Forall (fun c => In c (ps ++ [t]) \/ length c <= m + 2)
                     (withOpen chunks cur)).
    { revert Hs. apply Forall_impl. intros c [H|H]; [left|now right].
      apply in_or_app. now left. }
    assert (Hnew : forall chunks' cur',
      Forall solid chunks' -> solid cur' ->
      join2 (chunks' ++ [cur']) = join2 (withOpen chunks cur ++ [t]) ->
      Forall (fun c => In c (ps ++ [t]) \/ length c <= m + 2)
        (chunks' ++ [cur']) ->
      chunkInv m (ps ++ [t]) (chunks', cur')).
    { intros chunks' cur' H1 H2 H3 H4. constructor; simpl.
      - exact H1.
      - now right.
      - rewrite withOpen_solid_eq by exact H2. rewrite H3.
        rewrite join2_snoc; [|apply solid_nonempty, withOpen_solid; assumption
                             |apply St].
        rewrite Ht. symmetry. apply join2_snoc; [now apply solid_nonempty|].
        apply St.
      - rewrite withOpen_solid_eq by exact H2. exact H4.
      - exact Hp'. }
    unfold chunkStep. rewrite Et. fold t.
    change (negb (Str.truthy t)) with false. cbv iota.
    destruct Ho as [->|So].
    + rewrite andb_false_r. simpl. apply Hnew; auto.
      * unfold withOpen. simpl. now rewrite app_nil_r.
      * apply Forall_app. split.
        -- unfold withOpen in Hold. simpl in Hold.
           now rewrite app_nil_r in Hold.
        -- constructor; [|constructor]. left. apply in_or_app. right.
           now left.
    + assert (Tc : Str.truthy cur = true).
      { apply truthy_nonempty. apply So. }
      rewrite Tc, andb_true_r. rewrite withOpen_solid_eq in * by exact So.
      destruct (m <? length cur + length t) eqn:Em.
      * rewrite (trim_fixed cur) by apply So. simpl.
        apply Hnew; auto.
        -- apply Forall_app. split; [exact Hc|]. now constructor.
        -- apply Forall_app. split; [exact Hold|].
           constructor; [|constructor]. left. apply in_or_app. right.
           now left.
      * rewrite Tc. apply Nat.ltb_ge in Em. apply Hnew.
        -- exact Hc.
        -- now apply solid_glue.
        -- rewrite !join_snoc. destruct chunks; simpl.
           ++ reflexivity.
           ++ rewrite <- ?app_assoc. reflexivity.
        -- apply Forall_app. apply Forall_app in Hold.
           destruct Hold as [Hold _]. split; [exact Hold|].
           constructor; [|constructor]. right.
           rewrite !length_app. unfold t in *. simpl in *. lia.
Qed.

Lemma fold_chunkStep_inv (m : nat) (paras : list str) :
  forall (ps : list str) (st : list str * str),
    chunkInv m ps st ->
    chunkInv m (ps ++ filter Str.truthy (map Str.trim paras))
      (fold_left (chunkStep m) paras st).
Proof.
  induction paras as [|p paras IH]; intros ps st H; simpl fold_left.
  - simpl. now rewrite app_nil_r.
  - apply (chunkStep_inv m ps st p) in H. apply IH in H.
    rewrite <- app_assoc in H.
    change (map Str.trim (p :: paras)) with ([Str.trim p] ++ map Str.trim paras).
    rewrite filter_app. exact H.
Qed.

Lemma paragraphChunks_inv (text : str) (m : nat) :
  exists st, chunkInv m (solidParagraphs text) st
             /\ paragraphChunks text m = withOpen (fst st) (snd st).
Proof.
  exists (fold_left (chunkStep m) (Str.splitParagraphs text) ([], [])).
  assert (H0 : chunkInv m [] ([], [])).
  { constructor; simpl; auto. }
  pose proof (fold_chunkStep_inv m (Str.splitParagraphs text) [] _ H0) as H.
  split; [exact H|]. unfold paragraphChunks.
  destruct (fold_left _ _ _) as [chunks cur]. simpl.
  destruct H as [_ Ho _ _ _]. simpl in Ho. unfold withOpen.
  destruct Ho as [->|So].
  - simpl. now rewrite app_nil_r.
  - rewrite (trim_fixed cur) by apply So.
    destruct (Str.truthy cur); [reflexivity|now rewrite app_nil_r].
Qed.

(** White space only. *)
Definition blank (s : str) : Prop := Forall (fun c => Str.isWhiteSpace c = true) s.

Lemma dropWhile_blank (s : str) : blank s -> Str.dropWhile Str.isWhiteSpace s = [].
Proof. induction 1 as [|c r Hc _ IH]; simpl; [reflexivity|]. now rewrite Hc. Qed.

Lemma trim_blank (s : str) : blank s -> Str.trim s = [].
Proof.
  intros H. unfold Str.trim, Str.trimStart. now rewrite dropWhile_blank.
Qed.

Lemma dropWhile_empty_blank (s : str) :
  Str.dropWhile Str.isWhiteSpace s = [] -> blank s.
Proof.
  induction s as [|c r IH]; simpl; [constructor|].
  destruct (Str.isWhiteSpace c) eqn:E; [|discriminate].
  intros H. apply Forall_cons; [exact E|exact (IH H)].
Qed.

Lemma trim_empty_blank (s : str) : Str.trim s = [] -> blank s.
Proof.
  unfold Str.trim, Str.trimEnd, Str.trimStart. intros H.
  apply (f_equal (@rev ascii)) in H. rewrite rev_involutive in H. simpl in H.
  apply dropWhile_empty_blank in H. unfold blank in H. apply Forall_rev in H.
  rewrite rev_involutive in H. apply dropWhile_empty_blank.
  pose proof (dropWhile_head s) as Hh.
  destruct (Str.dropWhile Str.isWhiteSpace s) as [|c r]; [reflexivity|].
  inversion H as [|? ? Hc _]; subst. simpl in Hh. rewrite Hc in Hh.
  discriminate.
Qed.

Lemma isLF_ws (c : ascii) : Str.isLF c = true -> Str.isWhiteSpace c = true.
Proof. intros H. apply isLF_eq in H. now subst. Qed.

Lemma paragraphs_cons2 (inSep : bool) (a b : ascii) (l : str) :
  Str.splitParagraphsFrom inSep (a :: b :: l)
  = if inSep && Str.isLF a then Str.splitParagraphsFrom true (b :: l)
    else if Str.isLF a && Str.isLF b
         then [] :: Str.splitParagraphsFrom true l
         else Str.consHead a (Str.splitParagraphsFrom false (b :: l)).
Proof. reflexivity. Qed.

Lemma consHead_Forall (Q : ascii -> Prop) (c : ascii) (l : list str) :
  Q c -> Forall (Forall Q) l -> Forall (Forall Q) (Str.consHead c l).
Proof.
  intros Hc Hl. destruct Hl as [|h r Hh Hr]; simpl.
  - repeat constructor. exact Hc.
  - constructor; [now constructor|exact Hr].
Qed.

Lemma consHead_Forall_inv (Q : ascii -> Prop) (c : ascii) (l : list str) :
  Forall (Forall Q) (Str.consHead c l) -> Q c /\ Forall (Forall Q) l.
Proof.
  destruct l as [|h r]; simpl; intros H; inversion H as [|? ? H1 H2]; subst.
  - inversion H1; subst. split; [assumption|constructor].
  - inversion H1; subst. split; [assumption|]. now constructor.
Qed.

(** Every paragraph is made of characters of the text. *)
Lemma paragraphs_Forall (Q : ascii -> Prop) (s : str) :
  Forall Q s ->
  forall inSep, Forall (Forall Q) (Str.splitParagraphsFrom inSep s).
Proof.
  induction s as [|a|a b l IH1 IH2] using list_ind2; intros H inSep.
  - repeat constructor.
  - simpl. destruct (inSep && Str.isLF a); repeat constructor.
    now inversion H.
  - rewrite paragraphs_cons2. inversion H as [|? ? Ha Hr]; subst.
    inversion Hr as [|? ? Hb Hl]; subst.
    destruct (inSep && Str.isLF a); [now apply IH2|].
    destruct (Str.isLF a && Str.isLF b).
    + constructor; [constructor|now apply IH1].
    + apply consHead_Forall; [exact Ha|now apply IH2].
Qed.

(** Every character of the text is a line feed or in a paragraph. *)
Lemma paragraphs_Forall_inv (Q : ascii -> Prop) (s : str) :
  Q Str.LF ->
  forall inSep, Forall (Forall Q) (Str.splitParagraphsFrom inSep s) ->
                Forall Q s.
Proof.
  intros HLF.
  induction s as [|a|a b l IH1 IH2] using list_ind2; intros inSep H.
  - constructor.
  - simpl in H. destruct (Str.isLF a) eqn:Ea.
    + apply isLF_eq in Ea. subst. repeat constructor. exact HLF.
    + rewrite andb_false_r in H. simpl in H.
      inversion H as [|? ? H1 _]; subst. exact H1.
  - rewrite paragraphs_cons2 in H.
    destruct (Str.isLF a) eqn:Ea.
    + assert (Qa : Q a) by (apply isLF_eq in Ea; now subst).
      destruct inSep; cbn [andb] in H.
      * constructor; [exact Qa|]. now apply (IH2 true).
      * destruct (Str.isLF b) eqn:Eb.
        -- assert (Qb : Q b) by (apply isLF_eq in Eb; now subst).
           inversion H; subst. repeat (constructor; try assumption).
           now apply (IH1 true).
        -- apply consHead_Forall_inv in H. destruct H as [_ H].
           constructor; [exact Qa|]. now apply (IH2 false).
    + rewrite andb_false_r in H. cbn [andb] in H.
      apply consHead_Forall_inv in H. destruct H as [Qa H].
      constructor; [exact Qa|]. now apply (IH2 false).
Qed.

Lemma solidParagraphs_blank (text : str) :
  blank text <-> solidParagraphs text = [].
Proof.
  unfold solidParagraphs, Str.splitParagraphs. split.
  - intros H. pose proof (paragraphs_Forall _ text H false) as Hl.
    induction Hl as [|p l Hp _ IH]; [reflexivity|].
    simpl. rewrite (trim_blank p Hp). exact IH.
  - intros H.
    apply (paragraphs_Forall_inv (fun c => Str.isWhiteSpace c = true) text
             eq_refl false).
    revert H. generalize (Str.splitParagraphsFrom false text).
    induction l as [|p l IH]; simpl; [constructor|].
    destruct (Str.trim p) eqn:E; simpl; [|discriminate].
    intros H. constructor; [now apply trim_empty_blank|auto].
Qed.

(** Chunking loses no text and invents none: the chunks of [chunkText],
    joined by blank lines, are the trimmed paragraphs that hold text, joined
    by blank lines, whatever the chunk size. *)
Theorem chunkText_preserves_text :
  forall (text : str) (maxChunkSize : option nat),
    join2 (chunkText text maxChunkSize) = join2 (solidParagraphs text).
Proof.
  intros text maxChunkSize.
  pose proof (chunkText_cases text maxChunkSize) as H. cbv zeta in H.
  set (m := match maxChunkSize with Some m => m | None => 1000 end) in *.
  destruct (paragraphChunks_inv text m) as [[chunks cur] [Inv E]].
  destruct Inv as [Hc Ho Ht _ Hp]. cbn [fst snd] in *.
  destruct H as [[E1 E2]|[E1 E2]]; rewrite E2.
  - rewrite E1 in E. rewrite <- E in Ht.
    assert (Hs : solidParagraphs text = []).
    { destruct (solidParagraphs text) as [|p ps]; [reflexivity|].
      exfalso. symmetry in Ht.
      revert Ht. apply join_nonempty; [now apply solid_nonempty|discriminate]. }
    rewrite Hs. apply solidParagraphs_blank in Hs.
    now rewrite (trim_blank text Hs).
  - now rewrite E.
Qed.

(** A chunk exceeds [maxChunkSize] by at most the two characters of one
    separator, unless it is a single paragraph (which is never split). *)
Theorem chunkText_size_bound :
  forall (text : str) (maxChunkSize : option nat),
    let m := match maxChunkSize with Some m => m | None => 1000 end in
    Forall (fun chunk => In chunk (solidParagraphs text)
                         \/ length chunk <= m + 2)
      (chunkText text maxChunkSize).
Proof.
  intros text maxChunkSize m.
  pose proof (chunkText_cases text maxChunkSize) as H. cbv zeta in H.
  fold m in H.
  destruct (paragraphChunks_inv text m) as [[chunks cur] [Inv E]].
  destruct Inv as [Hc Ho Ht Hs Hp]. cbn [fst snd] in *.
  destruct H as [[E1 E2]|[E1 E2]]; rewrite E2.
  - rewrite E1 in E. rewrite <- E in Ht.
    assert (Hb : solidParagraphs text = []).
    { destruct (solidParagraphs text) as [|p ps]; [reflexivity|].
      exfalso. symmetry in Ht.
      revert Ht. apply join_nonempty; [now apply solid_nonempty|discriminate]. }
    apply solidParagraphs_blank in Hb. rewrite (trim_blank text Hb).
    constructor; [|constructor]. right. simpl. lia.
  - now rewrite E.
Qed.

(** A text of white space only (the empty text too) gives exactly one
    chunk, the empty one; any other text gives only chunks that hold text. *)
Theorem chunkText_blank_or_solid :
  forall (text : str) (maxChunkSize : option nat),
    (blank text -> chunkText text maxChunkSize = [[]])
    /\ (~ blank text ->
        Forall (fun chunk => chunk <> []) (chunkText text maxChunkSize)).
Proof.
  intros text maxChunkSize.
  pose proof (chunkText_cases text maxChunkSize) as H. cbv zeta in H.
  set (m := match maxChunkSize with Some m => m | None => 1000 end) in *.
  destruct (paragraphChunks_inv text m) as [[chunks cur] [Inv E]].
  destruct Inv as [Hc Ho Ht _ Hp]. cbn [fst snd] in *.
  assert (Hempty : paragraphChunks text m = [] -> blank text).
  { intros E1. rewrite E1 in E. rewrite <- E in Ht.
    apply solidParagraphs_blank.
    destruct (solidParagraphs text) as [|p ps]; [reflexivity|].
    exfalso. symmetry in Ht.
    revert Ht. apply join_nonempty; [now apply solid_nonempty|discriminate]. }
  split.
  - intros Hb. destruct H as [[E1 E2]|[E1 E2]]; rewrite E2.
    + now rewrite (trim_blank text Hb).
    + exfalso. apply E1. rewrite E.
      apply solidParagraphs_blank in Hb. rewrite Hb in Ht.
      pose proof (withOpen_solid chunks cur Hc Ho) as Hw.
      destruct (withOpen chunks cur) as [|c cs]; [reflexivity|].
      exfalso. revert Ht.
      apply join_nonempty; [now apply solid_nonempty|discriminate].
  - intros Hnb. destruct H as [[E1 E2]|[E1 E2]]; rewrite E2.
    + exfalso. auto.
    + rewrite E. apply solid_nonempty. now apply withOpen_solid.
Qed.

End ChunkFacts.

(** ** The chat endpoints: what is saved and what is answered *)
Section HandlerFacts.
Import Completion ChatController.

Variable svc : Retrieval.Services.
Variable openai : Completion.OpenAI.
Variable cuid : nat -> str.
Variable decimalOf : Q -> Z * Z.

Lemma getConversation_exists (conversationId userId : str) (db : Db.t)
  (found : Conversation.t * list Message.t) :
  ChatService.getConversation conversationId userId db = Some found ->
  existsb (fun c => Str.eqb (Conversation.id c) conversationId)
          (Db.conversations db) = true.
Proof.
  unfold ChatService.getConversation.
  destruct (find _ _) as [c|] eqn:E; [|discriminate]. intros _.
  apply find_some in E. destruct E as [Hin Ho].
  apply existsb_exists. exists c. split; [exact Hin|].
  unfold ChatService.ownedBy in Ho. now apply andb_prop in Ho.
Qed.

(** A message can be added to a conversation that exists. *)
Lemma addMessage_Ok (now : nat) (input : ChatService.CreateMessageInput)
  (db : Db.t) :
  existsb (fun c => Str.eqb (Conversation.id c)
                            (ChatService.in_conversationId input))
          (Db.conversations db) = true ->
  exists message db',
    ChatService.addMessage cuid now input db = Ok (message, db')
    /\ Db.messages db' = Db.messages db ++ [message]
    /\ Message.role message = ChatService.in_role input
    /\ Message.content message = ChatService.in_content input
    /\ Message.conversationId message = ChatService.in_conversationId input
    /\ Message.sources message = ChatService.in_sources input
    /\ Message.id message = cuid (Db.created db)
    /\ Db.chunks db' = Db.chunks db
    /\ forall conversationId,
         existsb (fun c => Str.eqb (Conversation.id c) conversationId)
                 (Db.conversations db')
         = existsb (fun c => Str.eqb (Conversation.id c) conversationId)
                   (Db.conversations db).
Proof.
  intros H. unfold ChatService.addMessage. rewrite H.
  eexists. eexists. split; [reflexivity|]. cbn.
  repeat (split; [reflexivity|]).
  intros conversationId. clear H.
  induction (Db.conversations db) as [|c l IH];
    [reflexivity|].
  cbn [map existsb]. rewrite IH. f_equal.
  destruct (Str.eqb (Conversation.id c) (ChatService.in_conversationId input));
    reflexivity.
Qed.

Definition notDone (chunk : StreamChunk) : bool :=
  match chunk with DoneChunk _ => false | _ => true end.

Lemma contentChunks_notDone (deltas : list (option str)) :
  Forall (fun c => notDone c = true) (contentChunks deltas).
Proof.
  unfold contentChunks.
  induction deltas as [|[d|] r IH]; cbn [filterMap]; auto.
  destruct (Str.truthy d); [constructor; [reflexivity|exact IH]|exact IH].
Qed.

(** The generator ends with one [done] chunk when nothing is thrown, and
    yields no [done] chunk when something is. *)
Lemma stream_shape (userMessage : str) (options : CompletionOptions)
  (db : Db.t) :
  let '(_, (chunks, thrown)) := stream svc openai userMessage options db in
  match thrown with
  | None => exists pre sources,
              chunks = pre ++ [DoneChunk sources]
              /\ Forall (fun c => notDone c = true) pre
  | Some _ => Forall (fun c => notDone c = true) chunks
  end.
Proof.
  unfold stream.
  destruct (retrieve _ _ _ _ _ _ _) as [[sources contextPrompt]|e];
    [|constructor].
  set (first := if defaulted (useRAG options) true
                then [SourcesChunk sources] else []).
  assert (Hf : Forall (fun c => notDone c = true) first).
  { unfold first. destruct (defaulted _ _); repeat constructor. }
  destruct (create_stream _ _) as [[deltas [e|]]|e]; [| |exact Hf].
  - apply Forall_app. split; [exact Hf|apply contentChunks_notDone].
  - exists (first ++ contentChunks deltas), sources.
    rewrite <- app_assoc. split; [reflexivity|].
    apply Forall_app. split; [exact Hf|apply contentChunks_notDone].
Qed.

(** Before the [done] chunk the loop writes events other than [done], and
    leaves the database alone. *)
Lemma streamLoop_notDone (now : nat) (conversationId : str)
  (chunks : list StreamChunk) :
  Forall (fun c => notDone c = true) chunks ->
  forall st,
  exists st' events,
    streamLoop cuid decimalOf now conversationId st chunks = (st', None)
    /\ loopDb st' = loopDb st
    /\ written st' = written st ++ map (fun ms => sseEvent (JObj ms)) events
    /\ Forall (fun ms => wellFormedEvent ms /\ ~ eventType ms $"done") events
    /\ fullContent st' = fullContent st ++ concat (flat_map contentPayload events).
Proof.
  induction 1 as [|chunk rest Hc _ IH]; intros st.
  - exists st, []. simpl. rewrite !app_nil_r. repeat split. constructor.
  - destruct chunk as [sources|content|sources]; [| |discriminate].
    + cbn [streamLoop onChunk].
      match goal with
      | |- context [streamLoop _ _ _ _ ?s rest] =>
          destruct (IH s) as [st' [events [E [Hd [Hw [Hn Hf]]]]]]
      end.
      eexists st', (_ :: events). rewrite E. cbn in Hd, Hw, Hf.
      split; [reflexivity|]. split; [exact Hd|].
      split; [rewrite Hw, <- app_assoc; reflexivity|].
      split; [constructor; [split; [|discriminate]|exact Hn]|].
      { right. left. reflexivity. }
      rewrite Hf. reflexivity.
    + cbn [streamLoop onChunk].
      match goal with
      | |- context [streamLoop _ _ _ _ ?s rest] =>
          destruct (IH s) as [st' [events [E [Hd [Hw [Hn Hf]]]]]]
      end.
      eexists st', (_ :: events). rewrite E. cbn in Hd, Hw, Hf.
      split; [reflexivity|]. split; [exact Hd|].
      split; [rewrite Hw, <- app_assoc; reflexivity|].
      split; [constructor; [split; [|discriminate]|exact Hn]|].
      { left. exists content. split; reflexivity. }
      rewrite Hf, <- app_assoc. reflexivity.
Qed.

Lemma streamLoop_app (now : nat) (conversationId : str)
  (pre post : list StreamChunk) (st st' : LoopState) :
  streamLoop cuid decimalOf now conversationId st pre = (st', None) ->
  streamLoop cuid decimalOf now conversationId st (pre ++ post)
  = streamLoop cuid decimalOf now conversationId st' post.
Proof.
  revert st. induction pre as [|chunk pre IH]; intros st; simpl.
  - now intros [= ->].
  - destruct (onChunk _ _ _ _ _ _) as [st1|e]; [apply IH|discriminate].
Qed.

(** The event with which the endpoint ends a stream. *)
Definition doneEvent (messageId : str) : list (str * json) :=
  [ ($"type", JStr $"done");
    ($"data", JObj [($"messageId", JStr messageId)]) ].

(** The loop of the endpoint over what the generator yields. *)
Lemma streamLoop_stream (later : nat) (conversationId : str)
  (chunks : list StreamChunk) (thrown : option AppError) (db : Db.t) :
  match thrown with
  | None => exists pre sources,
              chunks = pre ++ [DoneChunk sources]
              /\ Forall (fun c => notDone c = true) pre
  | Some _ => Forall (fun c => notDone c = true) chunks
  end ->
  existsb (fun c => Str.eqb (Conversation.id c) conversationId)
          (Db.conversations db) = true ->
  exists st events,
    streamLoop cuid decimalOf later conversationId
      {| fullContent := []; sources := []; written := []; loopDb := db |}
      chunks = (st, None)
    /\ Forall (fun ms => wellFormedEvent ms /\ ~ eventType ms $"done") events
    /\ match thrown with
       | Some _ =>
           written st = map (fun ms => sseEvent (JObj ms)) events
           /\ loopDb st = db
       | None =>
           exists a,
             written st
             = map (fun ms => sseEvent (JObj ms))
                   (events ++ [doneEvent (Message.id a)])
             /\ Db.messages (loopDb st) = Db.messages db ++ [a]
             /\ Message.role a = assistant
             /\ Message.conversationId a = conversationId
             /\ Message.content a = concat (flat_map contentPayload events)
       end.
Proof.
  intros Hshape Hex.
  set (st0 := {| fullContent := []; sources := []; written := [];
                 loopDb := db |}).
  destruct thrown as [e|].
  - destruct (streamLoop_notDone later conversationId chunks Hshape st0)
      as [st [events [E [Hd [Hw [Hn _]]]]]].
    exists st, events. split; [exact E|]. split; [exact Hn|].
    split; [exact Hw|exact Hd].
  - destruct Hshape as [pre [srcs [-> Hpre]]].
    destruct (streamLoop_notDone later conversationId pre Hpre st0)
      as [st [events [E [Hd [Hw [Hn Hf]]]]]].
    rewrite (streamLoop_app later conversationId pre _ st0 st E).
    cbn [streamLoop onChunk].
    match goal with
    | |- context [ChatService.addMessage cuid later ?i ?d] =>
        destruct (addMessage_Ok later i d) as [a [db' [Ea [Hm [Hr [Hc [Hi _]]]]]]]
    end.
    { cbn [ChatService.in_conversationId]. rewrite Hd. exact Hex. }
    rewrite Ea. cbn [bind fst snd].
    eexists. exists events. split; [reflexivity|]. split; [exact Hn|].
    exists a. cbn [written loopDb]. rewrite Hw, Hm, Hd, map_app.
    split; [reflexivity|]. split; [reflexivity|]. split; [exact Hr|].
    split; [exact Hi|]. rewrite Hc. cbn [ChatService.in_content].
    rewrite Hf. reflexivity.
Qed.

(** The streaming endpoint saves what it streams. For a conversation of
    the user, the user message is saved first and stays saved whatever
    happens next. When the handler ends the response, exactly one more
    message was saved: the assistant message, whose content is the
    concatenation of the payloads of the [content] events written, and
    whose id the final [done] event carries. When it does not end the
    response, an error went to [next], no [done] event was written, and no
    assistant message was saved. *)
Theorem sendMessageStream_saves_what_it_streams :
  forall (now later : nat) (req : Request) (db : Db.t)
         (conversation : Conversation.t) (history : list Message.t),
    ChatService.getConversation (conversationId req) (userId req) db
    = Some (conversation, history) ->
    let out := sendMessageStream svc openai cuid decimalOf now later req db in
    exists (events : list (list (str * json))) (u : Message.t),
      Message.role u = user
      /\ Message.content u = content req
      /\ Message.conversationId u = conversationId req
      /\ Forall (fun ms => ~ eventType ms $"done") events
      /\ (ended out = true ->
          exists a : Message.t,
            writes out
            = map (fun ms => sseEvent (JObj ms))
                  (events ++ [doneEvent (Message.id a)])
            /\ Db.messages (ChatController.db out) = Db.messages db ++ [u; a]
            /\ Message.role a = assistant
            /\ Message.conversationId a = conversationId req
            /\ Message.content a = concat (flat_map contentPayload events)
            /\ nextError out = None)
      /\ (ended out = false ->
          writes out = map (fun ms => sseEvent (JObj ms)) events
          /\ Db.messages (ChatController.db out) = Db.messages db ++ [u]
          /\ nextError out <> None).
Proof.
  intros now later req db conversation history Hg out. subst out.
  pose proof (getConversation_exists _ _ _ _ Hg) as Hex.
  unfold sendMessageStream. rewrite Hg.
  match goal with
  | |- context [ChatService.addMessage cuid now ?i db] =>
      destruct (addMessage_Ok now i db Hex)
        as [u [db1 [Eu [Hm [Hr [Hc [Hi [_ [_ [_ Hk]]]]]]]]]]
  end.
  rewrite Eu.
  match goal with
  | |- context [stream svc openai ?m ?o db1] =>
      pose proof (stream_shape m o db1) as Hs;
      destruct (stream svc openai m o db1) as [requests [chunks thrown]]
  end.
  destruct (streamLoop_stream later (conversationId req) chunks thrown db1 Hs)
    as [st [events [E [Hn Hrest]]]].
  { rewrite Hk. exact Hex. }
  rewrite E. exists events, u.
  split; [exact Hr|]. split; [exact Hc|]. split; [exact Hi|].
  split; [eapply Forall_impl; [|exact Hn]; now intros ms [_ H]|].
  destruct thrown as [e|]; cbn [ended writes ChatController.db nextError].
  - destruct Hrest as [Hw Hd]. split; [discriminate|]. intros _.
    rewrite Hw, Hd, Hm. repeat split. discriminate.
  - destruct Hrest as [a [Hw [Hm' [Hr' [Hi' Hc']]]]].
    split; [|discriminate]. intros _. exists a.
    rewrite Hw, Hm', Hm, <- app_assoc. repeat split; assumption.
Qed.

(** No conversation with this id belongs to this user. *)
Definition foreignTo (conversationId userId : str) (db : Db.t) : Prop :=
  forall c, In c (Db.conversations db) ->
            Conversation.id c = conversationId ->
            Conversation.userId c <> userId.

Lemma foreignTo_ownedBy (conversationId userId : str) (db : Db.t) :
  foreignTo conversationId userId db ->
  forall c, In c (Db.conversations db) ->
            ChatService.ownedBy conversationId userId c = false.
Proof.
  intros H c Hc.
  destruct (ChatService.ownedBy conversationId userId c) eqn:E; [|reflexivity].
  apply ownedBy_true in E. destruct E as [E1 E2]. now destruct (H c Hc E1).
Qed.

(** A conversation that is not the user's is answered as missing by
    every endpoint that reads it: [getConversation], [sendMessage] and
    [sendMessageStream] pass an error to [next] that the error handler
    answers with 404, [Conversation not found] and CONVERSATION_NOT_FOUND
    in every environment; nothing is saved, nothing is written to the
    response, and no request goes to the completion API. *)
Theorem foreign_conversation_is_not_found :
  forall (NODE_ENV : option str) (now later : nat) (req : Request) (db : Db.t),
    foreignTo (conversationId req) (userId req) db ->
    let answer :=
      {| ErrorMiddleware.status := 404%Z;
         ErrorMiddleware.success := false;
         ErrorMiddleware.errorMessage := $"Conversation not found";
         ErrorMiddleware.errorCode := Some $"CONVERSATION_NOT_FOUND" |} in
    let read := ChatHandlers.getConversation (conversationId req) (userId req) db in
    let sent :=
      ChatHandlers.sendMessage svc openai cuid decimalOf now later req db in
    let streamed := sendMessageStream svc openai cuid decimalOf now later req db in
    (exists e, ChatHandlers.response read = Throw e
               /\ ErrorMiddleware.errorHandler NODE_ENV e = answer)
    /\ ChatHandlers.db read = db
    /\ (exists e, ChatHandlers.response sent = Throw e
                  /\ ErrorMiddleware.errorHandler NODE_ENV e = answer)
    /\ ChatHandlers.db sent = db
    /\ ChatHandlers.requests sent = []
    /\ (exists e, nextError streamed = Some e
                  /\ ErrorMiddleware.errorHandler NODE_ENV e = answer)
    /\ ChatController.db streamed = db
    /\ requests streamed = []
    /\ headers streamed = []
    /\ writes streamed = []
    /\ ended streamed = false.
Proof.
  intros NODE_ENV now later req db H answer read sent streamed.
  subst read sent streamed.
  assert (Hg : ChatService.getConversation (conversationId req) (userId req) db
               = None).
  { unfold ChatService.getConversation.
    now rewrite (find_all_false _ _ (foreignTo_ownedBy _ _ _ H)). }
  unfold ChatHandlers.getConversation, ChatHandlers.sendMessage,
    sendMessageStream.
  rewrite Hg. cbn.
  repeat split; eexists; split; reflexivity.
Qed.

(** For a conversation that is not the user's, [deleteConversation]
    and [updateSettings] still answer 200 with [{ deleted: true }] and
    [{ updated: true }], although the database is left as it was. *)
Theorem delete_and_update_answer_success :
  forall (now : nat) (conversationId userId : str)
         (settings : ConversationSettings.t) (db : Db.t),
    foreignTo conversationId userId db ->
    ChatHandlers.deleteConversation conversationId userId db
    = {| ChatHandlers.response :=
           Ok {| ChatHandlers.status := 200%Z;
                 ChatHandlers.success := true;
                 ChatHandlers.data := {| ChatHandlers.deleted := true |} |};
         ChatHandlers.requests := [];
         ChatHandlers.db := db |}
    /\ ChatHandlers.updateSettings now conversationId userId settings db
       = {| ChatHandlers.response :=
              Ok {| ChatHandlers.status := 200%Z;
                    ChatHandlers.success := true;
                    ChatHandlers.data := {| ChatHandlers.updated := true |} |};
            ChatHandlers.requests := [];
            ChatHandlers.db := db |}.
Proof.
  intros now conversationId userId settings db H.
  pose proof (foreignTo_ownedBy _ _ _ H) as Hno.
  unfold ChatHandlers.deleteConversation, ChatHandlers.updateSettings,
    ChatService.deleteConversation, ChatService.updateConversationSettings.
  rewrite (filter_all_false _ _ Hno). cbn [existsb negb].
  rewrite (filter_all_true (fun c => negb (ChatService.ownedBy conversationId userId c))).
  2:{ intros c Hc. now rewrite (Hno c Hc). }
  rewrite (filter_all_true (fun m => true)) by reflexivity.
  rewrite (map_id_on _ (Db.conversations db)).
  2:{ intros c Hc. now rewrite (Hno c Hc). }
  destruct db; split; reflexivity.
Qed.

(** [sendMessage] for a conversation of the user saves the user message
    first, and it stays saved when the completion fails. When the handler
    answers, it answers 200 with the two messages it saved, in this order
    and as the last two of the table; the assistant message holds the text
    and the sources of the completion; and the one request sent to the API
    carries, after the system message, the earlier messages of the
    conversation and then the new one. *)
Theorem sendMessage_saves_both_messages :
  forall (now later : nat) (req : Request) (db : Db.t)
         (conversation : Conversation.t) (history : list Message.t),
    ChatService.getConversation (conversationId req) (userId req) db
    = Some (conversation, history) ->
    let h := ChatHandlers.sendMessage svc openai cuid decimalOf now later req db in
    exists u : Message.t,
      Message.role u = user
      /\ Message.content u = content req
      /\ Message.conversationId u = conversationId req
      /\ match ChatHandlers.response h with
         | Throw _ => Db.messages (ChatHandlers.db h) = Db.messages db ++ [u]
         | Ok r =>
             let a := ChatHandlers.assistantMessage (ChatHandlers.data r) in
             ChatHandlers.status r = 200%Z
             /\ ChatHandlers.userMessage (ChatHandlers.data r) = u
             /\ Db.messages (ChatHandlers.db h) = Db.messages db ++ [u; a]
             /\ Message.role a = assistant
             /\ Message.conversationId a = conversationId req
             /\ Message.sources a
                = Some (JArr (map (searchResultJson decimalOf)
                                  (ChatHandlers.sources (ChatHandlers.data r))))
             /\ exists request completion,
                  ChatHandlers.requests h = [request]
                  /\ create openai request = Ok completion
                  /\ Message.content a
                     = match choices completion with
                       | Some text :: _ => text
                       | _ => []
                       end
                  /\ tl (messages request)
                     = map (fun m => {| role := Message.role m;
                                        Completion.content := Message.content m |})
                           history
                       ++ [{| role := user;
                              Completion.content := content req |}]
         end.
Proof.
  intros now later req db conversation history Hg h. subst h.
  pose proof (getConversation_exists _ _ _ _ Hg) as Hex.
  unfold ChatHandlers.sendMessage. rewrite Hg.
  match goal with
  | |- context [ChatService.addMessage cuid now ?i db] =>
      destruct (addMessage_Ok now i db Hex)
        as [u [db1 [Eu [Hm [Hr [Hc [Hi [_ [_ [_ Hk]]]]]]]]]]
  end.
  rewrite Eu. exists u.
  split; [exact Hr|]. split; [exact Hc|]. split; [exact Hi|].
  unfold complete. cbn [defaulted conversationHistory useRAG topK threshold
                        documentIds].
  destruct (retrieve _ _ _ _ _ _ _) as [[srcs contextPrompt]|e];
    [|exact Hm].
  destruct (create openai _) as [completion|e] eqn:Ec; cbn [bind];
    [|exact Hm].
  destruct (choices completion) as [|choice rest] eqn:Ech; [exact Hm|].
  match goal with
  | |- context [ChatService.addMessage cuid later ?i db1] =>
      destruct (addMessage_Ok later i db1)
        as [a [db2 [Ea [Hm2 [Hr2 [Hc2 [Hi2 [Hs2 _]]]]]]]]
  end.
  { cbn [ChatService.in_conversationId]. rewrite Hk. exact Hex. }
  rewrite Ea. cbn.
  split; [reflexivity|]. split; [reflexivity|].
  split; [rewrite Hm2, Hm, <- app_assoc; reflexivity|].
  split; [exact Hr2|]. split; [exact Hi2|]. split; [exact Hs2|].
  eexists. exists completion. split; [reflexivity|]. split; [exact Ec|].
  split; [|cbn [messages tl]; rewrite map_map; reflexivity].
  rewrite Hc2, Ech. cbn. now destruct choice.
Qed.

(** A failure of the embedding API reaches [next] as it is. For a
    conversation of the user, when the embedding request for the message
    fails with [e]: [sendMessage] and [sendMessageStream] pass [e] itself
    to [next], send no request to the completion API, and have saved the
    user message and nothing else; the streaming handler has set its three
    headers but has written nothing and has not ended the response. *)
Theorem embedding_failure_reaches_next :
  forall (now later : nat) (req : Request) (db : Db.t)
         (conversation : Conversation.t) (history : list Message.t)
         (e : AppError),
    ChatService.getConversation (conversationId req) (userId req) db
    = Some (conversation, history) ->
    Retrieval.embeddings_create svc Retrieval.EMBEDDING_MODEL (content req)
    = Throw e ->
    let sent :=
      ChatHandlers.sendMessage svc openai cuid decimalOf now later req db in
    let streamed := sendMessageStream svc openai cuid decimalOf now later req db in
    exists u : Message.t,
      Message.role u = user
      /\ Message.content u = content req
      /\ ChatHandlers.response sent = Throw e
      /\ ChatHandlers.requests sent = []
      /\ Db.messages (ChatHandlers.db sent) = Db.messages db ++ [u]
      /\ nextError streamed = Some e
      /\ requests streamed = []
      /\ headers streamed = sseHeaders
      /\ writes streamed = []
      /\ ended streamed = false
      /\ Db.messages (ChatController.db streamed) = Db.messages db ++ [u].
Proof.
  intros now later req db conversation history e Hg He sent streamed.
  subst sent streamed.
  pose proof (getConversation_exists _ _ _ _ Hg) as Hex.
  unfold ChatHandlers.sendMessage, sendMessageStream. rewrite Hg.
  match goal with
  | |- context [ChatService.addMessage cuid now ?i db] =>
      destruct (addMessage_Ok now i db Hex)
        as [u [db1 [Eu [Hm [Hr [Hc _]]]]]]
  end.
  rewrite Eu. exists u. split; [exact Hr|]. split; [exact Hc|].
  unfold complete, stream, retrieve, Retrieval.search, Retrieval.embed.
  cbn [defaulted useRAG]. rewrite He. cbn. rewrite Hm.
  repeat split; reflexivity.
Qed.

(** The texts of the [content] chunks, and the deltas that are strings. *)
Definition chunkTexts (chunks : list StreamChunk) : list str :=
  flat_map (fun c => match c with ContentChunk t => [t] | _ => [] end) chunks.

Definition deltaTexts (deltas : list (option str)) : list str :=
  flat_map (fun d => match d with Some t => [t] | None => [] end) deltas.

Lemma contentChunks_texts (deltas : list (option str)) :
  concat (chunkTexts (contentChunks deltas)) = concat (deltaTexts deltas)
  /\ Forall (fun t => t <> []) (chunkTexts (contentChunks deltas)).
Proof.
  unfold contentChunks.
  induction deltas as [|delta r [IH1 IH2]]; cbn [filterMap].
  - split; [reflexivity|constructor].
  - destruct delta as [[|c d]|]; cbn [Str.truthy].
    + split; [exact IH1|exact IH2].
    + split.
      * change (concat (chunkTexts (ContentChunk (c :: d) :: ?l)))
          with ((c :: d) ++ concat (chunkTexts l)).
        rewrite IH1. reflexivity.
      * constructor; [discriminate|exact IH2].
    + split; [exact IH1|exact IH2].
Qed.

Lemma chunkTexts_app (a b : list StreamChunk) :
  chunkTexts (a ++ b) = chunkTexts a ++ chunkTexts b.
Proof. unfold chunkTexts. apply flat_map_app. Qed.

(** What the generator [stream] yields for an answer of the API: the
    texts of its [content] chunks are never empty and, concatenated, are
    the string deltas of the API concatenated; the error that cuts the
    API's stream is the error thrown; and when nothing is thrown the last
    chunk is the one [done] chunk, which carries the sources of the
    [sources] chunk that came first. *)
Theorem stream_yields_the_deltas :
  forall (userMessage : str) (options : CompletionOptions) (db : Db.t)
         (request : ChatCompletionRequest) (deltas : list (option str))
         (cut : option AppError),
    fst (stream svc openai userMessage options db) = [request] ->
    create_stream openai request = Ok (deltas, cut) ->
    let chunks := fst (snd (stream svc openai userMessage options db)) in
    snd (snd (stream svc openai userMessage options db)) = cut
    /\ concat (chunkTexts chunks) = concat (deltaTexts deltas)
    /\ Forall (fun t => t <> []) (chunkTexts chunks)
    /\ (cut <> None -> Forall (fun c => notDone c = true) chunks)
    /\ (cut = None ->
        exists pre sources,
          chunks = pre ++ [DoneChunk sources]
          /\ Forall (fun c => notDone c = true) pre
          /\ (defaulted (useRAG options) true = true ->
              hd_error chunks = Some (SourcesChunk sources))
          /\ (defaulted (useRAG options) true = false ->
              sources = []
              /\ Forall (fun c => match c with SourcesChunk _ => False
                                          | _ => True end) chunks)).
Proof.
  intros userMessage options db request deltas cut.
  unfold stream.
  destruct (retrieve _ _ _ _ _ _ _) as [[sources contextPrompt]|e] eqn:Er;
    [|discriminate].
  cbn [fst snd]. intros [= <-] Hc. rewrite Hc.
  destruct (contentChunks_texts deltas) as [Ht Hn].
  pose proof (contentChunks_notDone deltas) as Hd.
  set (first := if defaulted (useRAG options) true
                then [SourcesChunk sources] else []).
  assert (Hf : chunkTexts first = []).
  { unfold first. now destruct (defaulted _ _). }
  assert (Hfd : Forall (fun c => notDone c = true) first).
  { unfold first. destruct (defaulted _ _); repeat constructor. }
  destruct cut as [e|]; cbn [fst snd].
  - split; [reflexivity|]. rewrite chunkTexts_app, Hf.
    split; [exact Ht|]. split; [exact Hn|].
    split; [|discriminate]. intros _. apply Forall_app. now split.
  - split; [reflexivity|]. rewrite !chunkTexts_app, Hf.
    cbn [chunkTexts flat_map app]. rewrite app_nil_r.
    split; [exact Ht|]. split; [exact Hn|].
    split; [congruence|]. intros _.
    exists (first ++ contentChunks deltas), sources.
    rewrite <- app_assoc. split; [reflexivity|].
    split; [apply Forall_app; now split|].
    unfold first. split.
    + intros ->. reflexivity.
    + intros Eu. rewrite Eu. split.
      * unfold retrieve in Er. rewrite Eu in Er. now injection Er as <- _.
      * cbn [app].
        apply Forall_app. split; [|repeat constructor].
        clear. unfold contentChunks.
        induction deltas as [|[d|] r IH]; cbn [filterMap]; auto.
        destruct (Str.truthy d); [constructor; [exact I|exact IH]|exact IH].
Qed.

End HandlerFacts.

Lemma sendMessageStream_saves_what_it_streams_witness :
  ChatController.ended demoOutcome = true
  /\ exists (events : list (list (str * json))) (u a : Message.t),
       ChatController.writes demoOutcome
       = map (fun ms => ChatController.sseEvent (JObj ms))
             (events ++ [doneEvent (Message.id a)])
       /\ Db.messages (ChatController.db demoOutcome)
          = Db.messages streamDemoDb ++ [u; a]
       /\ Message.content a = concat (flat_map contentPayload events).
Proof.
  split; [reflexivity|].
  destruct (sendMessageStream_saves_what_it_streams
              demoServices demoOpenAI (fun n => $"id" ++ Str.ofNat n)
              (fun q => (Qfloor (q * 1000), -3)%Z) 10 11
              {| ChatController.userId := $"alice";
                 ChatController.conversationId := $"conv1";
                 ChatController.content := $"q" |}
              streamDemoDb _ _ eq_refl)
    as [events [u [_ [_ [_ [_ [Hok _]]]]]]].
  destruct (Hok eq_refl) as [a [Hw [Hm [_ [_ [Hc _]]]]]].
  exists events, u, a. split; [exact Hw|]. split; [exact Hm|exact Hc].
Defined.

Definition demoRequest (userId : str) : ChatController.Request :=
  {| ChatController.userId := userId;
     ChatController.conversationId := $"conv1";
     ChatController.content := $"q" |}.

Lemma foreign_conversation_is_not_found_witness :
  ChatController.nextError
    (ChatController.sendMessageStream demoServices demoOpenAI
       (fun n => $"id" ++ Str.ofNat n) (fun q => (Qfloor (q * 1000), -3)%Z)
       10 11 (demoRequest $"bob") streamDemoDb)
  = Some ChatHandlers.notFound
  /\ ChatHandlers.db
       (ChatHandlers.sendMessage demoServices demoOpenAI
          (fun n => $"id" ++ Str.ofNat n) (fun q => (Qfloor (q * 1000), -3)%Z)
          10 11 (demoRequest $"bob") streamDemoDb)
     = streamDemoDb.
Proof.
  assert (H : foreignTo $"conv1" $"bob" streamDemoDb).
  { intros c [<-|[]] _. discriminate. }
  destruct (foreign_conversation_is_not_found
              demoServices demoOpenAI (fun n => $"id" ++ Str.ofNat n)
              (fun q => (Qfloor (q * 1000), -3)%Z)
              None 10 11 (demoRequest $"bob") streamDemoDb H)
    as [_ [_ [_ [Hdb _]]]].
  split; [reflexivity|exact Hdb].
Defined.

Lemma delete_and_update_answer_success_witness :
  ChatHandlers.db (ChatHandlers.deleteConversation $"conv1" $"bob" aliceDb)
  = aliceDb
  /\ ChatHandlers.response
       (ChatHandlers.updateSettings 9 $"conv1" $"bob" DEFAULT_SETTINGS aliceDb)
     = Ok (ChatHandlers.sendSuccess {| ChatHandlers.updated := true |} None).
Proof.
  assert (H : foreignTo $"conv1" $"bob" aliceDb).
  { intros c [<-|[]] _. discriminate. }
  destruct (delete_and_update_answer_success 9 $"conv1" $"bob"
              DEFAULT_SETTINGS aliceDb H) as [Hd Hu].
  rewrite Hd, Hu. split; reflexivity.
Defined.

Lemma sendMessage_saves_both_messages_witness :
  map Message.content
    (Db.messages
       (ChatHandlers.db
          (ChatHandlers.sendMessage demoServices demoOpenAI
             (fun n => $"id" ++ Str.ofNat n)
             (fun q => (Qfloor (q * 1000), -3)%Z)
             10 11 (demoRequest $"alice") streamDemoDb)))
  = [$"hello"; $"q"; $"Hi."]
  /\ exists u : Message.t,
       Message.role u = user /\ Message.content u = $"q".
Proof.
  split; [reflexivity|].
  destruct (sendMessage_saves_both_messages
              demoServices demoOpenAI (fun n => $"id" ++ Str.ofNat n)
              (fun q => (Qfloor (q * 1000), -3)%Z) 10 11
              (demoRequest $"alice") streamDemoDb _ _ eq_refl)
    as [u [Hr [Hc _]]].
  exists u. split; [exact Hr|exact Hc].
Defined.

(** An embedding API that is down. *)
Definition downServices : Retrieval.Services :=
  {| Retrieval.embeddings_create :=
       fun _ _ => Throw (Retrieval.typeError $"Connection error.");
     Retrieval.cosine_distance := Retrieval.cosine_distance demoServices |}.

Lemma embedding_failure_reaches_next_witness :
  ChatController.nextError
    (ChatController.sendMessageStream downServices demoOpenAI
       (fun n => $"id" ++ Str.ofNat n) (fun q => (Qfloor (q * 1000), -3)%Z)
       10 11 (demoRequest $"alice") streamDemoDb)
  = Some (Retrieval.typeError $"Connection error.")
  /\ ChatHandlers.requests
       (ChatHandlers.sendMessage downServices demoOpenAI
          (fun n => $"id" ++ Str.ofNat n) (fun q => (Qfloor (q * 1000), -3)%Z)
          10 11 (demoRequest $"alice") streamDemoDb)
     = [].
Proof.
  destruct (embedding_failure_reaches_next
              downServices demoOpenAI (fun n => $"id" ++ Str.ofNat n)
              (fun q => (Qfloor (q * 1000), -3)%Z) 10 11
              (demoRequest $"alice") streamDemoDb _ _ _ eq_refl eq_refl)
    as [u [_ [_ [_ [Hr [_ [He _]]]]]]].
  split; [exact He|exact Hr].
Defined.

Lemma stream_yields_the_deltas_witness :
  concat
    (chunkTexts
       (fst (snd (Completion.stream demoServices demoOpenAI $"q"
                    demoCompletionOptions demoDb))))
  = $"Hi.".
Proof.
  destruct (stream_yields_the_deltas demoServices demoOpenAI $"q"
              demoCompletionOptions demoDb _ _ _ eq_refl eq_refl)
    as [_ [Ht _]].
  rewrite Ht. reflexivity.
Defined.

(** ** The two clients of the streaming endpoint *)
Section ClientFacts.
Import ChatStreaming.

Variable apiUrl : str.
Variable ToString : option json -> str.

Lemma split_noLF (s : str) : noLF s -> Str.splitOnBlankLine s = [s].
Proof.
  induction 1 as [|c r Hc Hr IH]; [reflexivity|].
  destruct r as [|d r']; [reflexivity|].
  rewrite split_cons2, Hc, IH. reflexivity.
Qed.

(** The text of lines that each end with a blank line. *)
Definition framed (lines : list str) : str :=
  concat (map (fun line => line ++ [Str.LF; Str.LF]) lines).

Lemma split_framed (lines : list str) (tail : str) :
  Forall noLF lines -> noLF tail ->
  Str.splitOnBlankLine (framed lines ++ tail) = lines ++ [tail].
Proof.
  intros Hl Ht. induction Hl as [|line lines Hline _ IH].
  - now apply split_noLF.
  - unfold framed in *. cbn [map concat]. rewrite <- !app_assoc.
    cbn [app]. rewrite split_frame by exact Hline. now rewrite IH.
Qed.

(** The hook reads the text of the body, not its reads: two bodies
    with the same text, cut into reads in any two ways, leave the [try]
    block with the same state and the same effects. *)
Theorem tryBlock_reads_independent :
  forall (conversationId content : str) (values values' : list str)
         (ending : ReadEnd) (w : World),
    concat values = concat values' ->
    tryBlock apiUrl ToString conversationId content
      (FetchResolves true (Some {| reads := values; ending := ending |})) w
    = tryBlock apiUrl ToString conversationId content
        (FetchResolves true (Some {| reads := values'; ending := ending |})) w.
Proof.
  intros conversationId content values values' ending w H.
  unfold tryBlock. cbn [negb reads ChatStreaming.ending].
  rewrite !readLoop_spec by reflexivity. cbn [app fst]. now rewrite H.
Qed.

(** The hook handles exactly the lines that a blank line ends, once
    each and in order: when the text of the body is lines without line
    feed, each followed by a blank line, and then a rest without line feed
    (an event cut short, or nothing), the [try] block leaves the world
    that handling the lines one after the other gives; the rest is never
    handled. *)
Theorem tryBlock_handles_complete_lines :
  forall (conversationId content : str) (lines : list str) (tail : str)
         (values : list str) (ending : ReadEnd) (w : World),
    Forall noLF lines -> noLF tail ->
    concat values = framed lines ++ tail ->
    fst (tryBlock apiUrl ToString conversationId content
           (FetchResolves true (Some {| reads := values; ending := ending |})) w)
    = fold_left (onLine ToString conversationId) lines
        (perform
           (Fetch (apiUrl ++ $"/api/chat/conversations/" ++ conversationId
                          ++ $"/messages/stream")
                  (JSON.stringify (JObj [($"content", JStr content)])))
           w).
Proof.
  intros conversationId content lines tail values ending w Hl Ht Hv.
  unfold tryBlock. cbn [negb reads fst].
  rewrite readLoop_spec by reflexivity. cbn [app fst].
  rewrite Hv, split_framed by assumption.
  now rewrite removelast_last.
Qed.

(** *** [chatApi.sendMessageStream] *)

Lemma onLines_app (cb : ChatApi.Callbacks) (a b : list str) :
  ChatApi.onLines cb (a ++ b)
  = match ChatApi.onLines cb a with
    | (calls, Some e) => (calls, Some e)
    | (calls, None) =>
        let '(calls', thrown) := ChatApi.onLines cb b in
        (calls ++ calls', thrown)
    end.
Proof.
  induction a as [|line a IH]; cbn [app ChatApi.onLines].
  - now destruct (ChatApi.onLines cb b).
  - destruct (ChatApi.onLine cb line) as [calls [e|]]; [reflexivity|].
    rewrite IH. destruct (ChatApi.onLines cb a) as [calls1 [e|]];
      [reflexivity|].
    destruct (ChatApi.onLines cb b) as [calls2 thrown].
    now rewrite app_assoc.
Qed.

(** The loop over the reads handles the complete lines of the whole text,
    up to the first one that throws. *)
Lemma chatApi_readLoop_spec (cb : ChatApi.Callbacks) (values : list str)
  (ending : ReadEnd) :
  forall buffer : str,
    Str.splitOnBlankLine buffer = [buffer] ->
    ChatApi.readLoop cb values ending buffer
    = match ChatApi.onLines cb
              (removelast (Str.splitOnBlankLine (buffer ++ concat values)))
      with
      | (calls, Some e) => (calls, Some e)
      | (calls, None) =>
          (calls, match ending with
                  | ReadDone => None
                  | ReadThrows e => Some (ChatApi.Rejected e)
                  end)
      end.
Proof.
  induction values as [|value rest IH]; intros buffer Hb.
  - cbn [ChatApi.readLoop concat]. rewrite app_nil_r, Hb. reflexivity.
  - cbn [ChatApi.readLoop concat].
    rewrite app_assoc, (split_app (buffer ++ value) (concat rest)).
    set (lines := Str.splitOnBlankLine (buffer ++ value)).
    set (tail := Str.splitOnBlankLine (last lines [] ++ concat rest)).
    assert (Ht : tail <> []) by apply split_nonempty.
    rewrite removelast_app_nonempty by exact Ht. rewrite onLines_app.
    destruct (ChatApi.onLines cb (removelast lines)) as [calls [e|]];
      [reflexivity|].
    rewrite IH by apply split_last_stable. fold tail.
    destruct (ChatApi.onLines cb (removelast tail)) as [calls' [e|]];
      reflexivity.
Qed.

(** The events of the streaming endpoint. *)
Inductive ServerEvent :=
| ContentEvent (text : str)
| SourcesEvent (sources : json)
| DoneEvent (messageId : str).

Definition eventMembers (e : ServerEvent) : list (str * json) :=
  match e with
  | ContentEvent text => [ ($"type", JStr $"content"); ($"data", JStr text) ]
  | SourcesEvent sources => [ ($"type", JStr $"sources"); ($"data", sources) ]
  | DoneEvent messageId =>
      [ ($"type", JStr $"done");
        ($"data", JObj [($"messageId", JStr messageId)]) ]
  end.

Definition eventText (e : ServerEvent) : list str :=
  match e with ContentEvent text => [text] | _ => [] end.

(** What the endpoint writes for the events. *)
Definition eventStream (events : list ServerEvent) : list str :=
  map (fun e => ChatController.sseEvent (JObj (eventMembers e))) events.

(** The calls that an event is answered with. *)
Definition callsOf (cb : ChatApi.Callbacks) (e : ServerEvent)
  : list ChatApi.Call :=
  match e with
  | ContentEvent text => [ChatApi.OnChunk (Some (JStr text))]
  | SourcesEvent sources =>
      if ChatApi.onSources cb then [ChatApi.OnSources (Some sources)] else []
  | DoneEvent messageId =>
      if ChatApi.onDone cb then [ChatApi.OnDone (Some (JStr messageId))]
      else []
  end.

Lemma chatApi_onLine_event (cb : ChatApi.Callbacks) (e : ServerEvent) :
  ChatApi.onLine cb (eventLine (eventMembers e)) = (callsOf cb e, None).
Proof.
  unfold ChatApi.onLine, eventLine.
  change (Str.startsWith ($"data: " ++ ?x) $"data: ") with true.
  change (Str.slice 6 ($"data: " ++ ?x)) with x.
  rewrite parse_stringify. cbv iota.
  destruct e as [text|sources|messageId], cb as [s d]; destruct s, d;
    reflexivity.
Qed.

Lemma chatApi_onLines_events (cb : ChatApi.Callbacks)
  (events : list ServerEvent) :
  ChatApi.onLines cb (map (fun e => eventLine (eventMembers e)) events)
  = (flat_map (callsOf cb) events, None).
Proof.
  induction events as [|e events IH]; [reflexivity|].
  cbn [map ChatApi.onLines flat_map].
  now rewrite chatApi_onLine_event, IH.
Qed.

Section Server.
Import ChatController.

Variable svc : Retrieval.Services.
Variable openai : Completion.OpenAI.
Variable cuid : nat -> str.
Variable decimalOf : Q -> Z * Z.

Lemma streamLoop_serverEvents (now : nat) (conversationId : str)
  (chunks : list Completion.StreamChunk) :
  forall st,
  exists events,
    written (fst (streamLoop cuid decimalOf now conversationId st chunks))
    = written st ++ eventStream events
    /\ fullContent (fst (streamLoop cuid decimalOf now conversationId st chunks))
       = fullContent st ++ concat (flat_map eventText events).
Proof.
  induction chunks as [|chunk rest IH]; intros st.
  - exists []. cbn. now rewrite !app_nil_r.
  - cbn [streamLoop].
    destruct chunk as [sources|content|sources]; cbn [onChunk].
    + match goal with
      | |- context [streamLoop _ _ _ _ ?s rest] =>
          destruct (IH s) as [events [Hw Hc]]
      end.
      exists (SourcesEvent (JArr (map (searchResultJson decimalOf) sources))
              :: events).
      rewrite Hw, Hc. cbn [written fullContent]. rewrite <- app_assoc.
      split; reflexivity.
    + match goal with
      | |- context [streamLoop _ _ _ _ ?s rest] =>
          destruct (IH s) as [events [Hw Hc]]
      end.
      exists (ContentEvent content :: events).
      rewrite Hw, Hc. cbn [written fullContent]. rewrite <- !app_assoc.
      split; reflexivity.
    + destruct (ChatService.addMessage _ _ _ _) as [[a db']|e]; cbn [bind].
      * match goal with
        | |- context [streamLoop _ _ _ _ ?s rest] =>
            destruct (IH s) as [events [Hw Hc]]
        end.
        exists (DoneEvent (Message.id a) :: events).
        rewrite Hw, Hc. cbn [written fullContent fst]. rewrite <- app_assoc.
        split; reflexivity.
      * exists []. cbn. now rewrite !app_nil_r.
Qed.

Lemma sendMessageStream_serverEvents (now later : nat) (req : Request)
  (db : Db.t) :
  exists events,
    writes (sendMessageStream svc openai cuid decimalOf now later req db)
    = eventStream events.
Proof.
  unfold sendMessageStream.
  destruct (ChatService.getConversation _ _ _) as [[conversation messages]|];
    [|exists []; reflexivity].
  destruct (ChatService.addMessage _ _ _ _) as [[message db']|e];
    [|exists []; reflexivity].
  destruct (Completion.stream _ _ _ _ _) as [requests [chunks thrown]].
  match goal with
  | |- context [streamLoop cuid decimalOf ?n ?c ?s ?l] =>
      destruct (streamLoop_serverEvents n c l s) as [events [Hw _]];
      destruct (streamLoop cuid decimalOf n c s l) as [st loopError]
  end.
  exists events. exact Hw.
Qed.

End Server.

Lemma split_eventStream (events : list ServerEvent) :
  Str.splitOnBlankLine (concat (eventStream events))
  = map (fun e => eventLine (eventMembers e)) events ++ [[]].
Proof.
  induction events as [|e events IH]; [reflexivity|].
  unfold eventStream in *. cbn [map concat].
  rewrite sseEvent_eventLine, <- app_assoc.
  cbn [app]. rewrite split_frame by apply eventLine_noLF. now rewrite IH.
Qed.

(** [chatApi.sendMessageStream] delivers what the endpoint streams.
    For every response of the streaming endpoint, cut into reads in any
    way, the callbacks are called once per event and in the order of the
    events: [onChunk] with the text of every [content] event, [onSources]
    and [onDone] (when given) with the sources and with the message id;
    nothing is thrown while the body is read; and the promise is rejected
    only when the reading itself fails, after these calls. *)
Theorem chatApi_delivers_the_stream :
  forall (svc : Retrieval.Services) (openai : Completion.OpenAI)
         (cuid : nat -> str) (decimalOf : Q -> Z * Z) (now later : nat)
         (req : ChatController.Request) (db : Db.t)
         (cb : ChatApi.Callbacks) (values : list str) (ending : ReadEnd),
    let out :=
      ChatController.sendMessageStream svc openai cuid decimalOf now later
        req db in
    concat values = concat (ChatController.writes out) ->
    exists events : list ServerEvent,
      ChatController.writes out = eventStream events
      /\ ChatApi.sendMessageStream cb
           (FetchResolves true
              (Some {| reads := values; ending := ending |}))
         = (flat_map (callsOf cb) events,
            match ending with
            | ReadDone => None
            | ReadThrows e => Some (ChatApi.Rejected e)
            end).
Proof.
  intros svc openai cuid decimalOf now later req db cb values ending out Hv.
  destruct (sendMessageStream_serverEvents svc openai cuid decimalOf now later
              req db) as [events Hw].
  fold out in Hw. exists events. split; [exact Hw|].
  cbn [ChatApi.sendMessageStream negb reads ChatStreaming.ending].
  rewrite chatApi_readLoop_spec by reflexivity. cbn [app].
  rewrite Hv, Hw, split_eventStream.
  rewrite removelast_last, chatApi_onLines_events. reflexivity.
Qed.

(** A line that starts with [data: ] and does not hold JSON text
    separates the two clients. The line is taken to hold no backslash: a
    text without a backslash has no escape in it, and then [JSON.parse]
    here refuses it exactly when the host's does (the only JSON text that
    [JSON.parseChars] refuses has an escape [\u] of a code unit above
    00FF). After events of the endpoint and before any further lines, such
    a line makes [chatApi.sendMessageStream] reject with the syntax error
    of [JSON.parse]: the callbacks have been called for the events before
    it and are not called for anything after it. The hook skips the line
    and handles the lines after it as if the line were not there. *)
Theorem malformed_line_rejects_or_is_skipped :
  forall (cb : ChatApi.Callbacks) (conversationId content : str)
         (before : list ServerEvent) (bad : str) (after : list str)
         (values : list str) (ending : ReadEnd) (w : World),
    Str.startsWith bad $"data: " = true ->
    ~ In JSON.BS bad ->
    JSON.parse (Str.slice 6 bad) = None ->
    noLF bad -> Forall noLF after ->
    concat values
    = concat (eventStream before) ++ framed (bad :: after) ->
    ChatApi.sendMessageStream cb
      (FetchResolves true (Some {| reads := values; ending := ending |}))
    = (flat_map (callsOf cb) before, Some ChatApi.SyntaxError)
    /\ tryBlock apiUrl ToString conversationId content
         (FetchResolves true (Some {| reads := values; ending := ending |})) w
       = tryBlock apiUrl ToString conversationId content
           (FetchResolves true
              (Some {| reads := [concat (eventStream before) ++ framed after];
                       ending := ending |})) w.
Proof.
  intros cb conversationId content before bad after values ending w
    Hs _ Hp Hb Ha Hv.
  set (lines := map (fun e => eventLine (eventMembers e)) before).
  assert (Hl : Forall noLF lines).
  { unfold lines. apply Forall_forall. intros l Hin.
    apply in_map_iff in Hin. destruct Hin as [e [<- _]].
    apply eventLine_noLF. }
  assert (He : concat (eventStream before) = framed lines).
  { unfold eventStream, framed, lines. rewrite map_map. f_equal. }
  assert (Hf : forall l1 l2, framed (l1 ++ l2) = framed l1 ++ framed l2).
  { intros l1 l2. unfold framed. now rewrite map_app, concat_app. }
  assert (Hsplit : forall rest, Forall noLF rest ->
            removelast (Str.splitOnBlankLine (framed lines ++ framed rest))
            = lines ++ rest).
  { intros rest Hr. rewrite <- Hf, <- (app_nil_r (framed _)).
    rewrite split_framed; [apply removelast_last| |constructor].
    apply Forall_app. now split. }
  split.
  - cbn [ChatApi.sendMessageStream negb reads ChatStreaming.ending].
    rewrite chatApi_readLoop_spec by reflexivity. cbn [app].
    rewrite Hv, He, Hsplit by (constructor; assumption).
    rewrite onLines_app. unfold lines. rewrite chatApi_onLines_events.
    cbn [ChatApi.onLines]. unfold ChatApi.onLine. rewrite Hs, Hp.
    now rewrite app_nil_r.
  - unfold tryBlock. cbn [negb reads ChatStreaming.ending].
    rewrite !readLoop_spec by reflexivity. cbn [app fst concat].
    rewrite app_nil_r, Hv, He, !Hsplit by (try constructor; assumption).
    assert (Hskip : forall w0, onLine ToString conversationId w0 bad = w0).
    { intros w0. unfold onLine. now rewrite Hs, Hp. }
    rewrite !fold_left_app. cbn [fold_left]. now rewrite Hskip.
Qed.

Lemma sseEvent_inj (a b : json) :
  ChatController.sseEvent a = ChatController.sseEvent b -> a = b.
Proof.
  unfold ChatController.sseEvent. intros H.
  apply app_inv_head in H. apply app_inv_tail in H.
  apply (f_equal JSON.parse) in H. rewrite !parse_stringify in H.
  now injection H.
Qed.

Lemma map_sseEvent_inj {A} (f : A -> json) (l l' : list A) :
  (forall x y, f x = f y -> x = y) ->
  map (fun x => ChatController.sseEvent (f x)) l
  = map (fun x => ChatController.sseEvent (f x)) l' ->
  l = l'.
Proof.
  intros Hf. revert l'. induction l as [|x l IH]; intros [|y l'] H;
    try discriminate; [reflexivity|].
  pose proof (f_equal (hd []) H) as H1. pose proof (f_equal (@tl _) H) as H2.
  cbn [map hd tl] in H1, H2. f_equal; [|now apply IH].
  now apply Hf, sseEvent_inj.
Qed.

Lemma eventMembers_inj (x y : ServerEvent) :
  JObj (eventMembers x) = JObj (eventMembers y) -> x = y.
Proof. destruct x, y; cbn; intros H; try discriminate; congruence. Qed.

(** What the user saw is what was saved. For a conversation of the user,
    when the streaming endpoint ends the response and the hook reads it to
    its end, cut into reads in any way: the text that the hook has shown
    when its loop ends is the content of the assistant message that the
    endpoint saved, and so is the concatenation of the chunks that
    [chatApi.sendMessageStream] delivers. *)
Theorem shown_text_is_saved_text :
  forall (svc : Retrieval.Services) (openai : Completion.OpenAI)
         (cuid : nat -> str) (decimalOf : Q -> Z * Z) (now later : nat)
         (req : ChatController.Request) (db : Db.t)
         (conversation : Conversation.t) (history : list Message.t)
         (conversationId content : str) (cb : ChatApi.Callbacks)
         (values : list str) (ending : ReadEnd) (w : World),
    ChatService.getConversation (ChatController.conversationId req)
      (ChatController.userId req) db
    = Some (conversation, history) ->
    let out :=
      ChatController.sendMessageStream svc openai cuid decimalOf now later
        req db in
    ChatController.ended out = true ->
    concat values = concat (ChatController.writes out) ->
    let net :=
      FetchResolves true (Some {| reads := values; ending := ending |}) in
    exists u a : Message.t,
      Db.messages (ChatController.db out) = Db.messages db ++ [u; a]
      /\ Message.role a = assistant
      /\ streamingContent
           (state (fst (tryBlock apiUrl ToString conversationId content net
                          (begin content w))))
         = Message.content a
      /\ concat
           (flat_map (fun call => match call with
                                  | ChatApi.OnChunk (Some (JStr text)) => [text]
                                  | _ => []
                                  end)
                     (fst (ChatApi.sendMessageStream cb net)))
         = Message.content a.
Proof.
  intros svc openai cuid decimalOf now later req db conversation history
    conversationId content cb values ending w Hg out Hended Hv net.
  subst out net.
  pose proof (getConversation_exists _ _ _ _ Hg) as Hex.
  destruct (sendMessageStream_serverEvents svc openai cuid decimalOf now later
              req db) as [sent Hsent].
  revert Hended Hv Hsent. unfold ChatController.sendMessageStream. rewrite Hg.
  match goal with
  | |- context [ChatService.addMessage cuid now ?i db] =>
      destruct (addMessage_Ok cuid now i db Hex)
        as [u [db1 [Eu [Hm [_ [_ [_ [_ [_ [_ Hk]]]]]]]]]]
  end.
  rewrite Eu.
  match goal with
  | |- context [Completion.stream svc openai ?m ?o db1] =>
      pose proof (stream_shape svc openai m o db1) as Hs;
      destruct (Completion.stream svc openai m o db1)
        as [requests [chunks thrown]]
  end.
  destruct (streamLoop_stream cuid decimalOf later
              (ChatController.conversationId req) chunks thrown db1 Hs)
    as [st [events [E [Hn Hrest]]]].
  { rewrite Hk. exact Hex. }
  rewrite E.
  destruct thrown as [e|];
    cbn [ChatController.ended ChatController.writes ChatController.db];
    [discriminate|].
  destruct Hrest as [a [Hw [Hm' [Hr' [_ Hc']]]]].
  intros _ Hv Hsent. exists u, a.
  split; [rewrite Hm', Hm, <- app_assoc; reflexivity|].
  split; [exact Hr'|]. split.
  - cbn [tryBlock negb fst]. rewrite readLoop_spec by reflexivity.
    cbn [app fst reads]. rewrite Hv, Hw, split_events.
    rewrite removelast_last, fold_onLine_events.
    + cbn [begin setError setStreamingSources setStreamingContent
           setIsStreaming setPendingUserMessage perform state
           streamingContent app].
      rewrite flat_map_app, concat_app. cbn. rewrite app_nil_r.
      symmetry. exact Hc'.
    + apply Forall_app. split.
      * eapply Forall_impl; [|exact Hn]. now intros ms [H _].
      * constructor; [|constructor]. right. right. reflexivity.
  - cbn [ChatApi.sendMessageStream negb reads ChatStreaming.ending].
    rewrite chatApi_readLoop_spec by reflexivity. cbn [app].
    rewrite Hv, Hsent, split_eventStream.
    rewrite removelast_last, chatApi_onLines_events.
    cbn [fst].
    destruct (streamLoop_serverEvents cuid decimalOf later
                (ChatController.conversationId req) chunks
                {| ChatController.fullContent := [];
                   ChatController.sources := [];
                   ChatController.written := [];
                   ChatController.loopDb := db1 |})
      as [sent' [Hw' Hf']].
    rewrite E in Hw', Hf'. cbn [fst ChatController.written app
                               ChatController.fullContent] in Hw', Hf'.
    assert (Hsame : sent' = sent).
    { rewrite Hw' in Hsent. unfold eventStream in Hsent.
      apply (map_sseEvent_inj (fun e => JObj (eventMembers e))) in Hsent;
        [exact Hsent|exact eventMembers_inj]. }
    subst sent'.
    assert (Htexts : forall evs,
              flat_map (fun call => match call with
                                    | ChatApi.OnChunk (Some (JStr text)) => [text]
                                    | _ => []
                                    end)
                       (flat_map (callsOf cb) evs)
              = flat_map eventText evs).
    { induction evs as [|ev evs IH]; [reflexivity|].
      cbn [flat_map]. rewrite flat_map_app, IH. f_equal.
      destruct ev, cb as [s d]; cbn; try reflexivity;
        destruct s, d; reflexivity. }
    rewrite Htexts, <- Hf'.
    assert (Hfull : ChatController.fullContent st = Message.content a).
    { destruct (streamLoop_events cuid decimalOf later
                  (ChatController.conversationId req) chunks
                  {| ChatController.fullContent := [];
                     ChatController.sources := [];
                     ChatController.written := [];
                     ChatController.loopDb := db1 |})
        as [events' [Hw2 [_ Hf2]]].
      rewrite E in Hw2, Hf2. cbn [fst ChatController.written app
                                 ChatController.fullContent] in Hw2, Hf2.
      rewrite Hf2, Hc'. rewrite Hw in Hw2.
      assert (Hev : events' = events ++ [doneEvent (Message.id a)]).
      { symmetry.
        apply (map_sseEvent_inj (fun ms => JObj ms)) in Hw2;
          [exact Hw2|now intros x y [= ->]]. }
      rewrite Hev, flat_map_app, concat_app. cbn. now rewrite app_nil_r. }
    exact Hfull.
Qed.

End ClientFacts.

Lemma tryBlock_reads_independent_witness :
  ChatStreaming.tryBlock [] (fun _ => []) $"conv1" $"q"
    (ChatStreaming.FetchResolves true
       (Some {| ChatStreaming.reads := ChatController.writes demoOutcome;
                ChatStreaming.ending := ChatStreaming.ReadDone |}))
    demoWorld
  = ChatStreaming.tryBlock [] (fun _ => []) $"conv1" $"q"
      (ChatStreaming.FetchResolves true
         (Some {| ChatStreaming.reads :=
                    map (fun c => [c])
                        (concat (ChatController.writes demoOutcome));
                  ChatStreaming.ending := ChatStreaming.ReadDone |}))
      demoWorld.
Proof.
  apply (tryBlock_reads_independent [] (fun _ => []) $"conv1" $"q").
  vm_compute. reflexivity.
Defined.

Lemma tryBlock_handles_complete_lines_witness :
  ChatStreaming.streamingContent
    (ChatStreaming.state
       (fst (ChatStreaming.tryBlock [] (fun _ => []) $"conv1" $"q"
               (ChatStreaming.FetchResolves true
                  (Some {| ChatStreaming.reads :=
                             [ eventLine (eventMembers (ContentEvent $"Hi"));
                               [Str.LF];
                               [Str.LF] ++ $"data: {" ];
                           ChatStreaming.ending := ChatStreaming.ReadDone |}))
               demoWorld)))
  = $"Hi".
Proof.
  rewrite (tryBlock_handles_complete_lines [] (fun _ => []) $"conv1" $"q"
             [ eventLine (eventMembers (ContentEvent $"Hi")) ] $"data: {");
    [reflexivity| |repeat constructor|reflexivity].
  constructor; [apply eventLine_noLF|constructor].
Defined.

Lemma chatApi_delivers_the_stream_witness :
  exists events : list ServerEvent,
    ChatController.writes demoOutcome = eventStream events
    /\ ChatApi.sendMessageStream
         {| ChatApi.onSources := false; ChatApi.onDone := true |}
         (ChatStreaming.FetchResolves true
            (Some {| ChatStreaming.reads :=
                       map (fun c => [c])
                           (concat (ChatController.writes demoOutcome));
                     ChatStreaming.ending := ChatStreaming.ReadDone |}))
       = (flat_map (callsOf {| ChatApi.onSources := false;
                               ChatApi.onDone := true |}) events,
          None).
Proof.
  apply (chatApi_delivers_the_stream demoServices demoOpenAI
           (fun n => $"id" ++ Str.ofNat n)
           (fun q => (Qfloor (q * 1000), -3)%Z) 10 11
           {| ChatController.userId := $"alice";
              ChatController.conversationId := $"conv1";
              ChatController.content := $"q" |}
           streamDemoDb).
  vm_compute. reflexivity.
Defined.

Lemma malformed_line_rejects_or_is_skipped_witness :
  ChatApi.sendMessageStream
    {| ChatApi.onSources := true; ChatApi.onDone := true |}
    (ChatStreaming.FetchResolves true
       (Some {| ChatStreaming.reads :=
                  [ concat (eventStream [ContentEvent $"a"])
                    ++ framed [ $"data: {"; eventLine (eventMembers (ContentEvent $"b")) ] ];
                ChatStreaming.ending := ChatStreaming.ReadDone |}))
  = ([ChatApi.OnChunk (Some (JStr $"a"))], Some ChatApi.SyntaxError).
Proof.
  apply (malformed_line_rejects_or_is_skipped [] (fun _ => [])
           {| ChatApi.onSources := true; ChatApi.onDone := true |}
           $"conv1" $"q" [ContentEvent $"a"] $"data: {"
           [eventLine (eventMembers (ContentEvent $"b"))] _
           ChatStreaming.ReadDone demoWorld);
    [reflexivity| |reflexivity|repeat constructor| |vm_compute; reflexivity].
  - vm_compute. intuition discriminate.
  - constructor; [apply eventLine_noLF|constructor].
Defined.

Lemma shown_text_is_saved_text_witness :
  exists u a : Message.t,
    Db.messages (ChatController.db demoOutcome)
    = Db.messages streamDemoDb ++ [u; a]
    /\ ChatStreaming.streamingContent
         (ChatStreaming.state
            (fst (ChatStreaming.tryBlock [] (fun _ => []) $"conv1" $"q"
                    (ChatStreaming.FetchResolves true
                       (Some {| ChatStreaming.reads :=
                                  map (fun c => [c])
                                      (concat (ChatController.writes demoOutcome));
                                ChatStreaming.ending := ChatStreaming.ReadDone |}))
                    (ChatStreaming.begin $"q" demoWorld))))
       = Message.content a.
Proof.
  destruct (shown_text_is_saved_text [] (fun _ => [])
              demoServices demoOpenAI (fun n => $"id" ++ Str.ofNat n)
              (fun q => (Qfloor (q * 1000), -3)%Z) 10 11
              {| ChatController.userId := $"alice";
                 ChatController.conversationId := $"conv1";
                 ChatController.content := $"q" |}
              streamDemoDb _ _ $"conv1" $"q"
              {| ChatApi.onSources := true; ChatApi.onDone := true |}
              (map (fun c => [c]) (concat (ChatController.writes demoOutcome)))
              ChatStreaming.ReadDone demoWorld eq_refl eq_refl)
    as [u [a [Hm [_ [Hs _]]]]].
  - vm_compute. reflexivity.
  - exists u, a. split; [exact Hm|exact Hs].
Defined.

(** ** The chat store: how its actions compose *)
Section ChatStoreActionFacts.
Import ChatStore ChatStoreActions.

Lemma map_map_ext {A B C} (f : A -> B) (g : B -> C) (h : A -> C) (l : list A) :
  (forall x, g (f x) = h x) -> map g (map f l) = map h l.
Proof. intros H. rewrite map_map. now apply map_ext. Qed.

Lemma filter_twice {A} (f : A -> bool) (l : list A) :
  filter f (filter f l) = filter f l.
Proof.
  induction l as [|a l IH]; [reflexivity|]. cbn [filter].
  destruct (f a) eqn:E; [|exact IH]. cbn [filter]. now rewrite E, IH.
Qed.

(** The updates of a message compose. A text set after a chunk was
    appended replaces it; a chunk appended after a text was set extends
    that text, and the message stays marked as not streaming; and
    appending to a message that was just added is adding the message with
    the chunk appended, after appending to the messages that had its id
    before. *)
Theorem message_updates_compose :
  forall (conversationId messageId content chunk : str) (message : Message)
         (state : ChatState),
    updateMessage conversationId messageId content
      (appendToMessage conversationId messageId chunk state)
    = updateMessage conversationId messageId content state
    /\ appendToMessage conversationId messageId chunk
         (updateMessage conversationId messageId content state)
       = updateMessage conversationId messageId (content ++ chunk) state
    /\ appendToMessage conversationId (id message) chunk
         (addMessage conversationId message state)
       = addMessage conversationId
           {| id := id message;
              role := role message;
              ChatStore.content := ChatStore.content message ++ chunk;
              sources := sources message;
              createdAt := createdAt message;
              isStreaming := isStreaming message |}
           (appendToMessage conversationId (id message) chunk state).
Proof.
  intros conversationId messageId content chunk message state.
  unfold updateMessage, appendToMessage, addMessage, setConversationsOf.
  cbn [conversations activeConversationId isLoading stateIsStreaming error].
  split; [|split]; f_equal; rewrite !map_map; apply map_ext; intros c;
    destruct (Str.eqb (conv_id c) conversationId) eqn:Ec;
    cbn [conv_id setMessagesOf]; rewrite ?Ec; try reflexivity;
    unfold setMessagesOf; cbn [messages conv_id title conv_createdAt updatedAt];
    f_equal.
  - apply map_map_ext. intros m.
    destruct (Str.eqb (id m) messageId) eqn:Em; cbn [id]; now rewrite Em.
  - apply map_map_ext. intros m.
    destruct (Str.eqb (id m) messageId) eqn:Em; cbn [id]; now rewrite Em.
  - rewrite map_app. cbn [map]. now rewrite Str_eqb_refl.
Qed.

(** A removed conversation stays removed. Removing the conversation that
    was just added leaves the other conversations and no active
    conversation; removing twice is removing once; and adding a message to
    a removed conversation, appending to one of its messages or setting
    its text changes nothing. *)
Theorem removeConversation_forgets :
  forall (conversation : Conversation) (conversationId messageId text : str)
         (message : Message) (state : ChatState),
    conversations
      (removeConversation (conv_id conversation)
         (addConversation conversation state))
    = conversations (removeConversation (conv_id conversation) state)
    /\ activeConversationId
         (removeConversation (conv_id conversation)
            (addConversation conversation state))
       = None
    /\ removeConversation conversationId
         (removeConversation conversationId state)
       = removeConversation conversationId state
    /\ addMessage conversationId message
         (removeConversation conversationId state)
       = removeConversation conversationId state
    /\ appendToMessage conversationId messageId text
         (removeConversation conversationId state)
       = removeConversation conversationId state
    /\ updateMessage conversationId messageId text
         (removeConversation conversationId state)
       = removeConversation conversationId state.
Proof.
  intros conversation conversationId messageId text message state.
  assert (Hkeep : forall (f : Conversation -> Conversation),
            map (fun c => if Str.eqb (conv_id c) conversationId then f c else c)
                (filter (fun c => negb (Str.eqb (conv_id c) conversationId))
                        (conversations state))
            = filter (fun c => negb (Str.eqb (conv_id c) conversationId))
                     (conversations state)).
  { intros f. apply map_id_on. intros c Hc. apply filter_In in Hc.
    destruct Hc as [_ Hc]. apply negb_true_iff in Hc. now rewrite Hc. }
  split; [|split; [|split; [|split; [|split]]]].
  - cbn [removeConversation addConversation conversations filter].
    now rewrite Str_eqb_refl.
  - cbn [removeConversation addConversation activeConversationId].
    now rewrite Str_eqb_refl.
  - unfold removeConversation.
    cbn [conversations activeConversationId isLoading stateIsStreaming error].
    f_equal.
    + apply filter_twice.
    + destruct (activeConversationId state) as [a|]; [|reflexivity].
      destruct (Str.eqb a conversationId) eqn:Ea; [reflexivity|].
      now rewrite Ea.
  - unfold addMessage, setConversationsOf.
    cbn [removeConversation conversations activeConversationId isLoading
         stateIsStreaming error].
    now rewrite (Hkeep (fun c => setMessagesOf c (messages c ++ [message]))).
  - unfold appendToMessage, setConversationsOf.
    cbn [removeConversation conversations activeConversationId isLoading
         stateIsStreaming error].
    now rewrite (Hkeep (fun c => setMessagesOf c _)).
  - unfold updateMessage, setConversationsOf.
    cbn [removeConversation conversations activeConversationId isLoading
         stateIsStreaming error].
    now rewrite (Hkeep (fun c => setMessagesOf c _)).
Qed.

End ChatStoreActionFacts.

(** ** Documents: an upload read back *)
Section DocumentsReadFacts.
Import Documents DocumentsRead.

Variable cuid : nat -> str.

Lemma fold_left_size (docs : list Document.t) (n : nat) :
  fold_left (fun sum d => sum + Document.size d) docs n
  = n + fold_left (fun sum d => sum + Document.size d) docs 0.
Proof.
  revert n. induction docs as [|d docs IH]; intros n; cbn [fold_left].
  - lia.
  - rewrite IH, (IH (0 + Document.size d)). lia.
Qed.

Lemma totalSize_app (docs more : list Document.t) :
  fold_left (fun sum d => sum + Document.size d) (docs ++ more) 0
  = fold_left (fun sum d => sum + Document.size d) docs 0
    + fold_left (fun sum d => sum + Document.size d) more 0.
Proof. rewrite fold_left_app. apply fold_left_size. Qed.

Lemma map_mapiFrom_const {A B C} (h : B -> C) (f : A -> nat -> B)
  (p : A -> C) :
  (forall x k, h (f x k) = p x) ->
  forall i l, map h (mapiFrom f i l) = map p l.
Proof.
  intros H i l. revert i. induction l as [|x l IH]; intros i; [reflexivity|].
  cbn [mapiFrom map]. now rewrite H, IH.
Qed.

Lemma find_app_fresh {A} (f : A -> bool) (l : list A) (x : A) :
  (forall y, In y l -> f y = false) -> f x = true ->
  find f (l ++ [x]) = Some x.
Proof.
  intros Hl Hx. induction l as [|a l IH]; cbn [app find].
  - now rewrite Hx.
  - rewrite (Hl a (or_introl eq_refl)). apply IH.
    intros y Hy. apply Hl. now right.
Qed.

(** An upload can be read back. When the id given to the new document is
    not the id of an earlier document nor the document id of an earlier
    chunk, then in the database that the upload handler leaves:
    [GET /api/documents/:id] answers 200 with the document of the upload
    answer and with chunks whose contents are the chunks of its text, as
    many and the same, in whatever order the database gives the included
    rows; [getDocuments] lists the document with the chunk count of the
    upload answer; and the statistics count one document more, that many
    chunks more, and the size of the file more. *)
Theorem upload_read_back :
  forall (unordered : list DocumentChunk.t -> list DocumentChunk.t)
         (now : nat) (nowIso : str) (req : UploadRequest) (db db' : Db.t)
         (resp : UploadResponse),
    (forall rows, Permutation (unordered rows) rows) ->
    uploadHandler cuid now nowIso req db = Ok (resp, db') ->
    (forall d, In d (Db.documents db) -> Document.id d <> cuid (Db.created db)) ->
    (forall c, In c (Db.chunks db) ->
               DocumentChunk.documentId c <> cuid (Db.created db)) ->
    let id := Document.id (document resp) in
    (exists chunks,
        getHandler unordered id db'
        = Ok (ChatHandlers.sendSuccess (document resp, chunks) None)
        /\ Permutation (map cv_content chunks)
                       (chunkText (Document.content (document resp)) None))
    /\ (exists listed,
           In listed (getDocuments db')
           /\ dr_id listed = id
           /\ dr_title listed = Document.title (document resp)
           /\ dr_chunkCount listed = Documents.chunkCount resp)
    /\ documentCount (getStats db') = S (documentCount (getStats db))
    /\ DocumentsRead.chunkCount (getStats db')
       = DocumentsRead.chunkCount (getStats db) + Documents.chunkCount resp
    /\ totalSizeBytes (getStats db')
       = totalSizeBytes (getStats db) + Document.size (document resp).
Proof.
  intros unordered now nowIso req db db' resp Hperm Hup Hdoc Hchunk id.
  subst id. unfold uploadHandler in Hup.
  destruct (file req) as [f|]; [|discriminate].
  cbn [createDocument createChunks] in Hup. injection Hup as <- <-.
  cbn [document Documents.chunkCount Document.id Document.title
       Document.content Document.size].
  set (newId := cuid (Db.created db)) in *.
  set (texts := chunkText (buffer f) None).
  match goal with
  | |- context [Db.chunks db ++ ?r] => set (rows := r)
  end.
  assert (Hrows : filter (fun chunk =>
                            Str.eqb (DocumentChunk.documentId chunk) newId)
                         (Db.chunks db ++ rows) = rows).
  { rewrite filter_app, (filter_all_false _ (Db.chunks db)).
    - apply filter_all_true. intros c Hc. unfold rows, mapi in Hc.
      apply In_nth_error in Hc. destruct Hc as [k Hk].
      rewrite mapiFrom_nth_error in Hk.
      destruct (nth_error _ k); [|discriminate]. injection Hk as <-.
      apply Str_eqb_refl.
    - intros c Hc. apply Str_eqb_neq. now apply Hchunk. }
  assert (Hcontents : map DocumentChunk.content rows = texts).
  { unfold rows, mapi.
    rewrite (map_mapiFrom_const _ _ ci_content) by reflexivity.
    rewrite (map_mapiFrom_const _ _ (fun t => t)) by reflexivity.
    apply map_id. }
  split; [|split; [|split; [|split]]].
  - unfold getHandler, getDocument. cbn [Db.documents].
    rewrite find_app_fresh.
    + eexists. split; [reflexivity|].
      unfold chunksOf. cbn [Db.chunks Document.id]. fold newId.
      rewrite Hrows, map_map, <- Hcontents.
      apply Permutation_map, Hperm.
    + intros d Hd. apply Str_eqb_neq. now apply Hdoc.
    + apply Str_eqb_refl.
  - eexists. split.
    + unfold getDocuments. apply in_map. apply orderBy_In.
      cbn [Db.documents]. apply in_or_app. right. left. reflexivity.
    + cbn [dr_id dr_title dr_chunkCount Document.id Document.title].
      repeat split. unfold chunksOf. cbn [Db.chunks]. fold newId.
      rewrite Hrows. unfold rows, mapi. now rewrite !mapiFrom_length.
  - unfold getStats. cbn [documentCount Db.documents].
    rewrite length_app. cbn [length]. lia.
  - unfold getStats. cbn [DocumentsRead.chunkCount Db.chunks].
    rewrite length_app. f_equal. unfold rows, mapi.
    now rewrite !mapiFrom_length.
  - unfold getStats. cbn [totalSizeBytes Db.documents].
    destruct (Db.documents db) as [|d0 docs] eqn:Ed;
      [cbn; lia|].
    rewrite <- Ed. destruct (Db.documents db ++ _) eqn:Ea.
    + apply app_eq_nil in Ea. destruct Ea; discriminate.
    + rewrite <- Ea, totalSize_app. rewrite Ed. cbn. lia.
Qed.

End DocumentsReadFacts.

Definition demoUpload : Documents.UploadRequest :=
  {| Documents.file :=
       Some {| Documents.originalname := $"notes.md";
               Documents.mimetype := $"text/markdown";
               Documents.fileSize := 9;
               Documents.buffer := $"one" ++ [Str.LF; Str.LF; Str.LF] ++ $"two" |};
     Documents.bodyTitle := None |}.

(** A file of two paragraphs of 600 characters, which make two chunks. *)
Definition twoChunkUpload : Documents.UploadRequest :=
  {| Documents.file :=
       Some {| Documents.originalname := $"long.txt";
               Documents.mimetype := $"text/plain";
               Documents.fileSize := 1202;
               Documents.buffer :=
                 repeat "a"%char 600 ++ [Str.LF; Str.LF] ++ repeat "b"%char 600 |};
     Documents.bodyTitle := None |}.

(** The two-chunk file uploaded to the database of the examples and read
    back from a database that gives included rows last first. *)
Lemma upload_read_back_witness :
  exists (resp : Documents.UploadResponse) (db' : Db.t)
         (chunks : list DocumentsRead.ChunkView),
    Documents.uploadHandler (fun n => $"id" ++ Str.ofNat n) 5 $"2024"
      twoChunkUpload demoDb
    = Ok (resp, db')
    /\ Documents.chunkCount resp = 2
    /\ DocumentsRead.getHandler (@rev DocumentChunk.t)
         (Document.id (Documents.document resp)) db'
       = Ok (ChatHandlers.sendSuccess (Documents.document resp, chunks) None)
    /\ map DocumentsRead.cv_content chunks
       = [repeat "b"%char 600; repeat "a"%char 600]
    /\ Permutation (map DocumentsRead.cv_content chunks)
                   [repeat "a"%char 600; repeat "b"%char 600]
    /\ DocumentsRead.documentCount (DocumentsRead.getStats db')
       = S (DocumentsRead.documentCount (DocumentsRead.getStats demoDb))
    /\ exists listed,
         In listed (DocumentsRead.getDocuments db')
         /\ DocumentsRead.dr_title listed = $"long"
         /\ DocumentsRead.dr_chunkCount listed = 2.
Proof.
  assert (Hup : exists resp db',
             Documents.uploadHandler (fun n => $"id" ++ Str.ofNat n) 5 $"2024"
               twoChunkUpload demoDb
             = Ok (resp, db')).
  { eexists. eexists. vm_compute. reflexivity. }
  destruct Hup as [resp [db' Hup]].
  destruct (upload_read_back (fun n => $"id" ++ Str.ofNat n)
              (@rev DocumentChunk.t) 5 $"2024" twoChunkUpload demoDb db' resp
              (fun rows => Permutation_sym (Permutation_rev rows)) Hup)
    as [[chunks [Hget Hperm]] [[listed [Hin [_ [Ht Hc]]]] [Hn _]]].
  - intros d Hd. vm_compute in Hd. intuition (subst; discriminate).
  - intros c Hc. vm_compute in Hc. intuition (subst; discriminate).
  - exists resp, db', chunks. split; [exact Hup|].
    vm_compute in Hup. injection Hup as <- <-.
    split; [reflexivity|]. split; [exact Hget|].
    split; [vm_compute in Hget; injection Hget as <-; reflexivity|].
    split; [exact Hperm|]. split; [exact Hn|].
    exists listed. split; [exact Hin|]. split; [exact Ht|exact Hc].
Defined.

(** ** Storing the embeddings of a document *)
Section EmbeddingsFacts.
Import Embeddings.

Variable batch : str -> list str -> Result (list (list Q) * nat).


















End EmbeddingsFacts.





(** ** Conversations: written, then read *)
Section ConversationFacts.
Import ChatService.

Variable cuid : nat -> str.

Lemma orderBy_head {A} (key : A -> Q) (x : A) (l : list A) :
  In x l ->
  (forall y, In y l -> y = x \/ (key x < key y)%Q) ->
  exists rest, orderBy key l = x :: rest.
Proof.
  induction l as [|a l IH]; intros Hin Hmin; [destruct Hin|].
  cbn [orderBy fold_right]. fold (orderBy key l).
  destruct (Hmin a (or_introl eq_refl)) as [->|Hlt].
  - destruct (orderBy key l) as [|y rest] eqn:E; [now exists []|].
    assert (Hy : In y l). { apply (orderBy_In key). rewrite E. now left. }
    cbn [insertBy].
    destruct (Hmin y (or_intror Hy)) as [->|Hxy].
    + rewrite (proj2 (Qle_bool_iff _ _) (Qle_refl _)). eauto.
    + rewrite (proj2 (Qle_bool_iff _ _) (Qlt_le_weak _ _ Hxy)). eauto.
  - destruct Hin as [->|Hin]; [exfalso; now apply (Qlt_irrefl (key x))|].
    destruct (IH Hin (fun y Hy => Hmin y (or_intror Hy))) as [rest E].
    rewrite E. cbn [insertBy].
    destruct (Qle_bool (key a) (key x)) eqn:El.
    + apply Qle_bool_iff in El. exfalso.
      apply (Qlt_irrefl (key x)). now apply Qlt_le_trans with (key a).
    + eauto.
Qed.

Lemma find_skip {A} (f : A -> bool) (l more : list A) :
  (forall y, In y l -> f y = false) -> find f (l ++ more) = find f more.
Proof.
  intros H. induction l as [|a l IH]; [reflexivity|].
  cbn [app find]. rewrite (H a (or_introl eq_refl)). apply IH.
  intros y Hy. apply H. now right.
Qed.

Lemma timeKey_lt (a b : nat) : a < b -> (- timeKey b < - timeKey a)%Q.
Proof.
  intros H. unfold timeKey. apply Qopp_lt_compat.
  rewrite <- Zlt_Qlt. lia.
Qed.

(** A conversation just created is read back: when the new id is not the
    id of an earlier conversation nor the conversation id of an earlier
    message, [getConversation] for the creator returns the row created,
    with no messages, and for every other user it returns [null]; and the
    handlers answer 201 with a conversation that has the title given, or
    [New Chat], and the settings given, or the default settings, and then
    200 with that conversation. *)
Theorem conversation_created_read_back :
  forall (now : nat) (userId other : str) (title : option str)
         (settings : option ConversationSettings.t) (db : Db.t),
    (forall c, In c (Db.conversations db) ->
               Conversation.id c <> cuid (Db.created db)) ->
    (forall m, In m (Db.messages db) ->
               Message.conversationId m <> cuid (Db.created db)) ->
    other <> userId ->
    let created := ChatHandlers.createConversation cuid now userId title settings db in
    exists conversation : Conversation.t,
      ChatHandlers.response created
      = Ok (ChatHandlers.sendSuccess conversation (Some 201%Z))
      /\ Conversation.userId conversation = userId
      /\ Conversation.title conversation
         = Some (match title with Some t => t | None => $"New Chat" end)
      /\ Conversation.settings conversation
         = Some (match settings with Some s => s | None => DEFAULT_SETTINGS end)
      /\ getConversation (Conversation.id conversation) userId
           (ChatHandlers.db created)
         = Some (conversation, [])
      /\ ChatHandlers.response
           (ChatHandlers.getConversation (Conversation.id conversation) userId
              (ChatHandlers.db created))
         = Ok (ChatHandlers.sendSuccess (conversation, []) None)
      /\ getConversation (Conversation.id conversation) other
           (ChatHandlers.db created)
         = None.
Proof.
  intros now userId other title settings db Hc Hm Ho created. subst created.
  unfold ChatHandlers.createConversation, createConversation.
  cbn [ChatHandlers.response ChatHandlers.db].
  eexists. split; [reflexivity|].
  cbn [Conversation.userId Conversation.title Conversation.settings
       Conversation.id].
  repeat (split; [reflexivity|]).
  set (newId := cuid (Db.created db)) in *.
  assert (Hfind : forall u c, In c (Db.conversations db) ->
                             ownedBy newId u c = false).
  { intros u c Hin. unfold ownedBy.
    apply Hc, Str_eqb_neq in Hin. fold newId in Hin. now rewrite Hin. }
  assert (Hmsgs : forall db', Db.messages db' = Db.messages db ->
                              messagesOf newId db' = []).
  { intros db' E. unfold messagesOf. rewrite E. apply filter_all_false.
    intros m Hin. apply Str_eqb_neq. now apply Hm. }
  assert (Hget : forall u,
            getConversation newId u
              {| Db.documents := Db.documents db;
                 Db.chunks := Db.chunks db;
                 Db.conversations :=
                   Db.conversations db
                   ++ [{| Conversation.id := newId;
                          Conversation.userId := userId;
                          Conversation.title :=
                            Some (match title with
                                  | Some t => t
                                  | None => $"New Chat"
                                  end);
                          Conversation.settings :=
                            Some (match settings with
                                  | Some s => s
                                  | None => DEFAULT_SETTINGS
                                  end);
                          Conversation.createdAt := now;
                          Conversation.updatedAt := now |}];
                 Db.messages := Db.messages db;
                 Db.created := S (Db.created db) |}
            = if Str.eqb userId u
              then Some ({| Conversation.id := newId;
                            Conversation.userId := userId;
                            Conversation.title :=
                              Some (match title with
                                    | Some t => t
                                    | None => $"New Chat"
                                    end);
                            Conversation.settings :=
                              Some (match settings with
                                    | Some s => s
                                    | None => DEFAULT_SETTINGS
                                    end);
                            Conversation.createdAt := now;
                            Conversation.updatedAt := now |}, [])
              else None).
  { intros u. unfold getConversation. cbn [Db.conversations].
    rewrite (find_skip _ _ _ (Hfind u)).
    cbn [find]. unfold ownedBy at 1.
    cbn [Conversation.id Conversation.userId].
    rewrite Str_eqb_refl. cbn [andb].
    destruct (Str.eqb userId u); [|reflexivity].
    cbn [Conversation.id]. now rewrite Hmsgs. }
  split; [|split].
  - rewrite Hget. now rewrite Str_eqb_refl.
  - unfold ChatHandlers.getConversation. rewrite Hget.
    now rewrite Str_eqb_refl.
  - rewrite Hget. apply not_eq_sym, Str_eqb_neq in Ho. now rewrite Ho.
Qed.

Lemma find_map_owned (conversationId userId : str)
  (h : Conversation.t -> Conversation.t) (l : list Conversation.t) :
  (forall c, ownedBy conversationId userId (h c)
             = ownedBy conversationId userId c) ->
  find (ownedBy conversationId userId) (map h l)
  = option_map h (find (ownedBy conversationId userId) l).
Proof.
  intros H. induction l as [|a l IH]; [reflexivity|].
  cbn [map find]. rewrite H. now destruct (ownedBy conversationId userId a).
Qed.

(** What the owner writes, the owner reads. When [getConversation] finds a
    conversation for the user: after [updateConversationSettings] by the
    user it finds the same conversation with the new settings and the new
    [updatedAt], and the same messages; after [deleteConversation] by the
    user it finds nothing, and the handler of [GET] answers with the 404
    error; both writes report at least one row. *)
Theorem owner_writes_are_read :
  forall (now : nat) (conversationId userId : str)
         (settings : ConversationSettings.t) (db : Db.t)
         (conversation : Conversation.t) (history : list Message.t),
    getConversation conversationId userId db = Some (conversation, history) ->
    let updated :=
      updateConversationSettings now conversationId userId settings db in
    let deleted := deleteConversation conversationId userId db in
    getConversation conversationId userId (snd updated)
    = Some ({| Conversation.id := Conversation.id conversation;
               Conversation.userId := Conversation.userId conversation;
               Conversation.title := Conversation.title conversation;
               Conversation.settings := Some settings;
               Conversation.createdAt := Conversation.createdAt conversation;
               Conversation.updatedAt := now |},
            history)
    /\ 1 <= fst updated
    /\ getConversation conversationId userId (snd deleted) = None
    /\ ChatHandlers.response
         (ChatHandlers.getConversation conversationId userId (snd deleted))
       = Throw ChatHandlers.notFound
    /\ 1 <= fst deleted.
Proof.
  intros now conversationId userId settings db conversation history Hg
    updated deleted. subst updated deleted.
  unfold getConversation in Hg.
  destruct (find _ _) as [c|] eqn:Ef; [|discriminate].
  injection Hg as <- <-.
  pose proof (find_some _ _ Ef) as [Hin Ho].
  assert (Hcount : 1 <= length (filter (ownedBy conversationId userId)
                                       (Db.conversations db))).
  { assert (Hf : In c (filter (ownedBy conversationId userId)
                              (Db.conversations db)))
      by (apply filter_In; now split).
    destruct (filter _ _); [destruct Hf|cbn; lia]. }
  assert (Hnone : getConversation conversationId userId
                    (snd (deleteConversation conversationId userId db))
                  = None).
  { unfold getConversation, deleteConversation. cbn [snd Db.conversations].
    rewrite find_all_false; [reflexivity|].
    intros x Hx. apply filter_In in Hx. destruct Hx as [_ Hx].
    now apply negb_true_iff in Hx. }
  split; [|split; [|split; [|split]]].
  - unfold getConversation, updateConversationSettings.
    cbn [snd Db.conversations].
    rewrite (find_map_owned conversationId userId).
    + rewrite Ef. cbn [option_map]. rewrite Ho. reflexivity.
    + intros x. destruct (ownedBy conversationId userId x) eqn:Ex;
        [|exact Ex].
      unfold ownedBy in *. exact Ex.
  - exact Hcount.
  - exact Hnone.
  - unfold ChatHandlers.getConversation. now rewrite Hnone.
  - exact Hcount.
Qed.

(** A new message moves its conversation to the top of the list. When the
    conversation [conversationId] exists, is the only one with its id and
    belongs to the user, and the message is added at a time later than
    the [updatedAt] of the user's other conversations and than the
    [createdAt] of the messages the conversation has, then
    [getConversations] for the user lists this conversation first, with
    the new [updatedAt], and with the new message as its latest one. *)
Theorem new_message_moves_conversation_up :
  forall (now : nat) (userId : str) (input : CreateMessageInput) (db : Db.t)
         (conversation : Conversation.t),
    In conversation (Db.conversations db) ->
    Conversation.id conversation = in_conversationId input ->
    Conversation.userId conversation = userId ->
    (forall c, In c (Db.conversations db) ->
               Conversation.id c = in_conversationId input ->
               c = conversation) ->
    (forall c, In c (Db.conversations db) ->
               Conversation.userId c = userId ->
               c = conversation \/ Conversation.updatedAt c < now) ->
    (forall m, In m (Db.messages db) ->
               Message.conversationId m = in_conversationId input ->
               Message.createdAt m < now) ->
    exists (message : Message.t) (db' : Db.t)
           (rest : list (Conversation.t * list Message.t)),
      addMessage cuid now input db = Ok (message, db')
      /\ Message.content message = in_content input
      /\ getConversations userId db'
         = ({| Conversation.id := Conversation.id conversation;
               Conversation.userId := Conversation.userId conversation;
               Conversation.title := Conversation.title conversation;
               Conversation.settings := Conversation.settings conversation;
               Conversation.createdAt := Conversation.createdAt conversation;
               Conversation.updatedAt := now |},
            [message])
           :: rest.
Proof.
  intros now userId input db conversation Hin Hid Hu Honly Hlater Hmsgs.
  unfold addMessage.
  assert (Hex : existsb (fun c => Str.eqb (Conversation.id c)
                                          (in_conversationId input))
                        (Db.conversations db) = true).
  { apply existsb_exists. exists conversation. split; [exact Hin|].
    now apply Str_eqb_eq. }
  rewrite Hex.
  set (touch := fun c : Conversation.t =>
                  if Str.eqb (Conversation.id c) (in_conversationId input)
                  then {| Conversation.id := Conversation.id c;
                          Conversation.userId := Conversation.userId c;
                          Conversation.title := Conversation.title c;
                          Conversation.settings := Conversation.settings c;
                          Conversation.createdAt := Conversation.createdAt c;
                          Conversation.updatedAt := now |}
                  else c).
  set (message := {| Message.id := cuid (Db.created db);
                     Message.conversationId := in_conversationId input;
                     Message.role := in_role input;
                     Message.content := in_content input;
                     Message.sources := in_sources input;
                     Message.createdAt := now |}).
  set (db1 := {| Db.documents := Db.documents db;
                 Db.chunks := Db.chunks db;
                 Db.conversations := map touch (Db.conversations db);
                 Db.messages := Db.messages db ++ [message];
                 Db.created := S (Db.created db) |}).
  set (top := touch conversation).
  assert (Etop : top = {| Conversation.id := Conversation.id conversation;
                          Conversation.userId := Conversation.userId conversation;
                          Conversation.title := Conversation.title conversation;
                          Conversation.settings := Conversation.settings conversation;
                          Conversation.createdAt := Conversation.createdAt conversation;
                          Conversation.updatedAt := now |}).
  { unfold top, touch. apply Str_eqb_eq in Hid. now rewrite Hid. }
  assert (Huser : forall c, Conversation.userId (touch c) = Conversation.userId c).
  { intros c. unfold touch. now destruct (Str.eqb _ _). }
  destruct (orderBy_head
              (fun c => (- timeKey (Conversation.updatedAt c))%Q) top
              (filter (fun c => Str.eqb (Conversation.userId c) userId)
                      (Db.conversations db1)))
    as [others Eo].
  { apply filter_In. split; [now apply in_map|].
    unfold top. rewrite Huser. now apply Str_eqb_eq. }
  { intros y Hy. apply filter_In in Hy. destruct Hy as [Hy Hyu].
    apply in_map_iff in Hy. destruct Hy as [c [<- Hc]].
    rewrite Huser in Hyu. apply Str_eqb_eq in Hyu.
    destruct (Str.eqb (Conversation.id c) (in_conversationId input)) eqn:Ec.
    + apply Str_eqb_eq in Ec. left. now rewrite (Honly c Hc Ec).
    + destruct (Hlater c Hc Hyu) as [->|Hlt]; [now left|].
      right. replace (touch c) with c by (unfold touch; now rewrite Ec).
      rewrite Etop.
      cbn [Conversation.updatedAt]. now apply timeKey_lt. }
  destruct (orderBy_head
              (fun m => (- timeKey (Message.createdAt m))%Q) message
              (messagesOf (Conversation.id top) db1))
    as [older Em].
  { unfold messagesOf. cbn [Db.messages db1]. apply filter_In.
    split; [apply in_or_app; right; now left|].
    rewrite Etop. cbn [Conversation.id Message.conversationId message].
    now apply Str_eqb_eq. }
  { intros m Hm. unfold messagesOf in Hm. cbn [Db.messages db1] in Hm.
    apply filter_In in Hm. destruct Hm as [Hm Hc].
    apply in_app_or in Hm. destruct Hm as [Hm|[<-|[]]]; [|now left].
    right. cbn [Message.createdAt message]. apply timeKey_lt.
    apply Hmsgs; [exact Hm|].
    apply Str_eqb_eq in Hc. rewrite Hc, Etop. exact Hid. }
  exists message, db1,
    (map (fun c =>
            (c, firstn 1
                  (orderBy (fun m => (- timeKey (Message.createdAt m))%Q)
                           (messagesOf (Conversation.id c) db1))))
         others).
  split; [reflexivity|]. split; [reflexivity|].
  unfold getConversations. rewrite Eo. cbn [map]. rewrite Em, <- Etop.
  reflexivity.
Qed.

End ConversationFacts.

Lemma conversation_created_read_back_witness :
  exists conversation : Conversation.t,
    Conversation.title conversation = Some $"New Chat"
    /\ ChatService.getConversation (Conversation.id conversation) $"alice"
         (ChatHandlers.db
            (ChatHandlers.createConversation (fun n => $"id" ++ Str.ofNat n) 7
               $"alice" None None aliceDb))
       = Some (conversation, [])
    /\ ChatService.getConversation (Conversation.id conversation) $"bob"
         (ChatHandlers.db
            (ChatHandlers.createConversation (fun n => $"id" ++ Str.ofNat n) 7
               $"alice" None None aliceDb))
       = None.
Proof.
  destruct (conversation_created_read_back (fun n => $"id" ++ Str.ofNat n) 7
              $"alice" $"bob" None None aliceDb)
    as [conversation [_ [_ [Ht [_ [Hg [_ Hn]]]]]]].
  - intros c [<-|[]]. vm_compute. discriminate.
  - intros m [<-|[]]. vm_compute. discriminate.
  - vm_compute. discriminate.
  - exists conversation. split; [exact Ht|]. split; [exact Hg|exact Hn].
Defined.

Lemma owner_writes_are_read_witness :
  option_map (fun found => Conversation.settings (fst found))
    (ChatService.getConversation $"conv1" $"alice"
       (snd (ChatService.updateConversationSettings 9 $"conv1" $"alice"
               {| ConversationSettings.topK := 3;
                  ConversationSettings.threshold := (1 # 2)%Q;
                  ConversationSettings.documentIds := None |} aliceDb)))
  = Some (Some {| ConversationSettings.topK := 3;
                  ConversationSettings.threshold := (1 # 2)%Q;
                  ConversationSettings.documentIds := None |})
  /\ ChatService.getConversation $"conv1" $"alice"
       (snd (ChatService.deleteConversation $"conv1" $"alice" aliceDb))
     = None.
Proof.
  destruct (owner_writes_are_read 9 $"conv1" $"alice"
              {| ConversationSettings.topK := 3;
                 ConversationSettings.threshold := (1 # 2)%Q;
                 ConversationSettings.documentIds := None |}
              aliceDb _ _ eq_refl)
    as [Hu [_ [Hd _]]].
  rewrite Hu. split; [reflexivity|exact Hd].
Defined.

Lemma new_message_moves_conversation_up_witness :
  exists (message : Message.t) (db' : Db.t)
         (rest : list (Conversation.t * list Message.t)),
    ChatService.addMessage (fun n => $"id" ++ Str.ofNat n) 5
      {| ChatService.in_conversationId := $"conv1";
         ChatService.in_role := user;
         ChatService.in_content := $"again";
         ChatService.in_sources := None |} aliceDb
    = Ok (message, db')
    /\ Message.content message = $"again"
    /\ map (fun entry => Conversation.updatedAt (fst entry))
           (ChatService.getConversations $"alice" db')
       = 5 :: map (fun entry => Conversation.updatedAt (fst entry)) rest.
Proof.
  destruct (new_message_moves_conversation_up
              (fun n => $"id" ++ Str.ofNat n) 5 $"alice"
              {| ChatService.in_conversationId := $"conv1";
                 ChatService.in_role := user;
                 ChatService.in_content := $"again";
                 ChatService.in_sources := None |}
              aliceDb
              {| Conversation.id := $"conv1";
                 Conversation.userId := $"alice";
                 Conversation.title := Some $"New Chat";
                 Conversation.settings := Some DEFAULT_SETTINGS;
                 Conversation.createdAt := 1;
                 Conversation.updatedAt := 2 |})
    as [message [db' [rest [Ha [Hc Hg]]]]].
  - left. reflexivity.
  - reflexivity.
  - reflexivity.
  - intros c [<-|[]] _. reflexivity.
  - intros c [<-|[]] _. left. reflexivity.
  - intros m [<-|[]] _. cbn. lia.
  - exists message, db', rest. split; [exact Ha|]. split; [exact Hc|].
    rewrite Hg. reflexivity.
Defined.

(** ** From the server's answer to the client's result *)
Section WireFacts.
Import Request Wire.

Variable ToString : json -> str.

Lemma lookup_first (k : str) (v : json) (rest : list (str * json)) :
  JSON.lookup k rest = None -> JSON.lookup k ((k, v) :: rest) = Some v.
Proof. intros H. cbn [JSON.lookup]. now rewrite H, Str_eqb_refl. Qed.


Lemma respond_without_body {Body} (status : Z) (body : Body) :
  Express.respond status body = Express.Sent status None <->
  status = 204%Z \/ status = 205%Z \/ status = 304%Z.
Proof.
  unfold Express.respond, Express.accepts, Express.bodiless.
  destruct (100 <=? status)%Z eqn:E1; destruct (status <=? 999)%Z eqn:E2;
    destruct (status <? 200)%Z eqn:E3; destruct (status =? 204)%Z eqn:E4;
    destruct (status =? 205)%Z eqn:E5; destruct (status =? 304)%Z eqn:E6;
    cbn [negb andb orb]; split; intros H;
    try discriminate H; try reflexivity; try (exfalso; lia); lia.
Qed.


End WireFacts.


(** ** Authentication *)
Section AuthFacts.
Import AuthMiddleware.

(** [requireAuth] lets a request pass only with the user of a session, and
    then the user id attached is the id of that user. In every other case
    an error goes to [next]; unless [getSession] itself threw an
    [ApiError], the error handler answers it with 401 and UNAUTHORIZED in
    every environment, with [Authentication required] when there is no
    session or no user and [Authentication failed] when [getSession]
    threw. [optionalAuth] always lets the request pass, with a user id
    exactly when the session has a user. *)
Theorem requireAuth_passes_or_401 :
  forall (NODE_ENV : option str) (outcome : SessionOutcome),
    match requireAuth outcome with
    | Next req =>
        exists u, outcome = SessionResolves (Some (Some u))
                  /\ userId req = Some (su_id u)
                  /\ optionalAuth outcome = Next req
    | NextError e =>
        (exists req, optionalAuth outcome = Next req /\ userId req = None)
        /\ match outcome with
           | SessionThrows (Some thrown) => e = thrown
           | SessionThrows None =>
               ErrorMiddleware.errorHandler NODE_ENV e
               = ErrorMiddleware.sendError $"Authentication failed"
                   (Some 401%Z) (Some $"UNAUTHORIZED")
           | SessionResolves _ =>
               ErrorMiddleware.errorHandler NODE_ENV e
               = ErrorMiddleware.sendError $"Authentication required"
                   (Some 401%Z) (Some $"UNAUTHORIZED")
           end
    end.
Proof.
  intros NODE_ENV outcome.
  destruct outcome as [[[u|]|]|[thrown|]]; cbn [requireAuth optionalAuth].
  - exists u. repeat split.
  - split; [eexists; split; reflexivity|reflexivity].
  - split; [eexists; split; reflexivity|reflexivity].
  - split; [eexists; split; reflexivity|reflexivity].
  - split; [eexists; split; reflexivity|reflexivity].
Qed.

End AuthFacts.

(** ** A document is not searchable before its embeddings are stored *)
Section SearchableFacts.
Import Documents.

Variable svc : Retrieval.Services.
Variable openai : Completion.OpenAI.
Variable cuid : nat -> str.

Lemma complete_sources (userMessage : str)
  (options : Completion.CompletionOptions) (db : Db.t)
  (answer : Completion.CompletionResult) :
  snd (Completion.complete svc openai userMessage options db) = Ok answer ->
  retrievalOutcome svc userMessage options db
  = Ok (Completion.result_sources answer).
Proof.
  unfold Completion.complete. rewrite retrieve_outcome.
  destruct (retrievalOutcome svc userMessage options db) as [sources|e];
    cbn [bind]; cbv beta iota; cbn [snd]; [|discriminate].
  destruct (Completion.create openai _) as [completion|e]; cbn [bind];
    [|discriminate].
  destruct (Completion.choices completion); [discriminate|].
  now intros [= <-].
Qed.

(** The chunks of an upload have no embedding, so until the embeddings are
    stored no search returns them: when no earlier chunk carries the id
    given to the new document, every result of a search in the database
    that the upload handler leaves belongs to another document; and so do
    the sources of every completion. *)
Theorem upload_not_searchable_yet :
  forall (now : nat) (nowIso : str) (req : UploadRequest) (db db' : Db.t)
         (resp : UploadResponse) (query : str) (options : RetrievalOptions.t)
         (results : list SearchResult.t),
    uploadHandler cuid now nowIso req db = Ok (resp, db') ->
    (forall c, In c (Db.chunks db) ->
               DocumentChunk.documentId c <> cuid (Db.created db)) ->
    Retrieval.search svc query options db' = Ok results ->
    Forall (fun r => SearchResult.documentId r <> Document.id (document resp))
           results
    /\ forall (userMessage : str) (completionOptions : Completion.CompletionOptions)
              (answer : Completion.CompletionResult),
         snd (Completion.complete svc openai userMessage completionOptions db')
         = Ok answer ->
         Forall (fun r => SearchResult.documentId r
                          <> Document.id (document resp))
                (Completion.result_sources answer).
Proof.
  intros now nowIso req db db' resp query options results Hup Hfresh Hs.
  unfold uploadHandler in Hup.
  destruct (file req) as [f|]; [|discriminate].
  cbn [createDocument createChunks] in Hup. injection Hup as <- <-.
  cbn [document Document.id] in *.
  set (newId := cuid (Db.created db)) in *.
  match type of Hs with
  | Retrieval.search _ _ _ ?d = _ => set (db1 := d) in *
  end.
  assert (Hrows : forall row e,
            In row (Db.chunks db1) ->
            DocumentChunk.embedding row = Some e ->
            DocumentChunk.documentId row <> newId).
  { intros row e Hin He. unfold db1 in Hin. cbn [Db.chunks] in Hin.
    apply in_app_or in Hin. destruct Hin as [Hin|Hin]; [now apply Hfresh|].
    exfalso. unfold mapi in Hin. apply In_nth_error in Hin.
    destruct Hin as [k Hk]. rewrite mapiFrom_nth_error in Hk.
    destruct (nth_error _ k); [|discriminate]. cbn [option_map] in Hk.
    injection Hk as Hk. subst row. discriminate He. }
  assert (Hany : forall q o rs,
            Retrieval.search svc q o db1 = Ok rs ->
            Forall (fun r => SearchResult.documentId r <> newId) rs).
  { intros q o rs Hq.
    destruct (search_Ok svc q o db1 rs Hq) as [r [ids [_ [_ ->]]]].
    apply Forall_forall. intros x Hx. apply in_map_iff in Hx.
    destruct Hx as [raw [<- Hraw]]. apply filter_In in Hraw.
    destruct Hraw as [Hraw _].
    destruct (queryRaw_spec svc (Retrieval.embedding r) ids (topKOf o) db1)
      as [_ [_ Hall]].
    rewrite Forall_forall in Hall.
    destruct (Hall raw Hraw) as [row [e [Hin [He [_ [Hd _]]]]]].
    cbn [Retrieval.toSearchResult SearchResult.documentId]. rewrite Hd.
    now apply (Hrows row e). }
  split; [now apply (Hany query options)|].
  intros userMessage completionOptions answer Ha.
  apply complete_sources in Ha. unfold retrievalOutcome in Ha.
  destruct (Completion.defaulted (Completion.useRAG completionOptions) true).
  - now apply (Hany _ _ _ Ha).
  - injection Ha as <-. constructor.
Qed.

End SearchableFacts.

Lemma upload_not_searchable_yet_witness :
  exists (resp : Documents.UploadResponse) (db' : Db.t)
         (results : list SearchResult.t),
    Documents.uploadHandler (fun n => $"id" ++ Str.ofNat n) 5 $"2024"
      demoUpload demoDb
    = Ok (resp, db')
    /\ Retrieval.search demoServices $"q" RetrievalOptions.none db' = Ok results
    /\ Forall (fun r => SearchResult.documentId r
                        <> Document.id (Documents.document resp))
              results.
Proof.
  eexists. eexists. eexists. split; [reflexivity|]. split; [reflexivity|].
  refine (proj1 (upload_not_searchable_yet demoServices demoOpenAI
                   (fun n => $"id" ++ Str.ofNat n) 5 $"2024" demoUpload demoDb
                   _ _ $"q" RetrievalOptions.none _ eq_refl _ eq_refl)).
  intros c [<-|[<-|[<-|[<-|[]]]]]; vm_compute; discriminate.
Defined.

(** ** Search: what the options do *)
Section SearchOptionFacts.

Variable svc : Retrieval.Services.




End SearchOptionFacts.


(** ** The title taken from a file name *)
Section TitleFacts.
Import Documents.

Definition isDot (c : ascii) : bool := Ascii.eqb c "."%char.
Definition isSlash (c : ascii) : bool := Ascii.eqb c "/"%char.

(** An extension: a dot, then one or more characters that are neither a
    dot nor a slash. *)
Definition isExtension (ext : str) : Prop :=
  exists e, ext = "."%char :: e /\ e <> []
            /\ Forall (fun c => isDot c = false /\ isSlash c = false) e.

Lemma takeWhile_dropWhile (p : ascii -> bool) (s : str) :
  s = Str.takeWhile p s ++ Str.dropWhile p s.
Proof.
  induction s as [|c r IH]; [reflexivity|]. cbn.
  destruct (p c); cbn; [now rewrite <- IH|reflexivity].
Qed.

Lemma takeWhile_all (p : ascii -> bool) (s : str) :
  Forall (fun c => p c = true) (Str.takeWhile p s).
Proof.
  induction s as [|c r IH]; cbn; [constructor|].
  destruct (p c) eqn:E; [now constructor|constructor].
Qed.

Lemma dropWhile_stops (p : ascii -> bool) (s : str) (x : ascii) :
  In x s -> p x = false ->
  exists c rest, Str.dropWhile p s = c :: rest /\ p c = false.
Proof.
  intros Hin Hx. induction s as [|c r IH]; [destruct Hin|]. cbn.
  destruct (p c) eqn:E; [|now exists c, r].
  destruct Hin as [->|Hin]; [congruence|]. now apply IH.
Qed.

(** The name splits at its last dot. *)
Lemma split_at_last_dot (name : str) :
  existsb isDot name = true ->
  let ext := rev (Str.takeWhile (fun c => negb (isDot c)) (rev name)) in
  name = firstn (length name - S (length ext)) name ++ "."%char :: ext.
Proof.
  intros Hdot ext.
  pose proof (takeWhile_dropWhile (fun c => negb (isDot c)) (rev name)) as Hs.
  apply existsb_exists in Hdot. destruct Hdot as [x [Hin Hx]].
  destruct (dropWhile_stops (fun c => negb (isDot c)) (rev name) x)
    as [c [rest [Ed Ec]]].
  { now apply in_rev in Hin. }
  { now rewrite Hx. }
  apply negb_false_iff in Ec. unfold isDot in Ec. apply Ascii.eqb_eq in Ec.
  subst c. rewrite Ed in Hs.
  apply (f_equal (@rev ascii)) in Hs. rewrite rev_involutive in Hs.
  rewrite rev_app_distr in Hs. cbn [rev] in Hs. rewrite <- app_assoc in Hs.
  cbn [app] in Hs. fold ext in Hs. clearbody ext. clear Hin Ed. subst name.
  rewrite length_app. cbn [length].
  replace (length (rev rest) + S (length ext) - S (length ext))
    with (length (rev rest) + 0) by lia.
  rewrite firstn_app_2. cbn [firstn]. now rewrite app_nil_r.
Qed.

(** [stripExtension] removes the last extension of a name and nothing
    else: the name is the result followed by nothing or by one extension;
    and nothing is removed only from a name that does not end with an
    extension. *)
Theorem stripExtension_removes_one_extension :
  forall name : str,
    exists ext,
      name = stripExtension name ++ ext
      /\ (ext = [] \/ isExtension ext)
      /\ (ext = [] ->
          forall stem ext', name = stem ++ ext' -> ~ isExtension ext').
Proof.
  intros name. unfold stripExtension.
  set (ext := rev (Str.takeWhile _ (rev name))).
  assert (Hnodot : Forall (fun c => isDot c = false) ext).
  { unfold ext. apply Forall_rev.
    eapply Forall_impl; [|apply takeWhile_all].
    intros c H. now apply negb_true_iff in H. }
  destruct (existsb _ name) eqn:Ed; cbn [andb].
  - pose proof (split_at_last_dot name Ed) as Hs. cbv zeta in Hs.
    change (rev (Str.takeWhile _ (rev name))) with ext in Hs.
    destruct (Str.truthy ext) eqn:Et; cbn [andb].
    + destruct (forallb _ ext) eqn:Ef.
      * exists ("."%char :: ext). split; [exact Hs|].
        split; [|discriminate]. right. exists ext.
        split; [reflexivity|]. split; [now destruct ext|].
        rewrite forallb_forall in Ef. rewrite Forall_forall in *.
        intros c Hc. split; [now apply Hnodot|].
        apply negb_true_iff. now apply Ef.
      * exists []. split; [now rewrite app_nil_r|]. split; [now left|].
        intros _ stem ext' E [e [-> [Hne He]]].
        assert (e = ext).
        { rewrite Hs in E. apply (f_equal (@rev ascii)) in E.
          rewrite !rev_app_distr in E. cbn [rev] in E.
          rewrite <- !app_assoc in E. cbn [app] in E.
          assert (Hu : forall a b x y,
                    Forall (fun c => isDot c = false) a ->
                    Forall (fun c => isDot c = false) b ->
                    a ++ "."%char :: x = b ++ "."%char :: y -> a = b).
          { clear. induction a as [|a0 a IH]; intros b x y Ha Hb E.
            - destruct b as [|b0 b]; [reflexivity|].
              inversion Hb; subst. injection E as <- _. discriminate.
            - destruct b as [|b0 b].
              + inversion Ha; subst. injection E as -> _. discriminate.
              + injection E as <- E. inversion Ha; inversion Hb; subst.
                f_equal. eapply IH; eauto. }
          apply Hu in E.
          - apply (f_equal (@rev ascii)) in E.
            now rewrite !rev_involutive in E.
          - now apply Forall_rev.
          - apply Forall_rev. eapply Forall_impl; [|exact He]. now intros c [H _]. }
        subst e.
        assert (forallb (fun c => negb (Ascii.eqb c "/")) ext = true);
          [|congruence].
        apply forallb_forall. intros c Hc. rewrite Forall_forall in He.
        apply negb_true_iff. now apply He.
    + exists []. split; [now rewrite app_nil_r|]. split; [now left|].
      intros _ stem ext' E [e [-> [Hne He]]].
      assert (Eext : ext = []) by (now destruct ext).
      rewrite Eext in Hs.
      destruct (exists_last Hne) as [e' [x Ee]]. subst e.
      rewrite Hs in E.
      change (stem ++ "."%char :: e' ++ [x])
        with (stem ++ ("."%char :: e') ++ [x]) in E.
      rewrite app_assoc in E. apply app_inj_tail in E. destruct E as [_ <-].
      rewrite Forall_forall in He.
      destruct (He "."%char) as [H _]; [|discriminate].
      apply in_or_app. right. now left.
  - exists []. split; [now rewrite app_nil_r|]. split; [now left|].
    intros _ stem ext' E [e [-> _]].
    assert (existsb isDot name = true); [|unfold isDot in *; congruence].
    rewrite E, existsb_app. cbn. now rewrite orb_true_r.
Qed.

End TitleFacts.
